(** * PDF Pro Converter: the page-set engine of [pdfService.js]

    A shallow embedding of the parts of [PdfService] that select, group,
    copy and transform pages: [_parseRanges], [mergePdfs],
    [_splitWithPDFLib] / [splitPdf], [rotatePdf], [cropPdf] and
    [extractTableFromPdf], followed by the properties the specification
    states about them, and by further properties of these functions, of
    [_splitManually], [comparePdfs], [pdfToHtml], the merge input and the
    view model.

    Conventions of the embedding.
    - A JavaScript string is the list of its UTF-16 code units.
    - The integers the code handles (page numbers, page counts, angles) are
      JavaScript Numbers holding integers; they are modelled by [Z], and a
      Number that may be [NaN] by [num].  [parseInt] gives the exact integer
      it reads, where JavaScript gives the binary64 nearest to it; the
      two are the same for the safe integers, below 2^53 in magnitude.
      [_parseRanges] only compares what it reads with page counts, which
      lie far below 2^53, where comparing Numbers and comparing integers
      agree; [rotatePdf] and [App.splitPdf] compute with what they read,
      and the statements about them are made for safe integers.  Page
      geometry is binary64 arithmetic and is modelled by Rocq's primitive
      floats, which compute the same IEEE 754 operations.
    - An [async] function that may throw returns a [completion]: either
      the value it resolves to or the message of the [Error] it rejects
      with.
    - A file is given by the document the codec decodes from it, and a
      saved document by the pages [save] writes: its pages, or one blank
      page when it has none.  Decoding errors are outside the
      embedding. *)

From Stdlib Require Import ZArith NArith Strings.Ascii Strings.String.
From Stdlib Require Import Floats.PrimFloat Lia.
From stdpp Require Import base option list numbers.

Set Warnings "-inexact-float".
Set Default Proof Using "Type".

Local Open Scope Z_scope.

(* ===================================================================== *)
(** ** JavaScript values and string primitives *)
(* ===================================================================== *)

Module JS.

(** A string: its UTF-16 code units. *)
Abbreviation jsstring := (list N).

(** The code units of an ASCII literal. *)
Definition js (s : string) : jsstring :=
  map N_of_ascii (list_ascii_of_string s).
Arguments js s%_string.

(** A Number that holds an integer, or [NaN].  A Number is a binary64:
    it holds an integer exactly when the integer is a safe one, below
    2^53 in magnitude, and the statements on the Numbers that [rotatePdf]
    and [App.splitPdf] compute with are made for those. *)
Inductive num : Type :=
| NaN : num
| Int : Z -> num.

(** How an [async] function (or a call that may throw) ends. *)
Inductive completion (A : Type) : Type :=
| Normal : A -> completion A
| Throw : jsstring -> completion A.
Arguments Normal {A} _.
Arguments Throw {A} _.

Definition bind {A B} (c : completion A) (k : A -> completion B)
  : completion B :=
  match c with
  | Normal a => k a
  | Throw msg => Throw msg
  end.

(** [try { body } catch (error) { throw new Error(prefix + error.message) }] *)
Definition rethrow {A} (prefix : jsstring) (c : completion A)
  : completion A :=
  match c with
  | Normal a => Normal a
  | Throw msg => Throw (prefix ++ msg)
  end.

(** Sequencing of calls that may throw, in source order. *)
Fixpoint forEachM {A B} (f : A -> completion B) (l : list A)
  : completion (list B) :=
  match l with
  | [] => Normal []
  | x :: l' =>
      bind (f x) (fun y => bind (forEachM f l') (fun ys => Normal (y :: ys)))
  end.

(** Code units the source names. *)
Definition TAB : N := 9.
Definition LF : N := 10.
Definition PLUS : N := 43.
Definition COMMA : N := 44.
Definition HYPHEN : N := 45.
Definition DIGIT0 : N := 48.

(** ECMAScript [WhiteSpace] and [LineTerminator] code units: what
    [String.prototype.trim], [parseInt] and the regular expression class
    [\s] all skip. *)
Definition isWhiteSpace (c : N) : bool :=
  ((9 <=? c) && (c <=? 13) || (c =? 32) || (c =? 160) || (c =? 5760)
   || (8192 <=? c) && (c <=? 8202) || (c =? 8232) || (c =? 8233)
   || (c =? 8239) || (c =? 8287) || (c =? 12288) || (c =? 65279))%N.

Fixpoint trimStart (s : jsstring) : jsstring :=
  match s with
  | [] => []
  | c :: s' => if isWhiteSpace c then trimStart s' else s
  end.

(** [s.trimEnd()]: a code unit goes when it is white space and everything
    after it goes. *)
Fixpoint trimEnd (s : jsstring) : jsstring :=
  match s with
  | [] => []
  | c :: s' =>
      match trimEnd s' with
      | [] => if isWhiteSpace c then [] else [c]
      | kept => c :: kept
      end
  end.

(** [s.trim()] *)
Definition trim (s : jsstring) : jsstring := trimEnd (trimStart s).

(** [s.includes(c)] for a one-unit search string. *)
Definition includes (c : N) (s : jsstring) : bool :=
  existsb (N.eqb c) s.

(** [s.split(sep)] for a one-unit separator: the pieces between the
    occurrences of [sep], of which there is always at least one. *)
Fixpoint split (sep : N) (s : jsstring) : list jsstring :=
  match s with
  | [] => [[]]
  | c :: s' =>
      if (c =? sep)%N then [] :: split sep s'
      else match split sep s' with
           | piece :: pieces => (c :: piece) :: pieces
           | [] => [[c]]
           end
  end.

(** [l.join(sep)] for a one-unit separator. *)
Fixpoint join (sep : N) (l : list jsstring) : jsstring :=
  match l with
  | [] => []
  | [s] => s
  | s :: l' => s ++ sep :: join sep l'
  end.

(** The value of a code unit as a digit: [0-9], [a-z], [A-Z]. *)
Definition digitValue (c : N) : option Z :=
  if ((48 <=? c) && (c <=? 57))%N then Some (Z.of_N c - 48)
  else if ((97 <=? c) && (c <=? 122))%N then Some (Z.of_N c - 87)
  else if ((65 <=? c) && (c <=? 90))%N then Some (Z.of_N c - 55)
  else None.

Definition radixDigit (R : Z) (c : N) : option Z :=
  match digitValue c with
  | Some d => if d <? R then Some d else None
  | None => None
  end.

(** The digits of the longest prefix of [s] made of radix-[R] digits. *)
Fixpoint digitsPrefix (R : Z) (s : jsstring) : list Z :=
  match s with
  | [] => []
  | c :: s' =>
      match radixDigit R c with
      | Some d => d :: digitsPrefix R s'
      | None => []
      end
  end.

Definition mathInt (R : Z) (ds : list Z) : Z :=
  fold_left (fun v d => v * R + d) ds 0.

(** [parseInt(string, radix)]; [radix = None] is the one-argument call.
    Leading white space is skipped, a sign is read, [0x] switches to
    radix 16 when the radix allows it, and the longest prefix of digits
    is converted; no digit at all gives [NaN].  The result is the
    integer the digits denote: JavaScript returns the binary64 nearest
    to it, which is that integer when it is a safe one. *)
Definition parseInt (string : jsstring) (radix : option Z) : num :=
  let inputString := trimStart string in
  let sign :=
    match inputString with
    | c :: _ => if (c =? HYPHEN)%N then -1 else 1
    | [] => 1
    end in
  let unsigned :=
    match inputString with
    | c :: rest => if ((c =? PLUS) || (c =? HYPHEN))%N then rest else inputString
    | [] => inputString
    end in
  let R := match radix with Some r => r | None => 0 end in
  if (R =? 0) || (2 <=? R) && (R <=? 36) then
    let stripPrefix := (R =? 0) || (R =? 16) in
    let R := if R =? 0 then 10 else R in
    let '(body, R) :=
      match unsigned with
      | c0 :: c1 :: rest =>
          if stripPrefix && (c0 =? 48)%N && ((c1 =? 120) || (c1 =? 88))%N
          then (rest, 16)
          else (unsigned, R)
      | _ => (unsigned, R)
      end in
    match digitsPrefix R body with
    | [] => NaN
    | ds => Int (sign * mathInt R ds)
    end
  else NaN.

(** Decimal digits of a natural number, most significant first. *)
Fixpoint digits (fuel : nat) (n : N) (acc : jsstring) : jsstring :=
  match fuel with
  | O => acc
  | S fuel' =>
      let acc' := (DIGIT0 + n mod 10)%N :: acc in
      if (n <? 10)%N then acc' else digits fuel' (n / 10)%N acc'
  end.

(** [String(z)] / [`${z}`] for a Number that holds the integer [z]:
    all its digits.  JavaScript prints an exponent from 10^21 on, so this
    is [String(z)] below that only, in particular for the safe
    integers. *)
Definition toString (z : Z) : jsstring :=
  let n := Z.to_N (Z.abs z) in
  let ds := digits (S (N.to_nat (N.log2 n))) n [] in
  if z <? 0 then HYPHEN :: ds else ds.

End JS.

Import JS.

(* ===================================================================== *)
(** ** The document codec (PDF-lib) as the service uses it *)
(* ===================================================================== *)

Module PDFLib.

(** A page box [x y width height], in points. *)
Record Box : Type := {
  x : float;
  y : float;
  width : float;
  height : float
}.

(** A page: its media box, its [/Rotate] entry in degrees, and a handle on
    its content, which no operation below inspects. *)
Record Page : Type := {
  mediaBox : Box;
  rotation : Z;
  content : N
}.

(** A decoded document: its pages in order. *)
Abbreviation Document := (list Page).

(** [PDFDocument.create()] *)
Definition create : Document := [].

(** [doc.getPageCount()] *)
Definition getPageCount (doc : Document) : Z := Z.of_nat (length doc).

(** [doc.getPageIndices()]: [0 .. pageCount - 1]. *)
Definition getPageIndices (doc : Document) : list Z :=
  seqZ 0 (getPageCount doc).

(** [srcDoc.getPages()[i]]; an index with no page makes the copy throw.
    The texts of the codec's own errors are not part of this repository:
    a fixed text stands for each. *)
Definition copyPage (srcDoc : Document) (i : Z) : completion Page :=
  if 0 <=? i then
    match srcDoc !! Z.to_nat i with
    | Some page => Normal page
    | None => Throw (js "Cannot copy a page that does not exist")
    end
  else Throw (js "Cannot copy a page that does not exist").

(** [dest.copyPages(srcDoc, indices)]: the copies, in the order of
    [indices]. *)
Definition copyPages (srcDoc : Document) (indices : list Z)
  : completion (list Page) :=
  forEachM (copyPage srcDoc) indices.

(** [doc.addPage(page)] appends. *)
Definition addPage (doc : Document) (page : Page) : Document :=
  doc ++ [page].

(** [page.getSize()]: width and height of the media box. *)
Definition getSize (page : Page) : float * float :=
  (width (mediaBox page), height (mediaBox page)).

(** [page.setMediaBox(x, y, width, height)]: the codec asserts that each
    of the four is a number, which [NaN] is not, in this order, and
    stores them. *)
Definition setMediaBox (page : Page) (x y width height : float)
  : completion Page :=
  if is_nan x then Throw (js "x must be of type number")
  else if is_nan y then Throw (js "y must be of type number")
  else if is_nan width then Throw (js "width must be of type number")
  else if is_nan height then Throw (js "height must be of type number")
  else
    Normal
      {| mediaBox := {| x := x; y := y; width := width; height := height |};
         rotation := rotation page;
         content := content page |}.

(** [page.setRotation(degrees(angle))]: [degrees] asserts that the angle
    is a number, which [NaN] is not; [setRotation] asserts that it is a
    multiple of 90 ([angle % 90 === 0]) and stores it as the page's
    [/Rotate] entry. *)
Definition setRotation (page : Page) (angle : num) : completion Page :=
  match angle with
  | Int degreesAngle =>
      if Z.rem degreesAngle 90 =? 0 then
        Normal {| mediaBox := mediaBox page;
                  rotation := degreesAngle;
                  content := content page |}
      else Throw (js "degreesAngle must be a multiple of 90")
  | NaN => Throw (js "degreeAngle must be of type number")
  end.

(** The page [doc.addPage()] makes when it is given none: an A4 page,
    upright, with nothing on it; the handle 0 stands for the empty
    content. *)
Definition blankPage : Page :=
  {| mediaBox := {| x := 0%float; y := 0%float;
                    width := 595.28%float; height := 841.89%float |};
     rotation := 0;
     content := 0 |}.

(** [doc.save()], as the document the bytes hold: a document without
    pages is given a blank page before it is written. *)
Definition save (doc : Document) : Document :=
  match doc with
  | [] => [blankPage]
  | _ :: _ => doc
  end.

End PDFLib.

Import PDFLib.

(* ===================================================================== *)
(** ** [PdfService] *)
(* ===================================================================== *)

Module PdfService.

(** *** [_parseRanges] *)

(** One entry [{ start, end }] of the list [_parseRanges] returns. *)
Record Range : Type := {
  start : Z;
  end_ : Z
}.

(** [a >= b], [a <= b] on Numbers: any comparison with [NaN] is false. *)
Definition geb (a b : num) : bool :=
  match a, b with
  | Int m, Int n => n <=? m
  | _, _ => false
  end.

Definition leb (a b : num) : bool :=
  match a, b with
  | Int m, Int n => m <=? n
  | _, _ => false
  end.

(** [ranges.push({ start, end })]; both are integers whenever the guards
    before the push hold. *)
Definition push (ranges : list Range) (start end_ : num) : list Range :=
  match start, end_ with
  | Int s, Int e => ranges ++ [{| start := s; end_ := e |}]
  | _, _ => ranges
  end.

(** The body of [for (const part of parts)]. *)
Definition parsePart (maxPages : Z) (ranges : list Range) (part : jsstring)
  : list Range :=
  let trimmed := trim part in
  if includes HYPHEN trimmed then
    match map (fun n => parseInt (trim n) None) (split HYPHEN trimmed) with
    | start :: end_ :: _ =>
        if geb start (Int 1) && leb end_ (Int maxPages) && leb start end_
        then push ranges start end_
        else ranges
    | _ => ranges
    end
  else
    let page := parseInt trimmed None in
    if geb page (Int 1) && leb page (Int maxPages)
    then push ranges page page
    else ranges.

(** [_parseRanges(rangesString, maxPages)]: no statement of it throws. *)
Definition _parseRanges (rangesString : jsstring) (maxPages : Z)
  : completion (list Range) :=
  let parts := split COMMA rangesString in
  Normal (fold_left (parsePart maxPages) parts []).

(** *** [mergePdfs] *)

(** The body of [for (const file of files)], from the merged document so
    far; a file is given by the document the codec loads from it. *)
Fixpoint mergeLoop (mergedPdf : Document) (files : list Document)
  : completion Document :=
  match files with
  | [] => Normal mergedPdf
  | pdf :: files' =>
      let pageIndices := getPageIndices pdf in
      bind (copyPages pdf pageIndices) (fun pages =>
      mergeLoop (fold_left addPage pages mergedPdf) files')
  end.

Definition mergePdfs (files : list Document) : completion Document :=
  rethrow (js "Failed to merge PDFs: ")
    (bind (mergeLoop create files) (fun mergedPdf =>
     Normal (save mergedPdf))).

(** *** [_splitWithPDFLib] and [splitPdf] *)

(** One entry [{ blob, name }] of the result; the blob is given by the
    document saved into it. *)
Record SplitPdf : Type := {
  blob : Document;
  name : jsstring
}.

(** What every iteration of the three loops does once it has its
    [pageIndices] and its [name]: a new document receives the copies of
    those pages and is pushed under that name.  The three loops give
    every group an index, so that [newPdf.save()] finds a page and adds
    none. *)
Definition newPdf (pdfDoc : Document) (group : list Z * jsstring)
  : completion SplitPdf :=
  let '(pageIndices, name) := group in
  bind (copyPages pdfDoc pageIndices) (fun pages =>
  Normal {| blob := fold_left addPage pages create; name := name |}).

(** [method === 'each']: page [i] alone, named [page_${i + 1}.pdf]. *)
Definition eachGroups (pageCount : Z) : list (list Z * jsstring) :=
  map (fun i => ([i], js "page_" ++ toString (i + 1) ++ js ".pdf"))
      (seqZ 0 pageCount).

(** [Math.max(1, parseInt(ranges || '5', 10) || 5)] *)
Definition pagesPerChunk (ranges : option jsstring) : Z :=
  let text :=
    match ranges with
    | Some (c :: r) => c :: r
    | _ => js "5"
    end in
  let parsed :=
    match parseInt text (Some 10) with
    | NaN => 5
    | Int 0 => 5
    | Int n => n
    end in
  Z.max 1 parsed.

(** [method === 'pages']:
    [for (let i = 0; i < pageCount; i += pagesPerChunk)] with
    [endPage = Math.min(i + pagesPerChunk, pageCount)], the indices
    [i .. endPage - 1] and the name [pages_${i + 1}-${endPage}.pdf].
    The loop runs at most [pageCount] times, which is the fuel
    [chunkGroups] gives it. *)
Fixpoint chunkLoop (fuel : nat) (pageCount pagesPerChunk i : Z)
  : list (list Z * jsstring) :=
  match fuel with
  | O => []
  | S fuel' =>
      if i <? pageCount then
        let endPage := Z.min (i + pagesPerChunk) pageCount in
        let pageIndices := seqZ i (endPage - i) in
        (pageIndices,
         js "pages_" ++ toString (i + 1) ++ js "-" ++ toString endPage
           ++ js ".pdf")
          :: chunkLoop fuel' pageCount pagesPerChunk (i + pagesPerChunk)
      else []
  end.

Definition chunkGroups (pageCount pagesPerChunk : Z)
  : list (list Z * jsstring) :=
  chunkLoop (Z.to_nat pageCount) pageCount pagesPerChunk 0.

(** [method === 'range']: for each range the indices
    [range.start - 1 .. range.end - 1] and the name
    [pages_${range.start}-${range.end}.pdf]. *)
Definition rangeGroups (rangeList : list Range) : list (list Z * jsstring) :=
  map (fun range =>
         (seqZ (start range - 1) (end_ range - (start range - 1)),
          js "pages_" ++ toString (start range) ++ js "-"
            ++ toString (end_ range) ++ js ".pdf"))
      rangeList.

(** [ranges] as a condition: [null] and the empty string are falsy. *)
Definition truthy (ranges : option jsstring) : bool :=
  match ranges with
  | Some (_ :: _) => true
  | _ => false
  end.

Definition text (ranges : option jsstring) : jsstring :=
  match ranges with
  | Some s => s
  | None => []
  end.

Definition eqs (a b : jsstring) : bool := bool_decide (a = b).

Definition _splitWithPDFLib (pdfDoc : Document) (method : jsstring)
    (ranges : option jsstring) : completion (list SplitPdf) :=
  let pageCount := getPageCount pdfDoc in
  if eqs method (js "each") then
    forEachM (newPdf pdfDoc) (eachGroups pageCount)
  else if eqs method (js "pages") then
    forEachM (newPdf pdfDoc) (chunkGroups pageCount (pagesPerChunk ranges))
  else if eqs method (js "range") && truthy ranges then
    bind (_parseRanges (text ranges) pageCount) (fun rangeList =>
    forEachM (newPdf pdfDoc) (rangeGroups rangeList))
  else Normal [].

(** [splitPdf], with PDF-lib loaded: errors are re-thrown with a prefix. *)
Definition splitPdf (file : Document) (method : jsstring)
    (ranges : option jsstring) : completion (list SplitPdf) :=
  rethrow (js "Failed to split PDF: ") (_splitWithPDFLib file method ranges).

(** *** [rotatePdf] *)

(** [angle] is the text [parseInt] reads: the argument itself when it is a
    string, [String(angle)] when it is a Number. *)
Definition rotatePdf (file : Document) (angle : jsstring)
  : completion Document :=
  let pages := file in
  let angleValue := parseInt angle None in
  rethrow (js "Failed to rotate PDF: ")
    (bind (forEachM (fun page => setRotation page angleValue) pages)
       (fun pdfDoc => Normal (save pdfDoc))).

(** *** [cropPdf] *)

(** The options object [{ top, right, bottom, left, allPages }]. *)
Record CropOptions : Type := {
  top : float;
  right : float;
  bottom : float;
  left : float;
  allPages : bool
}.

(** 1 mm = 2.83465 points *)
Definition mm : float := 2.83465%float.

(** The body of the loop after the [break] test: the crop box from the
    page size and the margins, then [setMediaBox]. *)
Definition cropPage (o : CropOptions) (page : Page) : completion Page :=
  let '(width, height) := getSize page in
  let cropBox_left := (left o * mm)%float in
  let cropBox_bottom := (bottom o * mm)%float in
  let cropBox_right := (width - right o * mm)%float in
  let cropBox_top := (height - top o * mm)%float in
  setMediaBox page
    cropBox_left
    cropBox_bottom
    (cropBox_right - cropBox_left)%float
    (cropBox_top - cropBox_bottom)%float.

(** [for (let i = 0; i < pages.length; i++)] with
    [if (!allPages && i > 0) break;]. *)
Fixpoint cropLoop (o : CropOptions) (i : nat) (pages : list Page)
  : completion (list Page) :=
  match pages with
  | [] => Normal []
  | page :: pages' =>
      if negb (allPages o) && (0 <? i)%nat then Normal (page :: pages')
      else
        bind (cropPage o page) (fun cropped =>
        bind (cropLoop o (S i) pages') (fun rest =>
        Normal (cropped :: rest)))
  end.

Definition cropPdf (file : Document) (o : CropOptions)
  : completion Document :=
  rethrow (js "Cropping failed: ")
    (bind (cropLoop o 0 file) (fun pdfDoc => Normal (save pdfDoc))).

(** *** [extractTableFromPdf] *)

(** The number of white-space code units at the head of [s]. *)
Fixpoint spaceRun (s : jsstring) : nat :=
  match s with
  | [] => O
  | c :: s' => if isWhiteSpace c then S (spaceRun s') else O
  end.

(** The match of [/\s{2,}|\t/] at the head of [s], as the number of code
    units it takes: the greedy [\s{2,}] first, then [\t]. *)
Definition matchSeparator (s : jsstring) : option nat :=
  if (2 <=? spaceRun s)%nat then Some (spaceRun s)
  else match s with
       | c :: _ => if (c =? TAB)%N then Some 1%nat else None
       | [] => None
       end.

(** [line.split(/\s{2,}|\t/)]: the scan of [RegExp.prototype[@@split]];
    [cell] is the text since the last separator.  Every step takes at
    least one code unit, so [length line] steps are enough. *)
Fixpoint splitLoop (fuel : nat) (cell s : jsstring) : list jsstring :=
  match fuel, s with
  | S fuel', c :: s' =>
      match matchSeparator s with
      | Some k => cell :: splitLoop fuel' [] (drop k s)
      | None => splitLoop fuel' (cell ++ [c]) s'
      end
  | _, _ => [cell]
  end.

Definition splitSeparators (line : jsstring) : list jsstring :=
  splitLoop (length line) [] line.

(** [.filter(cell => cell)]: the empty string is falsy. *)
Definition nonEmpty (cell : jsstring) : bool :=
  match cell with
  | [] => false
  | _ :: _ => true
  end.

(** The body of [for (const line of lines)]. *)
Definition addLine (allRows : list (list jsstring)) (line : jsstring)
  : list (list jsstring) :=
  let row := filter nonEmpty (map trim (splitSeparators line)) in
  if (1 <? length row)%nat then allRows ++ [row] else allRows.

(** The body of the page loop; a page is given by the [str] of the items
    of its text content. *)
Definition addPageRows (allRows : list (list jsstring))
    (items : list jsstring) : list (list jsstring) :=
  let lines := split LF (join LF items) in
  fold_left addLine lines allRows.

(** [extractTableFromPdf]: the result is given by [allRows], the array of
    arrays handed to the spreadsheet writer. *)
Definition extractTableFromPdf (pdf : list (list jsstring))
  : completion (list (list jsstring)) :=
  rethrow (js "Table extraction failed: ")
    (let allRows := fold_left addPageRows pdf [] in
     if (length allRows =? 0)%nat then Throw (js "No tables detected.")
     else Normal allRows).

End PdfService.

Import PdfService.

(* ===================================================================== *)
(** ** [App.splitPdf], the caller of the split *)
(* ===================================================================== *)

Module App.

(** What [App.splitPdf] leaves on the screen. *)
Inductive Shown : Type :=
| Nothing : Shown
| Error : jsstring -> Shown
| Results : list SplitPdf -> Shown.

(** The call of the service inside [try]: the files become download
    links, an error is shown with a prefix. *)
Definition run (file : Document) (method : jsstring)
    (ranges : option jsstring) : Shown :=
  match PdfService.splitPdf file method ranges with
  | Normal splitPdfs => Results splitPdfs
  | Throw message => Error (js "Failed to split PDF: " ++ message)
  end.

(** [App.splitPdf()]: [splitFile] is the file chosen, if any; [method] the
    value of the method selector; [pageRanges] the value of the ranges
    field; [input] what [prompt] returns, [null] when it is dismissed.
    [String(pagesPerFile)] is [toString pagesPerFile] for the safe
    integers, for which the statements are made. *)
Definition splitPdf (splitFile : option Document)
    (method pageRanges : jsstring) (input : option jsstring) : Shown :=
  match splitFile with
  | None => Nothing
  | Some file =>
      if eqs method (js "range") then
        let ranges := pageRanges in
        if negb (truthy (Some ranges)) || eqs (trim ranges) [] then
          Error (js "Please enter page ranges (e.g., 1-3, 5-7)")
        else run file method (Some ranges)
      else if eqs method (js "pages") then
        let text := match input with Some s => s | None => js "null" end in
        match parseInt text (Some 10) with
        | NaN =>
            Error (js "Please enter a valid number of pages per file (>=1).")
        | Int pagesPerFile =>
            if (pagesPerFile =? 0) || (pagesPerFile <? 1) then
              Error (js "Please enter a valid number of pages per file (>=1).")
            else run file method (Some (toString pagesPerFile))
        end
      else run file method None
  end.

End App.

(* ===================================================================== *)
(** ** Vocabulary of the statements *)
(* ===================================================================== *)

Module Spec.

(** A string of white space only. *)
Definition blank (w : jsstring) : Prop := forallb isWhiteSpace w = true.

(** A string without the code unit [c]. *)
Definition without (c : N) (s : jsstring) : Prop := includes c s = false.

(** The two Numbers the body of the loop of [_parseRanges] compares for a
    part: [start] and [end] of a part with a hyphen, [page] twice for a
    part without. *)
Definition endpoints (part : jsstring) : num * num :=
  let trimmed := trim part in
  if includes HYPHEN trimmed then
    match map (fun n => parseInt (trim n) None) (split HYPHEN trimmed) with
    | start :: end_ :: _ => (start, end_)
    | _ => (NaN, NaN)
    end
  else (parseInt trimmed None, parseInt trimmed None).

(** The range a part yields, if any. *)
Definition rangeOf (maxPages : Z) (part : jsstring) : option Range :=
  match endpoints part with
  | (Int s, Int e) =>
      if (1 <=? s) && (e <=? maxPages) && (s <=? e)
      then Some {| start := s; end_ := e |}
      else None
  | _ => None
  end.

(** [1 <= start <= end <= maxPages] *)
Definition inBounds (maxPages : Z) (r : Range) : Prop :=
  1 <= start r /\ start r <= end_ r /\ end_ r <= maxPages.

(** A code unit among ["0" .. "9"], and its value. *)
Definition isDecimal (c : N) : Prop := (48 <= c <= 57)%N.

Definition decimalValue (c : N) : Z := Z.of_N c - 48.

(** A safe integer: one a Number holds exactly, as do its neighbours. *)
Definition safeInteger (z : Z) : Prop := Z.abs z < 2 ^ 53.

(** A Number that is [NaN] or a safe integer. *)
Definition safeNumber (n : num) : Prop :=
  match n with
  | NaN => True
  | Int z => safeInteger z
  end.


(** A box with [NaN] for one of its four numbers. *)
Definition nanBox (b : Box) : Prop :=
  is_nan (x b) = true \/ is_nan (y b) = true
  \/ is_nan (width b) = true \/ is_nan (height b) = true.

(** A page with its rotation entry set to [angle]. *)
Definition rotatedTo (angle : Z) (page : Page) : Page :=
  {| mediaBox := mediaBox page; rotation := angle; content := content page |}.

(** The media box [cropPage] asks for, from the size of the page and the
    margins in millimetres. *)
Definition croppedBox (o : CropOptions) (page : Page) : Box :=
  {| x := (left o * mm)%float;
     y := (bottom o * mm)%float;
     width := ((width (mediaBox page) - right o * mm) - left o * mm)%float;
     height := ((height (mediaBox page) - top o * mm) - bottom o * mm)%float |}.


(** [pageCount / size], rounded up. *)
Definition chunkBound (pageCount size : Z) : Z :=
  (pageCount + size - 1) / size.

(** How many files a document of [pageCount] pages gives. *)
Definition chunkCount (pageCount size : Z) : nat :=
  Z.to_nat (chunkBound pageCount size).

(** The number of pages of file [k]: [size], except for the last file,
    which has [pageCount mod size] pages, or [size] when that is 0. *)
Definition chunkLength (pageCount size : Z) (k : nat) : Z :=
  if (S k <? chunkCount pageCount size)%nat then size
  else if pageCount mod size =? 0 then size
  else pageCount mod size.

(** [pages_{first}-{last}.pdf] *)
Definition chunkName (first last : Z) : jsstring :=
  js "pages_" ++ toString first ++ js "-" ++ toString last ++ js ".pdf".

(** The page indices and the name of file [k]: the [chunkLength] indices
    from [k * size] on, named after the 1-based numbers of its first and
    last page. *)
Definition chunkAt (pageCount size : Z) (k : nat) : list Z * jsstring :=
  let first := Z.of_nat k * size in
  let len := chunkLength pageCount size k in
  (seqZ first len, chunkName (first + 1) (first + len)).

(** File [k]: the pages of that window of the document, under that
    name. *)
Definition chunkFile (pdfDoc : Document) (size : Z) (k : nat) : SplitPdf :=
  let pageCount := getPageCount pdfDoc in
  {| blob := take (Z.to_nat (chunkLength pageCount size k))
                  (drop (Z.to_nat (Z.of_nat k * size)) pdfDoc);
     name := snd (chunkAt pageCount size k) |}.

(** Sample pages and documents for the concrete cases: A4 pages that
    differ by their content. *)
Definition a4 : Box :=
  {| x := 0%float; y := 0%float;
     width := 595.28%float; height := 841.89%float |}.

Definition samplePage (rotation : Z) (content : N) : Page :=
  {| mediaBox := a4; rotation := rotation; content := content |}.

Definition sampleDoc (pageCount : nat) : Document :=
  map (fun i => samplePage 0 (N.of_nat i)) (seq 1 pageCount).

End Spec.

Import Spec.

(** *** The rows of a table, from the words of the specification *)

Module TableSpec.

(** A line is cut into its maximal runs of white space and of other code
    units; a run of white space separates two cells when it has two or
    more code units or is a tab; the cells are trimmed, the empty ones
    are dropped, and a line is a row when two cells or more are left.
    The lines and the trimming are written here on their own, not
    through the methods [split] and [trim] of [JS]. *)

(** The maximal runs of a line, each with whether it is white space. *)
Fixpoint runs (s : jsstring) : list (bool * jsstring) :=
  match s with
  | [] => []
  | c :: s' =>
      match runs s' with
      | (b, run) :: rest =>
          if Bool.eqb b (isWhiteSpace c) then (b, c :: run) :: rest
          else (isWhiteSpace c, [c]) :: (b, run) :: rest
      | [] => [(isWhiteSpace c, [c])]
      end
  end.

(** A run of two or more white-space code units, or a tab. *)
Definition isGap (run : bool * jsstring) : bool :=
  fst run && ((2 <=? length (snd run))%nat || bool_decide (snd run = [TAB])).

(** The cells between the gaps; [cell] is the cell being read. *)
Fixpoint cellsOf (cell : jsstring) (rs : list (bool * jsstring))
  : list jsstring :=
  match rs with
  | [] => [cell]
  | run :: rs' =>
      if isGap run then cell :: cellsOf [] rs'
      else cellsOf (cell ++ snd run) rs'
  end.

Definition splitOnGaps (line : jsstring) : list jsstring :=
  cellsOf [] (runs line).

(** A text without the white space at its head. *)
Fixpoint dropSpace (s : jsstring) : jsstring :=
  match s with
  | [] => []
  | c :: rest => if isWhiteSpace c then dropSpace rest else s
  end.

(** A cell trimmed: without the white space before it and, read from its
    end, without the white space after it. *)
Definition strip (cell : jsstring) : jsstring :=
  rev (dropSpace (rev (dropSpace cell))).

(** [inner] is [cell] with nothing but white space taken away at its two
    ends. *)
Definition around (cell inner : jsstring) : Prop :=
  exists before after,
    cell = before ++ inner ++ after /\ blank before /\ blank after.

(** A text that neither begins nor ends with white space. *)
Definition solidEnds (s : jsstring) : Prop :=
  (forall c rest, s = c :: rest -> isWhiteSpace c = false)
  /\ (forall front c, s = front ++ [c] -> isWhiteSpace c = false).

(** The trimmed, non-empty cells of a line. *)
Definition lineCells (line : jsstring) : list jsstring :=
  filter (fun cell => cell <> []) (map strip (splitOnGaps line)).

(** The lines of a text: what lies between its line feeds; [line] is the
    line being read. *)
Fixpoint linesOf (line s : jsstring) : list jsstring :=
  match s with
  | [] => [line]
  | c :: rest =>
      if (c =? LF)%N then line :: linesOf [] rest
      else linesOf (line ++ [c]) rest
  end.

(** The lines of a page: those of its text runs, in reading order. *)
Definition pageLines (items : list jsstring) : list jsstring :=
  flat_map (linesOf []) items.

(** The lines that look tabular, as rows. *)
Definition rowsOf (lines : list jsstring) : list (list jsstring) :=
  filter (fun row => (2 <= length row)%nat) (map lineCells lines).

Definition tableRows (pdf : list (list jsstring)) : list (list jsstring) :=
  rowsOf (flat_map pageLines pdf).

End TableSpec.

Import TableSpec.

(* ===================================================================== *)
(** ** [PdfService]: the functions on the text of the pages *)
(* ===================================================================== *)

Module PdfText.

Definition SPACE : N := 32.
Definition LESS : N := 60.
Definition GREATER : N := 62.

(** The text content of a decoded document: for each page, the [str] of
    the items of its text content. *)
Abbreviation TextPdf := (list (list jsstring)).

(** [textContent.items.map(item => item.str).join(' ')] *)
Definition pageText (items : list jsstring) : jsstring := join SPACE items.

(** [extractText] inside [comparePdfs]: the text of each page, in page
    order. *)
Definition extractText (pdf : TextPdf) : list jsstring := map pageText pdf.

(** [text[i] || '']: a missing page counts as the empty text. *)
Definition orEmpty (t : option jsstring) : jsstring :=
  match t with
  | Some t => t
  | None => []
  end.

(** The body of [for (let i = 0; i < maxPages; i++)]: six lines for a
    page whose two texts differ. *)
Definition diffPage (text1 text2 : list jsstring) (diffLines : list jsstring)
    (i : nat) : list jsstring :=
  let t1 := orEmpty (text1 !! i) in
  let t2 := orEmpty (text2 !! i) in
  if eqs t1 t2 then diffLines
  else diffLines
         ++ [ js "Page " ++ toString (Z.of_nat i + 1) ++ js ":";
              js "--- PDF 1 ---"; t1; js "--- PDF 2 ---"; t2; [] ].

(** [comparePdfs]: the result is given by [diffText]. *)
Definition comparePdfs (file1 file2 : TextPdf) : completion jsstring :=
  rethrow (js "PDF comparison failed: ")
    (let text1 := extractText file1 in
     let text2 := extractText file2 in
     let maxPages := Nat.max (length text1) (length text2) in
     let diffLines := fold_left (diffPage text1 text2) (seq 0 maxPages) [] in
     Normal (match diffLines with
             | [] => js "No differences found."
             | _ :: _ => join LF diffLines
             end)).

(** [s.replace(/c/g, replacement)] for a pattern of one literal code unit
    and a replacement text without [$]. *)
Fixpoint replaceAll (c : N) (replacement s : jsstring) : jsstring :=
  match s with
  | [] => []
  | d :: s' =>
      (if (d =? c)%N then replacement else [d]) ++ replaceAll c replacement s'
  end.

(** [pageText.replace(/</g, '&lt;').replace(/>/g, '&gt;')] *)
Definition escapeText (pageText : jsstring) : jsstring :=
  replaceAll GREATER (js "&gt;") (replaceAll LESS (js "&lt;") pageText).

(** The HTML document of page [pageNum]. *)
Definition pageHtml (pageNum : Z) (pageText : jsstring) : jsstring :=
  js "<!DOCTYPE html><html><head><meta charset='utf-8'><title>PDF Page "
    ++ toString pageNum ++ js "</title></head><body><div>"
    ++ escapeText pageText ++ js "</div></body></html>".

(** An archive: its entries, name and data. *)
Abbreviation Zip := (list (jsstring * jsstring)).

(** [zip.file(name, data)] adds the entry, or replaces the data of the
    entry of that name. *)
Fixpoint zipFile (zip : Zip) (name data : jsstring) : Zip :=
  match zip with
  | [] => [(name, data)]
  | (n, d) :: zip' =>
      if eqs n name then (n, data) :: zip'
      else (n, d) :: zipFile zip' name data
  end.

(** [page${pageNum}.html] *)
Definition htmlName (pageNum : Z) : jsstring :=
  js "page" ++ toString pageNum ++ js ".html".

(** [for (let pageNum = 1; pageNum <= pdf.numPages; pageNum++)], from
    page [pageNum] on. *)
Fixpoint htmlLoop (pageNum : Z) (pages : TextPdf) (zip : Zip)
    (firstPageHtml : jsstring) : Zip * jsstring :=
  match pages with
  | [] => (zip, firstPageHtml)
  | items :: pages' =>
      let html := pageHtml pageNum (pageText items) in
      htmlLoop (pageNum + 1) pages'
        (zipFile zip (htmlName pageNum) html)
        (if pageNum =? 1 then html else firstPageHtml)
  end.

(** [pdfToHtml]: the result is given by the entries of the archive and
    [firstPageHtml]. *)
Definition pdfToHtml (pdf : TextPdf) : completion (Zip * jsstring) :=
  rethrow (js "PDF to HTML failed: ") (Normal (htmlLoop 1 pdf [] [])).

End PdfText.

(* ===================================================================== *)
(** ** [Utils.validateFileType] and the file inputs of [App] *)
(* ===================================================================== *)

Module Utils.

(** A file as the browser gives it: its MIME type and its name. *)
Record File : Type := {
  type : jsstring;
  name : jsstring
}.

(** [s.startsWith(prefix)] *)
Fixpoint startsWith (prefix s : jsstring) : bool :=
  match prefix, s with
  | [], _ => true
  | p :: prefix', c :: s' => (c =? p)%N && startsWith prefix' s'
  | _ :: _, [] => false
  end.

(** [validateFileType(file, types)]; [file = None] is a missing file. *)
Definition validateFileType (file : option File) (types : list jsstring)
  : bool :=
  match file with
  | None => false
  | Some file =>
      if existsb (eqs (js "pdf")) types
         && eqs (type file) (js "application/pdf")
      then true
      else if existsb (eqs (js "image")) types
              && startsWith (js "image/") (type file)
      then true
      else false
  end.

(** The [change] listener of the merge input: [files] are the files
    chosen, [mergeFiles] the selection held so far.  The result is the
    error shown, if any, and the selection held afterwards. *)
Definition mergeInputChange (mergeFiles : option (list File))
    (files : list File) : option jsstring * option (list File) :=
  let validFiles :=
    List.filter (fun file => validateFileType (Some file) [js "pdf"]) files in
  (if negb (length validFiles =? length files)%nat
   then Some (js "Some files were not valid PDFs and were ignored")
   else None,
   if (0 <? length validFiles)%nat then Some validFiles else mergeFiles).

End Utils.

(* ===================================================================== *)
(** ** [ViewModel] *)
(* ===================================================================== *)

Module ViewModel.

(** The identity of an array: made by the code of [ViewModel] (an array
    literal or [Array.from]), numbered in the order of creation, or made
    elsewhere. *)
Inductive ident : Type :=
| Own : N -> ident
| Ext : N -> ident.

(** The values the state holds.  A file and an array are objects, known by
    their identity; an array also has its items, which are files or blobs
    given by their identities. *)
Inductive value : Type :=
| Null : value
| Bool : bool -> value
| Str : jsstring -> value
| File : N -> value
| Arr : ident -> list N -> value.

Definition identEq (a b : ident) : bool :=
  match a, b with
  | Own m, Own n => (m =? n)%N
  | Ext m, Ext n => (m =? n)%N
  | _, _ => false
  end.

(** [a === b]: primitives by value, objects by identity. *)
Definition strictEq (a b : value) : bool :=
  match a, b with
  | Null, Null => true
  | Bool x, Bool y => Bool.eqb x y
  | Str x, Str y => eqs x y
  | File x, File y => (x =? y)%N
  | Arr x _, Arr y _ => identEq x y
  | _, _ => false
  end.

(** A value as a condition. *)
Definition truthy (v : value) : bool :=
  match v with
  | Null => false
  | Bool b => b
  | Str s => nonEmpty s
  | File _ => true
  | Arr _ _ => true
  end.

(** The keys of the state. *)
Inductive Key : Type :=
| selectedPdf
| selectedImages
| isLoading
| resultBlobs
| activeTab
| error.

Definition keyEq (a b : Key) : bool :=
  match a, b with
  | selectedPdf, selectedPdf
  | selectedImages, selectedImages
  | isLoading, isLoading
  | resultBlobs, resultBlobs
  | activeTab, activeTab
  | error, error => true
  | _, _ => false
  end.

(** [this.state]: [state key] is [this.state[key]]. *)
Definition State : Type := Key -> value.

(** [this.state[key] = value] *)
Definition assign (state : State) (key : Key) (v : value) : State :=
  fun k => if keyEq k key then v else state k.

(** A call of an observer: which callback, with which [changedProperty],
    and the state it is passed. *)
Definition Call : Type := (nat * Key * State)%type.

(** The view model with what it has done: [calls] are the calls made to
    the observers, [shown] the messages given to [Utils.showError], and
    [next] numbers the next array the code makes.  An observer is given
    by a number; it does not call back into the view model. *)
Record ViewModel : Type := {
  state : State;
  observers : list nat;
  calls : list Call;
  shown : list jsstring;
  next : N
}.

(** [constructor()] *)
Definition create : ViewModel :=
  {| state := fun key =>
       match key with
       | selectedPdf => Null
       | selectedImages => Arr (Own 0) []
       | isLoading => Bool false
       | resultBlobs => Arr (Own 1) []
       | activeTab => Str (js "pdf-to-images")
       | error => Null
       end;
     observers := [];
     calls := [];
     shown := [];
     next := 2 |}.

(** [subscribe(callback)] *)
Definition subscribe (vm : ViewModel) (callback : nat) : ViewModel :=
  {| state := state vm; observers := observers vm ++ [callback];
     calls := calls vm; shown := shown vm; next := next vm |}.

(** [notify(changedProperty)] *)
Definition notify (vm : ViewModel) (changedProperty : Key) : ViewModel :=
  {| state := state vm; observers := observers vm;
     calls := calls vm
              ++ map (fun callback => (callback, changedProperty, state vm))
                     (observers vm);
     shown := shown vm; next := next vm |}.

(** The body of [for (const [key, value] of Object.entries(updates))]. *)
Definition update (acc : State * list Key) (entry : Key * value)
  : State * list Key :=
  let '(state, changedProperties) := acc in
  let '(key, v) := entry in
  if negb (strictEq (state key) v)
  then (assign state key v, changedProperties ++ [key])
  else (state, changedProperties).

(** [setState(updates)]; [updates] are the entries of the object, in the
    order of its keys. *)
Definition setState (vm : ViewModel) (updates : list (Key * value))
  : ViewModel :=
  let '(state', changedProperties) :=
    fold_left update updates (state vm, []) in
  fold_left notify changedProperties
    {| state := state'; observers := observers vm; calls := calls vm;
       shown := shown vm; next := next vm |}.

(** A new array with these items. *)
Definition newArray (vm : ViewModel) (items : list N) : value * ViewModel :=
  (Arr (Own (next vm)) items,
   {| state := state vm; observers := observers vm; calls := calls vm;
      shown := shown vm; next := N.succ (next vm) |}).

Definition setSelectedPdf (vm : ViewModel) (file : value) : ViewModel :=
  let '(empty, vm) := newArray vm [] in
  setState vm [(selectedPdf, file); (resultBlobs, empty); (error, Null)].

(** [files] are the items of the list of files given. *)
Definition setSelectedImages (vm : ViewModel) (files : list N) : ViewModel :=
  let '(images, vm) := newArray vm files in
  let '(empty, vm) := newArray vm [] in
  setState vm
    [(selectedImages, images); (resultBlobs, empty); (error, Null)].

Definition setLoading (vm : ViewModel) (isLoading' : value) : ViewModel :=
  setState vm [(isLoading, isLoading')].

Definition setResultBlobs (vm : ViewModel) (blobs : value) : ViewModel :=
  setState vm [(resultBlobs, blobs)].

Definition setActiveTab (vm : ViewModel) (tab : value) : ViewModel :=
  let '(images, vm) := newArray vm [] in
  let '(blobs, vm) := newArray vm [] in
  setState vm
    [(activeTab, tab); (selectedPdf, Null); (selectedImages, images);
     (resultBlobs, blobs); (error, Null)].

Definition setError (vm : ViewModel) (error' : value) : ViewModel :=
  setState vm [(error, error')].

Definition clearError (vm : ViewModel) : ViewModel :=
  setState vm [(error, Null)].

(** [Utils.showError(message)] *)
Definition showError (vm : ViewModel) (message : jsstring) : ViewModel :=
  {| state := state vm; observers := observers vm; calls := calls vm;
     shown := shown vm ++ [message]; next := next vm |}.

(** [convertPdfToImages()]; [outcome] is how the call of
    [PdfService.pdfFileToImages] ends: with the array of images, or with
    an error. *)
Definition convertPdfToImages (vm : ViewModel) (outcome : completion value)
  : ViewModel :=
  if negb (truthy (state vm selectedPdf)) then vm
  else
    let vm := setLoading vm (Bool true) in
    let vm := clearError vm in
    let vm :=
      match outcome with
      | Normal imageBlobs => setResultBlobs vm imageBlobs
      | Throw message => showError (setError vm (Str message)) message
      end in
    setLoading vm (Bool false).

End ViewModel.

(* ===================================================================== *)
(** ** The fallback of [splitPdf]: [_splitManually] *)
(* ===================================================================== *)

Module Manual.

(** What [canvas.toDataURL('image/jpeg', quality)] gives after
    [page.render]: the JPEG of the page numbered [source], at that
    quality. *)
Record Image : Type := {
  source : Z;
  quality : float
}.

(** A jsPDF document: its pages, each with the images put on it; the last
    page is the current one. *)
Definition JsPdf : Type := list (list Image).

(** [new jsPDF()]: one page, empty. *)
Definition create : JsPdf := [[]].

(** [newPdf.addPage()] *)
Definition addPage (newPdf : JsPdf) : JsPdf := newPdf ++ [[]].

(** [newPdf.addImage(imageData, 'JPEG', 0, 0, pageWidth, pageHeight)]
    puts the image on the current page. *)
Fixpoint addImage (newPdf : JsPdf) (imageData : Image) : JsPdf :=
  match newPdf with
  | [] => []
  | [page] => [page ++ [imageData]]
  | page :: newPdf' => page :: addImage newPdf' imageData
  end.

(** [pdf.getPage(pageNum)] is rejected for a number outside
    [1 .. numPages]. *)
Definition getPage (numPages pageNum : Z) : completion Z :=
  if (1 <=? pageNum) && (pageNum <=? numPages) then Normal pageNum
  else Throw (js "Invalid page request.").

(** [getPage], [render] and [toDataURL]. *)
Definition renderPage (numPages pageNum : Z) (quality : float)
  : completion Image :=
  bind (getPage numPages pageNum) (fun page =>
  Normal {| source := page; quality := quality |}).

Record SplitPdf : Type := {
  blob : JsPdf;
  name : jsstring
}.

(** Sequencing of a loop that carries variables and may throw. *)
Fixpoint foldM {A B} (f : A -> B -> completion A) (l : list B) (a : A)
  : completion A :=
  match l with
  | [] => Normal a
  | x :: l' => bind (f a x) (foldM f l')
  end.

(** The body of the loop of [method === 'each']. *)
Definition eachPdf (numPages pageNum : Z) : completion SplitPdf :=
  let newPdf := create in
  bind (renderPage numPages pageNum 0.8%float) (fun imageData =>
  Normal {| blob := addImage newPdf imageData;
            name := js "page_" ++ toString pageNum ++ js ".pdf" |}).

(** The body of [for (let pageNum = start; pageNum <= end; pageNum++)];
    the variables carried are [newPdf] and [isFirst]. *)
Definition addRendered (numPages : Z) (acc : JsPdf * bool) (pageNum : Z)
  : completion (JsPdf * bool) :=
  let '(newPdf, isFirst) := acc in
  bind (renderPage numPages pageNum 0.85%float) (fun imageData =>
  let newPdf := if negb isFirst then addPage newPdf else newPdf in
  Normal (addImage newPdf imageData, false)).

(** The file of the pages [start .. end]. *)
Definition pagesPdf (numPages start end_ : Z) : completion SplitPdf :=
  bind (foldM (addRendered numPages) (seqZ start (end_ - start + 1))
          (create, true)) (fun acc =>
  Normal {| blob := fst acc;
            name := js "pages_" ++ toString start ++ js "-"
                      ++ toString end_ ++ js ".pdf" |}).

(** [for (let start = 1; start <= pdf.numPages; start += pagesPerChunk)]:
    the loop runs at most [numPages] times, which is the fuel
    [_splitManually] gives it. *)
Fixpoint chunkLoop (fuel : nat) (numPages pagesPerChunk start : Z)
  : completion (list SplitPdf) :=
  match fuel with
  | O => Normal []
  | S fuel' =>
      if start <=? numPages then
        let end_ := Z.min (start + pagesPerChunk - 1) numPages in
        bind (pagesPdf numPages start end_) (fun out =>
        bind (chunkLoop fuel' numPages pagesPerChunk (start + pagesPerChunk))
          (fun outs => Normal (out :: outs)))
      else Normal []
  end.

(** [_splitManually(arrayBuffer, method, ranges)] on a document of
    [numPages] pages. *)
Definition _splitManually (numPages : Z) (method : jsstring)
    (ranges : option jsstring) : completion (list SplitPdf) :=
  if eqs method (js "each") then
    forEachM (eachPdf numPages) (seqZ 1 numPages)
  else if eqs method (js "pages") then
    chunkLoop (Z.to_nat numPages) numPages (pagesPerChunk ranges) 1
  else if eqs method (js "range") && truthy ranges then
    bind (_parseRanges (text ranges) numPages) (fun rangeList =>
    forEachM (fun r => pagesPdf numPages (start r) (end_ r)) rangeList)
  else Normal [].

(** [splitPdf] without PDF-lib loaded. *)
Definition splitPdf (numPages : Z) (method : jsstring)
    (ranges : option jsstring) : completion (list SplitPdf) :=
  rethrow (js "Failed to split PDF: ") (_splitManually numPages method ranges).

End Manual.

(* ===================================================================== *)
(** ** Vocabulary of the further statements *)
(* ===================================================================== *)

Module More.

(** The file of the page [page] with the 0-based index [i], in a split
    page by page. *)
Definition eachFile (i : nat) (page : Page) : SplitPdf :=
  {| blob := [page];
     name := js "page_" ++ toString (Z.of_nat i + 1) ++ js ".pdf" |}.

(** The file of a range: the pages numbered [start .. end] from 1. *)
Definition rangeFile (pdfDoc : Document) (range : Range) : SplitPdf :=
  {| blob := take (Z.to_nat (end_ range - start range + 1))
                  (drop (Z.to_nat (start range - 1)) pdfDoc);
     name := chunkName (start range) (end_ range) |}.

(** A range written [start-end], and a list of ranges written with
    commas. *)
Definition showRange (range : Range) : jsstring :=
  toString (start range) ++ HYPHEN :: toString (end_ range).

Definition showRanges (ranges : list Range) : jsstring :=
  join COMMA (map showRange ranges).


(** An angle [setRotation] refuses. *)
Definition refused (angleValue : num) : Prop :=
  match angleValue with
  | NaN => True
  | Int a => Z.rem a 90 <> 0
  end.

(** The entry of the archive and the HTML of the page with the 0-based
    index [i]. *)
Definition htmlEntry (i : nat) (items : list jsstring)
  : jsstring * jsstring :=
  (PdfText.htmlName (Z.of_nat i + 1),
   PdfText.pageHtml (Z.of_nat i + 1) (PdfText.pageText items)).

(** A MIME type the merge input keeps. *)
Definition isPdf (file : Utils.File) : Prop :=
  Utils.type file = js "application/pdf".

(** The text [comparePdfs] compares for the page of index [i]: that of the
    page, or the empty text when the document has no such page. *)
Definition textAt (pdf : PdfText.TextPdf) (i : nat) : jsstring :=
  PdfText.orEmpty (PdfText.extractText pdf !! i).

(** Every array of the state made by the view model is older than the
    next one it will make. *)
Definition wellFormed (vm : ViewModel.ViewModel) : Prop :=
  forall key id items,
    ViewModel.state vm key = ViewModel.Arr (ViewModel.Own id) items ->
    (id < ViewModel.next vm)%N.

(** A value that does not come from an array literal of the view model. *)
Definition foreign (v : ViewModel.value) : Prop :=
  match v with
  | ViewModel.Arr (ViewModel.Own _) _ => False
  | _ => True
  end.

(** The value an update object gives a key, if it has the key. *)
Fixpoint entry (updates : list (ViewModel.Key * ViewModel.value))
    (key : ViewModel.Key) : option ViewModel.value :=
  match updates with
  | [] => None
  | (k, v) :: updates' =>
      if ViewModel.keyEq key k then Some v else entry updates' key
  end.

(** The keys of an update object whose value differs from the state's. *)
Definition changedKeys (state : ViewModel.State)
    (updates : list (ViewModel.Key * ViewModel.value))
  : list ViewModel.Key :=
  map fst
    (List.filter
       (fun kv => negb (ViewModel.strictEq (state (fst kv)) (snd kv)))
       updates).

(** The JPEG quality [_splitManually] uses for a method. *)
Definition qualityOf (method : jsstring) : float :=
  if eqs method (js "each") then 0.8%float else 0.85%float.

(** The file [_splitManually] makes of a group of page indices: one page
    per index, with the image of that page alone. *)
Definition imageFile (quality : float) (group : list Z * jsstring)
  : Manual.SplitPdf :=
  {| Manual.blob :=
       map (fun i => [ {| Manual.source := i + 1;
                          Manual.quality := quality |} ]) (fst group);
     Manual.name := snd group |}.

(** A file of the fallback and a file of PDF-lib that go together: the
    same name, as many pages, and each page of the first is the image
    alone of the page of the document that the second has at that
    place. *)
Definition sameFile (pdfDoc : Document) (quality : float)
    (out : Manual.SplitPdf) (libOut : SplitPdf) : Prop :=
  Manual.name out = name libOut
  /\ Forall2
       (fun images page =>
          exists pageNum,
            images = [ {| Manual.source := pageNum;
                          Manual.quality := quality |} ]
            /\ 1 <= pageNum
            /\ pdfDoc !! Z.to_nat (pageNum - 1) = Some page)
       (Manual.blob out) (blob libOut).

End More.

Import More.

(* ===================================================================== *)
(** ** Facts on the string primitives *)
(* ===================================================================== *)

Section StringFacts.

Implicit Types (s t w : jsstring) (c sep : N).

Lemma bind_Normal {A B} (a : A) (k : A -> completion B) :
  bind (Normal a) k = k a.
Proof. reflexivity. Qed.

Lemma blank_app w1 w2 : blank w1 -> blank w2 -> blank (w1 ++ w2).
Proof.
  unfold blank. rewrite forallb_app. intros -> ->. reflexivity.
Qed.

Lemma trimStart_blank w s : blank w -> trimStart (w ++ s) = trimStart s.
Proof.
  unfold blank. induction w as [|c w IH]; simpl; [done|].
  destruct (isWhiteSpace c); simpl; [auto | discriminate].
Qed.

Lemma trimStart_solid c s : isWhiteSpace c = false -> trimStart (c :: s) = c :: s.
Proof. simpl. intros ->. reflexivity. Qed.

Lemma trimStart_app_solid s c t :
  isWhiteSpace c = false -> trimStart (s ++ c :: t) = trimStart s ++ c :: t.
Proof.
  intros Hc. induction s as [|d s IH]; simpl.
  - rewrite Hc. reflexivity.
  - destruct (isWhiteSpace d); [exact IH | reflexivity].
Qed.

Lemma trimStart_idem s : trimStart (trimStart s) = trimStart s.
Proof.
  induction s as [|c s IH]; simpl; [done|].
  destruct (isWhiteSpace c) eqn:E; [exact IH|]. simpl. rewrite E. reflexivity.
Qed.

Lemma trimEnd_blank_nil w : blank w -> trimEnd w = [].
Proof.
  unfold blank. induction w as [|c w IH]; simpl; [done|].
  destruct (isWhiteSpace c); simpl; [|discriminate].
  intros H. rewrite (IH H). reflexivity.
Qed.

Lemma trimEnd_solid c s : isWhiteSpace c = false -> trimEnd (c :: s) = c :: trimEnd s.
Proof. simpl. intros ->. destruct (trimEnd s); reflexivity. Qed.

Lemma trimEnd_blank s w : blank w -> trimEnd (s ++ w) = trimEnd s.
Proof.
  intros Hw. induction s as [|c s IH]; simpl.
  - apply trimEnd_blank_nil, Hw.
  - rewrite IH. reflexivity.
Qed.

Lemma trimEnd_app_solid s c t :
  isWhiteSpace c = false -> trimEnd (s ++ c :: t) = s ++ c :: trimEnd t.
Proof.
  intros Hc. induction s as [|d s IH].
  - apply trimEnd_solid, Hc.
  - change ((d :: s) ++ c :: t) with (d :: (s ++ c :: t)).
    cbn [trimEnd]. rewrite IH. destruct s; reflexivity.
Qed.

Lemma trimEnd_idem s : trimEnd (trimEnd s) = trimEnd s.
Proof.
  induction s as [|c s IH]; simpl; [done|].
  destruct (trimEnd s) as [|k kept] eqn:E.
  - destruct (isWhiteSpace c) eqn:Ec; simpl; [done|]. rewrite Ec. reflexivity.
  - cbn [trimEnd]. cbn [trimEnd] in IH. rewrite IH. reflexivity.
Qed.

Lemma trim_comm s : trimStart (trimEnd s) = trimEnd (trimStart s).
Proof.
  induction s as [|c s IH]; [done|].
  destruct (isWhiteSpace c) eqn:Ec.
  - cbn [trimStart]. rewrite Ec, <- IH. cbn [trimEnd].
    destruct (trimEnd s) as [|k kept].
    + rewrite Ec. reflexivity.
    + cbn [trimStart]. rewrite Ec. reflexivity.
  - rewrite (trimStart_solid _ _ Ec), (trimEnd_solid _ _ Ec).
    apply trimStart_solid, Ec.
Qed.

Lemma trim_trimStart s : trim (trimStart s) = trim s.
Proof. unfold trim. rewrite trimStart_idem. reflexivity. Qed.

Lemma trim_trimEnd s : trim (trimEnd s) = trim s.
Proof. unfold trim. rewrite trim_comm, trimEnd_idem. reflexivity. Qed.

(** White space around a string does not change its [trim]. *)
Lemma trim_blank w1 s w2 : blank w1 -> blank w2 -> trim (w1 ++ s ++ w2) = trim s.
Proof.
  intros H1 H2. unfold trim. rewrite (trimStart_blank _ _ H1).
  rewrite <- !trim_comm. rewrite (trimEnd_blank _ _ H2). reflexivity.
Qed.

(** [trim] around a code unit that is not white space. *)
Lemma trim_app_solid s c t :
  isWhiteSpace c = false -> trim (s ++ c :: t) = trimStart s ++ c :: trimEnd t.
Proof.
  intros Hc. unfold trim.
  rewrite (trimStart_app_solid _ _ _ Hc). apply trimEnd_app_solid, Hc.
Qed.

Lemma includes_app c s t : includes c (s ++ t) = includes c s || includes c t.
Proof. apply existsb_app. Qed.

Lemma without_app c s t : without c (s ++ t) <-> without c s /\ without c t.
Proof. unfold without. rewrite includes_app. apply orb_false_iff. Qed.

Lemma without_cons c d s : without c (d :: s) <-> d <> c /\ without c s.
Proof.
  unfold without. simpl. rewrite orb_false_iff, N.eqb_neq. intuition congruence.
Qed.

Lemma without_trimStart c s : without c s -> without c (trimStart s).
Proof.
  induction s as [|d s IH]; simpl; [done|].
  destruct (isWhiteSpace d); [|done].
  intros H. apply IH. apply without_cons in H. tauto.
Qed.

Lemma without_trimEnd c s : without c s -> without c (trimEnd s).
Proof.
  induction s as [|d s IH]; simpl; [done|].
  intros H. apply without_cons in H. destruct H as [Hd Hs].
  specialize (IH Hs). destruct (trimEnd s) as [|k kept].
  - destruct (isWhiteSpace d); [done|]. apply without_cons. done.
  - apply without_cons. done.
Qed.

Lemma blank_without w c : isWhiteSpace c = false -> blank w -> without c w.
Proof.
  intros Hc. unfold blank. induction w as [|d w IH]; simpl; [done|].
  intros H. apply andb_true_iff in H. destruct H as [Hd Hw].
  apply without_cons. split; [congruence | auto].
Qed.

Lemma split_nonempty sep s : split sep s <> [].
Proof.
  destruct s as [|c s]; simpl; [done|].
  destruct (c =? sep)%N; [done|]. destruct (split sep s); done.
Qed.

(** [split] distributes over an occurrence of the separator. *)
Lemma split_app sep s t :
  split sep (s ++ sep :: t) = split sep s ++ split sep t.
Proof.
  induction s as [|c s IH]; simpl.
  - rewrite N.eqb_refl. reflexivity.
  - destruct (c =? sep)%N; [rewrite IH; reflexivity|].
    rewrite IH. pose proof (split_nonempty sep s) as Hne.
    destruct (split sep s); [done | reflexivity].
Qed.

Lemma split_without sep s : without sep s -> split sep s = [s].
Proof.
  induction s as [|c s IH]; simpl; [done|].
  intros H. apply without_cons in H. destruct H as [Hc Hs].
  apply N.eqb_neq in Hc. rewrite Hc, (IH Hs). reflexivity.
Qed.

End StringFacts.

(* ===================================================================== *)
(** ** [_parseRanges] *)
(* ===================================================================== *)

Section ParseRanges.

Implicit Types (s t w part : jsstring) (m maxPages : Z).

Lemma isWhiteSpace_HYPHEN : isWhiteSpace HYPHEN = false.
Proof. reflexivity. Qed.

Lemma isWhiteSpace_COMMA : isWhiteSpace COMMA = false.
Proof. reflexivity. Qed.

(** The loop body appends the range of the part, if it has one. *)
Lemma parsePart_rangeOf m ranges part :
  parsePart m ranges part = ranges ++ option_list (rangeOf m part).
Proof.
  unfold parsePart, rangeOf, endpoints.
  destruct (includes HYPHEN (trim part)).
  - destruct (map _ (split HYPHEN (trim part))) as [|a [|b l]];
      simpl; rewrite ?app_nil_r; try reflexivity.
    destruct a as [|a], b as [|b]; simpl; rewrite ?app_nil_r; try reflexivity.
    + destruct (1 <=? a); reflexivity.
    + destruct ((1 <=? a) && (b <=? m) && (a <=? b)); simpl;
        rewrite ?app_nil_r; reflexivity.
  - destruct (parseInt (trim part) None) as [|p]; simpl;
      rewrite ?app_nil_r; try reflexivity.
    rewrite Z.leb_refl, andb_true_r.
    destruct ((1 <=? p) && (p <=? m)); simpl; rewrite ?app_nil_r; reflexivity.
Qed.

Lemma fold_parsePart m parts ranges :
  fold_left (parsePart m) parts ranges = ranges ++ omap (rangeOf m) parts.
Proof.
  revert ranges. induction parts as [|part parts IH]; intros ranges; simpl.
  - rewrite app_nil_r. reflexivity.
  - rewrite IH, parsePart_rangeOf.
    destruct (rangeOf m part); simpl; rewrite <- ?app_assoc; simpl;
      rewrite ?app_nil_r; reflexivity.
Qed.

(** The result is the ranges of the parts, in the order of the parts. *)
Lemma parseRanges_omap s m :
  _parseRanges s m = Normal (omap (rangeOf m) (split COMMA s)).
Proof. unfold _parseRanges. rewrite fold_parsePart. reflexivity. Qed.

Lemma rangeOf_inBounds m part r : rangeOf m part = Some r -> inBounds m r.
Proof.
  unfold rangeOf, inBounds.
  destruct (endpoints part) as [[|a] [|b]]; try discriminate.
  destruct ((1 <=? a) && (b <=? m) && (a <=? b)) eqn:E; [|discriminate].
  intros [= <-]. simpl. lia.
Qed.

Lemma rangeOf_outside m part a b :
  endpoints part = (Int a, Int b) -> a < 1 \/ m < b -> rangeOf m part = None.
Proof.
  unfold rangeOf. intros -> H.
  destruct ((1 <=? a) && (b <=? m) && (a <=? b)) eqn:E; [lia | reflexivity].
Qed.

(** Parsing two expressions joined by a comma gives the ranges of the
    first followed by the ranges of the second. *)
Lemma parseRanges_app s t m :
  _parseRanges (s ++ COMMA :: t) m
  = Normal (omap (rangeOf m) (split COMMA s) ++ omap (rangeOf m) (split COMMA t)).
Proof. rewrite parseRanges_omap, split_app, omap_app. reflexivity. Qed.

(** An expression without a comma is one part. *)
Lemma parseRanges_part t m :
  without COMMA t -> _parseRanges t m = Normal (option_list (rangeOf m t)).
Proof.
  intros H. rewrite parseRanges_omap, (split_without _ _ H). simpl.
  destruct (rangeOf m t); reflexivity.
Qed.

(** [endpoints] and [rangeOf] read a part through its [trim] only. *)
Lemma endpoints_trim part1 part2 :
  trim part1 = trim part2 -> endpoints part1 = endpoints part2.
Proof. unfold endpoints. intros ->. reflexivity. Qed.

Lemma rangeOf_blank m w1 t w2 :
  blank w1 -> blank w2 -> rangeOf m (w1 ++ t ++ w2) = rangeOf m t.
Proof.
  intros H1 H2. unfold rangeOf.
  rewrite (endpoints_trim (w1 ++ t ++ w2) t); [reflexivity|].
  apply trim_blank; assumption.
Qed.

Lemma endpoints_bare t :
  without HYPHEN t ->
  endpoints t = (parseInt (trim t) None, parseInt (trim t) None).
Proof.
  intros H. unfold endpoints.
  assert (includes HYPHEN (trim t) = false) as ->; [|reflexivity].
  apply without_trimEnd, without_trimStart, H.
Qed.

Lemma endpoints_pair s t :
  without HYPHEN s -> without HYPHEN t ->
  endpoints (s ++ HYPHEN :: t)
  = (parseInt (trim s) None, parseInt (trim t) None).
Proof.
  intros Hs Ht. unfold endpoints.
  rewrite (trim_app_solid _ _ _ isWhiteSpace_HYPHEN).
  rewrite includes_app.
  assert (includes HYPHEN (HYPHEN :: trimEnd t) = true) as -> by reflexivity.
  rewrite orb_true_r, split_app.
  rewrite (split_without _ _ (without_trimStart _ _ Hs)).
  rewrite (split_without _ _ (without_trimEnd _ _ Ht)).
  simpl. rewrite trim_trimStart, trim_trimEnd. reflexivity.
Qed.

End ParseRanges.

Section ParseRangesClaims.

Implicit Types (s t w part a b : jsstring) (m maxPages : Z).

Lemma omap_length_le {A B} (f : A -> option B) (l : list A) :
  (length (omap f l) <= length l)%nat.
Proof.
  induction l as [|a l IH]; [reflexivity|].
  change (omap f (a :: l))
    with (match f a with Some y => y :: omap f l | None => omap f l end).
  destruct (f a); simpl; lia.
Qed.

Lemma rangeOf_Some m part r :
  rangeOf m part = Some r
  <-> endpoints part = (Int (start r), Int (end_ r)) /\ inBounds m r.
Proof.
  unfold rangeOf, inBounds. split.
  - destruct (endpoints part) as [[|x] [|y]]; try discriminate.
    destruct ((1 <=? x) && (y <=? m) && (x <=? y)) eqn:E; [|discriminate].
    intros [= <-]. simpl. split; [reflexivity | lia].
  - intros [-> H]. destruct r as [x y]. simpl in *.
    destruct ((1 <=? x) && (y <=? m) && (x <=? y)) eqn:E; [reflexivity | lia].
Qed.

Lemma rangeOf_bare m t n :
  without HYPHEN t -> parseInt (trim t) None = Int n ->
  rangeOf m t
  = if (1 <=? n) && (n <=? m) then Some {| start := n; end_ := n |} else None.
Proof.
  intros Ht Hn. unfold rangeOf. rewrite (endpoints_bare _ Ht), Hn.
  rewrite Z.leb_refl, andb_true_r. reflexivity.
Qed.

Lemma rangeOf_twice m t :
  without HYPHEN t -> rangeOf m (t ++ HYPHEN :: t) = rangeOf m t.
Proof.
  intros Ht. unfold rangeOf.
  rewrite (endpoints_pair _ _ Ht Ht), (endpoints_bare _ Ht). reflexivity.
Qed.

Lemma rangeOf_pair_blank m w1 a w2 w3 b w4 :
  blank w1 -> blank w2 -> blank w3 -> blank w4 ->
  without HYPHEN a -> without HYPHEN b ->
  rangeOf m ((w1 ++ a ++ w2) ++ HYPHEN :: (w3 ++ b ++ w4))
  = rangeOf m (a ++ HYPHEN :: b).
Proof.
  intros H1 H2 H3 H4 Ha Hb. unfold rangeOf.
  assert (forall w, blank w -> without HYPHEN w) as Hw
    by (intros w; apply blank_without; reflexivity).
  rewrite endpoints_pair, (endpoints_pair _ _ Ha Hb).
  - rewrite !trim_blank by assumption. reflexivity.
  - rewrite !without_app. auto.
  - rewrite !without_app. auto.
Qed.

(** C10. For every expression and every [maxPages], [_parseRanges]
    returns normally; every range it returns has
    [1 <= start <= end <= maxPages]; and the result is made of the ranges
    of the comma-separated parts in order, where a part has a range exactly
    when its two endpoints are integers within those bounds: any other
    part is left out, without a failure. *)
Theorem parseRanges_total_in_bounds (rangesString : jsstring) (maxPages : Z) :
  exists ranges,
    _parseRanges rangesString maxPages = Normal ranges
    /\ Forall (inBounds maxPages) ranges
    /\ ranges = omap (rangeOf maxPages) (split COMMA rangesString)
    /\ (length ranges <= length (split COMMA rangesString))%nat
    /\ (forall part r,
          rangeOf maxPages part = Some r
          <-> endpoints part = (Int (start r), Int (end_ r))
              /\ inBounds maxPages r).
Proof.
  exists (omap (rangeOf maxPages) (split COMMA rangesString)).
  split; [apply parseRanges_omap|].
  split.
  - apply Forall_forall. intros r Hr.
    apply list_elem_of_In, list_elem_of_omap in Hr.
    destruct Hr as (part & _ & Hpart).
    exact (rangeOf_inBounds _ _ _ Hpart).
  - split; [reflexivity|]. split; [apply omap_length_le|].
    intros part r. apply rangeOf_Some.
Qed.

(** C2, as the code has it.  A part one of whose endpoints lies outside
    [1, maxPages] makes no failure: alone it parses to the empty list,
    and inside an expression the parts before and after it are parsed as
    if it were absent. *)
Theorem parseRanges_outside_omitted (part : jsstring) (maxPages a b : Z) :
  without COMMA part ->
  endpoints part = (Int a, Int b) ->
  a < 1 \/ maxPages < a \/ b < 1 \/ maxPages < b ->
  _parseRanges part maxPages = Normal []
  /\ forall before after,
       exists rb ra,
         _parseRanges before maxPages = Normal rb
         /\ _parseRanges after maxPages = Normal ra
         /\ _parseRanges (before ++ COMMA :: part ++ COMMA :: after) maxPages
            = Normal (rb ++ ra).
Proof.
  intros Hc He Hout.
  assert (rangeOf maxPages part = None) as Hnone.
  { unfold rangeOf. rewrite He.
    destruct ((1 <=? a) && (b <=? maxPages) && (a <=? b)) eqn:E;
      [lia | reflexivity]. }
  split.
  - rewrite (parseRanges_part _ _ Hc), Hnone. reflexivity.
  - intros before after.
    exists (omap (rangeOf maxPages) (split COMMA before)),
           (omap (rangeOf maxPages) (split COMMA after)).
    rewrite !parseRanges_omap. split; [reflexivity|]. split; [reflexivity|].
    rewrite !split_app, !omap_app, (split_without _ _ Hc).
    simpl. rewrite Hnone. reflexivity.
Qed.

(** C4. ["1-3,5,7-9"] with 10 pages gives [(1,3), (5,5), (7,9)].  The
    ranges of an expression come in the order of its parts: what stands
    before a comma gives its ranges first, what stands after gives its
    ranges next, whatever their values, so nothing is sorted, merged or
    dropped as a duplicate.  A part without hyphen that reads as the
    integer [n] gives the range [n-n], the same as the part written twice
    around a hyphen; and white space around a part and around its hyphen
    changes nothing. *)
Theorem parseRanges_token_order :
  _parseRanges (js "1-3,5,7-9") 10
  = Normal [ {| start := 1; end_ := 3 |}; {| start := 5; end_ := 5 |};
             {| start := 7; end_ := 9 |} ]
  /\ (forall s t m,
        exists rs rt,
          _parseRanges s m = Normal rs /\ _parseRanges t m = Normal rt
          /\ _parseRanges (s ++ COMMA :: t) m = Normal (rs ++ rt))
  /\ _parseRanges (js "5-7,1-6,5-7,2") 10
     = Normal [ {| start := 5; end_ := 7 |}; {| start := 1; end_ := 6 |};
                {| start := 5; end_ := 7 |}; {| start := 2; end_ := 2 |} ]
  /\ (forall t m n,
        without COMMA t -> without HYPHEN t ->
        parseInt (trim t) None = Int n ->
        _parseRanges t m
        = Normal (if (1 <=? n) && (n <=? m)
                  then [ {| start := n; end_ := n |} ] else [])
        /\ _parseRanges (t ++ HYPHEN :: t) m = _parseRanges t m)
  /\ (forall w1 w2 t m,
        blank w1 -> blank w2 -> without COMMA t ->
        _parseRanges (w1 ++ t ++ w2) m = _parseRanges t m)
  /\ (forall w1 w2 w3 w4 a b m,
        blank w1 -> blank w2 -> blank w3 -> blank w4 ->
        without COMMA a -> without HYPHEN a ->
        without COMMA b -> without HYPHEN b ->
        _parseRanges ((w1 ++ a ++ w2) ++ HYPHEN :: (w3 ++ b ++ w4)) m
        = _parseRanges (a ++ HYPHEN :: b) m).
Proof.
  assert (forall w, blank w -> without COMMA w) as Hw
    by (intros w; apply blank_without; reflexivity).
  assert (without COMMA [HYPHEN]) as Hh by reflexivity.
  split; [vm_compute; reflexivity|].
  split.
  { intros s t m.
    exists (omap (rangeOf m) (split COMMA s)), (omap (rangeOf m) (split COMMA t)).
    rewrite !parseRanges_omap. split; [reflexivity|]. split; [reflexivity|].
    rewrite split_app, omap_app. reflexivity. }
  split; [vm_compute; reflexivity|].
  split.
  { intros t m n Hc Hh' Hn. split.
    - rewrite (parseRanges_part _ _ Hc), (rangeOf_bare _ _ _ Hh' Hn).
      destruct ((1 <=? n) && (n <=? m)); reflexivity.
    - rewrite (parseRanges_part _ _ Hc), parseRanges_part.
      + rewrite (rangeOf_twice _ _ Hh'). reflexivity.
      + apply without_app. split; [exact Hc|].
        apply without_cons. split; [discriminate | exact Hc]. }
  split.
  { intros w1 w2 t m H1 H2 Hc.
    rewrite (parseRanges_part _ _ Hc), parseRanges_part.
    - rewrite (rangeOf_blank _ _ _ _ H1 H2). reflexivity.
    - rewrite !without_app. auto. }
  intros w1 w2 w3 w4 a b m H1 H2 H3 H4 Hca Hha Hcb Hhb.
  rewrite !parseRanges_part.
  - rewrite (rangeOf_pair_blank _ _ _ _ _ _ _ H1 H2 H3 H4 Hha Hhb). reflexivity.
  - apply without_app. split; [exact Hca|].
    apply without_cons. split; [discriminate | exact Hcb].
  - rewrite !without_app, without_cons, !without_app.
    split; [auto|]. split; [discriminate|]. auto.
Qed.

End ParseRangesClaims.

(* ===================================================================== *)
(** ** Copying pages *)
(* ===================================================================== *)

Section Copying.

Implicit Types (doc pages : Document) (page : Page).

Lemma fold_addPage pages doc : fold_left addPage pages doc = doc ++ pages.
Proof.
  revert doc. induction pages as [|page pages IH]; intros doc; simpl.
  - rewrite app_nil_r. reflexivity.
  - rewrite IH. unfold addPage. rewrite <- app_assoc. reflexivity.
Qed.

Lemma copyPage_lookup doc (i : nat) page :
  doc !! i = Some page -> copyPage doc (Z.of_nat i) = Normal page.
Proof.
  intros H. unfold copyPage.
  destruct (0 <=? Z.of_nat i) eqn:E; [|apply Z.leb_gt in E; lia].
  rewrite Nat2Z.id, H. reflexivity.
Qed.

(** Copying a window of consecutive indices that lies inside the document
    gives that window of pages. *)
Lemma copyPages_window doc (len i : nat) :
  (i + len <= length doc)%nat ->
  copyPages doc (seqZ (Z.of_nat i) (Z.of_nat len))
  = Normal (take len (drop i doc)).
Proof.
  unfold copyPages. revert i. induction len as [|len IH]; intros i Hi.
  - reflexivity.
  - rewrite seqZ_cons by lia.
    destruct (lookup_lt_is_Some_2 doc i) as [page Hpage]; [lia|].
    replace (Z.succ (Z.of_nat i)) with (Z.of_nat (S i)) by lia.
    replace (Z.pred (Z.of_nat (S len))) with (Z.of_nat len) by lia.
    cbn [forEachM]. rewrite (copyPage_lookup _ _ _ Hpage), bind_Normal.
    rewrite IH by lia. rewrite bind_Normal.
    rewrite (drop_S _ _ _ Hpage). reflexivity.
Qed.

Lemma copyPages_windowZ doc (i len : Z) :
  0 <= i -> 0 <= len -> i + len <= getPageCount doc ->
  copyPages doc (seqZ i len)
  = Normal (take (Z.to_nat len) (drop (Z.to_nat i) doc)).
Proof.
  unfold getPageCount. intros Hi Hlen Hn.
  rewrite <- (Z2Nat.id i) at 1 by lia. rewrite <- (Z2Nat.id len) at 1 by lia.
  apply copyPages_window. lia.
Qed.

(** Copying all the indices of a document gives all its pages. *)
Lemma copyPages_all doc : copyPages doc (getPageIndices doc) = Normal doc.
Proof.
  unfold getPageIndices, getPageCount.
  pose proof (copyPages_window doc (length doc) 0) as H.
  change (Z.of_nat 0) with 0 in H. rewrite H by lia.
  rewrite drop_0, take_ge by lia. reflexivity.
Qed.

(** [save] adds nothing to a document that has a page. *)
Lemma save_pages doc : doc <> [] -> save doc = doc.
Proof. destruct doc; [done | reflexivity]. Qed.

Lemma save_length doc : doc <> [] -> length (save doc) = length doc.
Proof. intros H. rewrite (save_pages _ H). reflexivity. Qed.

End Copying.

(* ===================================================================== *)
(** ** [mergePdfs] *)
(* ===================================================================== *)

Section Merge.

Lemma mergeLoop_concat (files : list Document) (mergedPdf : Document) :
  mergeLoop mergedPdf files = Normal (mergedPdf ++ concat files).
Proof.
  revert mergedPdf. induction files as [|pdf files IH]; intros mergedPdf; simpl.
  - rewrite app_nil_r. reflexivity.
  - rewrite copyPages_all, bind_Normal, fold_addPage, IH, <- app_assoc.
    reflexivity.
Qed.

Lemma mergePdfs_save (files : list Document) :
  mergePdfs files = Normal (save (concat files)).
Proof.
  unfold mergePdfs, create. rewrite mergeLoop_concat. reflexivity.
Qed.

(** C5, as the code has it.  Merging source documents that hold a page
    between them returns one document whose pages are the pages of the
    first source in their order, then those of the second, and so on:
    the concatenation of the sources, nothing reordered, dropped or
    added.  A two-page document followed by a three-page document gives
    the five pages in the order A.p1, A.p2, B.p1, B.p2, B.p3.  In every
    case the result is the concatenation as [save] writes it: when the
    sources hold no page, one blank page. *)
Theorem mergePdfs_concat :
  (forall files : list Document,
     concat files <> [] -> mergePdfs files = Normal (concat files))
  /\ (forall a1 a2 b1 b2 b3 : Page,
        mergePdfs [[a1; a2]; [b1; b2; b3]] = Normal [a1; a2; b1; b2; b3])
  /\ (forall files : list Document,
        mergePdfs files = Normal (save (concat files))).
Proof.
  split; [|split].
  - intros files H. rewrite mergePdfs_save, (save_pages _ H). reflexivity.
  - intros a1 a2 b1 b2 b3. apply mergePdfs_save.
  - apply mergePdfs_save.
Qed.

End Merge.

(* ===================================================================== *)
(** ** [rotatePdf] *)
(* ===================================================================== *)

Section Rotate.

Lemma setRotation_pages (angle : Z) (pages : list Page) :
  Z.rem angle 90 = 0 ->
  forEachM (fun page => setRotation page (Int angle)) pages
  = Normal (map (rotatedTo angle) pages).
Proof.
  intros H. induction pages as [|page pages IH]; [reflexivity|].
  cbn [forEachM]. rewrite IH. unfold setRotation.
  apply Z.eqb_eq in H. rewrite H. reflexivity.
Qed.

Lemma rotatePdf_multiple (doc : Document) (angle : jsstring) (a : Z) :
  parseInt angle None = Int a -> Z.rem a 90 = 0 ->
  rotatePdf doc angle = Normal (save (map (rotatedTo a) doc)).
Proof.
  intros Ha Hrem. unfold rotatePdf. rewrite Ha.
  rewrite (setRotation_pages _ _ Hrem). reflexivity.
Qed.

Lemma rotatePdf_pages (doc : Document) (angle : jsstring) (a : Z) :
  parseInt angle None = Int a -> Z.rem a 90 = 0 -> doc <> [] ->
  rotatePdf doc angle = Normal (map (rotatedTo a) doc).
Proof.
  intros Ha Hrem Hdoc. rewrite (rotatePdf_multiple _ _ _ Ha Hrem).
  rewrite save_pages; [reflexivity|]. destruct doc; done.
Qed.

(** C1, as the code has it.  In a document that has a page, for an angle
    whose text reads as a safe integer that is a multiple of 90,
    [rotatePdf] gives every page the angle itself as its rotation: the
    rotation the page had is not added, and nothing is reduced modulo
    360.  Hence rotating by 90 twice leaves every page at 90, the same as
    rotating by 90 once. *)
Theorem rotatePdf_sets_angle (file : Document) (angle : jsstring) (a : Z) :
  parseInt angle None = Int a ->
  safeInteger a ->
  Z.rem a 90 = 0 ->
  file <> [] ->
  rotatePdf file angle = Normal (map (rotatedTo a) file)
  /\ (forall page, In page (map (rotatedTo a) file) -> rotation page = a)
  /\ bind (rotatePdf file (js "90")) (fun once => rotatePdf once (js "90"))
     = rotatePdf file (js "90").
Proof.
  intros Ha _ Hrem Hfile.
  split; [apply rotatePdf_pages; assumption|]. split.
  - intros page Hin. apply in_map_iff in Hin.
    destruct Hin as (p & <- & _). reflexivity.
  - rewrite (rotatePdf_pages file (js "90") 90) by (reflexivity || exact Hfile).
    rewrite bind_Normal.
    rewrite (rotatePdf_pages _ (js "90") 90)
      by (reflexivity || (destruct file; done)).
    rewrite map_map. reflexivity.
Qed.

End Rotate.

(* ===================================================================== *)
(** ** [cropPdf] *)
(* ===================================================================== *)

Section Crop.








End Crop.

Section CropClaims.



End CropClaims.

Section SplitRangeClaims.

(** C6, as the code has it.  When the expression parses to no range at
    all, splitting by ranges does not fail: it returns normally with zero
    output documents, from [_splitWithPDFLib] and from [splitPdf]; and
    the application, which refuses a blank expression only, shows the
    empty list of results. *)
Theorem split_empty_range_set (pdfDoc : Document) (ranges : jsstring) :
  _parseRanges ranges (getPageCount pdfDoc) = Normal [] ->
  _splitWithPDFLib pdfDoc (js "range") (Some ranges) = Normal []
  /\ splitPdf pdfDoc (js "range") (Some ranges) = Normal []
  /\ (forall input,
        trim ranges <> [] ->
        App.splitPdf (Some pdfDoc) (js "range") ranges input = App.Results []).
Proof.
  intros H.
  assert (_splitWithPDFLib pdfDoc (js "range") (Some ranges) = Normal [])
    as Hsplit.
  { unfold _splitWithPDFLib.
    change (eqs (js "range") (js "each")) with false.
    change (eqs (js "range") (js "pages")) with false.
    change (eqs (js "range") (js "range")) with true.
    cbn [andb]. destruct (truthy (Some ranges)); [|reflexivity].
    cbn [text]. rewrite H. reflexivity. }
  assert (splitPdf pdfDoc (js "range") (Some ranges) = Normal []) as Hservice
    by (unfold splitPdf; rewrite Hsplit; reflexivity).
  split; [exact Hsplit|]. split; [exact Hservice|].
  intros input Htrim. unfold App.splitPdf.
  change (eqs (js "range") (js "range")) with true. cbv iota.
  assert (truthy (Some ranges) = true) as ->
    by (destruct ranges; [done | reflexivity]).
  assert (eqs (trim ranges) [] = false) as ->
    by (unfold eqs; apply bool_decide_eq_false_2, Htrim).
  cbn [negb orb]. unfold App.run. rewrite Hservice. reflexivity.
Qed.

End SplitRangeClaims.

(* ===================================================================== *)
(** ** Decimal numerals: [parseInt] reads what [toString] prints *)
(* ===================================================================== *)

Section Decimal.

Implicit Types (ds acc : jsstring) (c : N) (n : N).

Lemma isDecimal_cases c :
  isDecimal c ->
  c = 48%N \/ c = 49%N \/ c = 50%N \/ c = 51%N \/ c = 52%N \/ c = 53%N
  \/ c = 54%N \/ c = 55%N \/ c = 56%N \/ c = 57%N.
Proof. unfold isDecimal. lia. Qed.

(** Case analysis on a decimal digit. *)
Ltac decimal_cases H :=
  apply isDecimal_cases in H;
  repeat (destruct H as [H|H]); subst; reflexivity.

Lemma isDecimal_solid c : isDecimal c -> isWhiteSpace c = false.
Proof. intros H. decimal_cases H. Qed.

Lemma isDecimal_unsigned c :
  isDecimal c -> ((c =? PLUS) || (c =? HYPHEN))%N = false /\ (c =? HYPHEN)%N = false.
Proof. intros H. split; decimal_cases H. Qed.

Lemma isDecimal_not_x c : isDecimal c -> ((c =? 120) || (c =? 88))%N = false.
Proof. intros H. decimal_cases H. Qed.

Lemma isDecimal_digit c : isDecimal c -> radixDigit 10 c = Some (decimalValue c).
Proof. intros H. decimal_cases H. Qed.

Lemma digitsPrefix_decimal ds :
  Forall isDecimal ds -> digitsPrefix 10 ds = map decimalValue ds.
Proof.
  induction 1 as [|c ds Hc _ IH]; simpl; [reflexivity|].
  rewrite (isDecimal_digit _ Hc), IH. reflexivity.
Qed.

(** [parseInt] on a non-empty string of decimal digits, with no radix or
    with radix 10. *)
Lemma parseInt_decimal ds (radix : option Z) :
  ds <> [] -> Forall isDecimal ds -> radix = None \/ radix = Some 10 ->
  parseInt ds radix = Int (mathInt 10 (map decimalValue ds)).
Proof.
  intros Hne Hds Hradix. destruct ds as [|c0 ds]; [done|].
  pose proof (digitsPrefix_decimal _ Hds) as Hprefix.
  inversion Hds as [|? ? Hc0 Hrest]; subst.
  destruct (isDecimal_unsigned _ Hc0) as [Hsign Hminus].
  unfold parseInt. rewrite (trimStart_solid _ _ (isDecimal_solid _ Hc0)).
  rewrite Hsign, Hminus.
  assert (match ds with
          | [] => true
          | c1 :: _ => negb ((c1 =? 120) || (c1 =? 88))%N
          end = true) as Hx.
  { destruct Hrest as [|c1 ? Hc1 _]; [reflexivity|].
    rewrite (isDecimal_not_x _ Hc1). reflexivity. }
  destruct Hradix as [-> | ->]; cbn [Z.eqb Z.leb Z.compare orb andb Pos.compare
                                     Pos.compare_cont].
  - destruct ds as [|c1 ds].
    + rewrite Hprefix. simpl. destruct (decimalValue c0); reflexivity.
    + apply negb_true_iff in Hx. rewrite Hx, andb_false_r, Hprefix.
      simpl map. cbv iota. rewrite Z.mul_1_l. reflexivity.
  - destruct ds as [|c1 ds].
    + rewrite Hprefix. simpl. destruct (decimalValue c0); reflexivity.
    + change ((10 =? 16)%positive) with false. cbn [andb].
      rewrite Hprefix. simpl map. cbv iota. rewrite Z.mul_1_l. reflexivity.
Qed.

End Decimal.

Section DecimalPrint.

Implicit Types (ds acc : jsstring) (n : N).

Lemma mathInt_snoc (ds : list Z) (d : Z) :
  mathInt 10 (ds ++ [d]) = mathInt 10 ds * 10 + d.
Proof. unfold mathInt. rewrite fold_left_app. reflexivity. Qed.

Lemma isDecimal_last n : isDecimal (DIGIT0 + n mod 10)%N.
Proof.
  unfold isDecimal, DIGIT0.
  pose proof (N.mod_upper_bound n 10). pose proof (N.le_0_l (n mod 10)). lia.
Qed.

Lemma decimalValue_last n : decimalValue (DIGIT0 + n mod 10)%N = Z.of_N (n mod 10).
Proof.
  unfold decimalValue, DIGIT0. pose proof (N.le_0_l (n mod 10)). lia.
Qed.

(** With enough fuel, [digits] puts before [acc] the decimal numeral of
    [n]. *)
Lemma digits_decimal (fuel : nat) n acc :
  (n < 10 ^ N.of_nat (S fuel))%N ->
  exists ds,
    digits (S fuel) n acc = ds ++ acc /\ ds <> [] /\ Forall isDecimal ds
    /\ mathInt 10 (map decimalValue ds) = Z.of_N n.
Proof.
  revert n acc. induction fuel as [|fuel IH]; intros n acc Hn.
  - exists [(DIGIT0 + n mod 10)%N].
    assert (n < 10)%N as Hlt by (simpl in Hn; lia).
    cbn [digits]. apply N.ltb_lt in Hlt as Hb. rewrite Hb.
    split; [reflexivity|]. split; [done|].
    split; [constructor; [apply isDecimal_last | constructor]|].
    cbn. rewrite decimalValue_last, N.mod_small by exact Hlt. lia.
  - destruct (n <? 10)%N eqn:Hb.
    + exists [(DIGIT0 + n mod 10)%N].
      apply N.ltb_lt in Hb as Hlt.
      change (digits (S (S fuel)) n acc)
        with (if (n <? 10)%N then (DIGIT0 + n mod 10)%N :: acc
              else digits (S fuel) (n / 10)%N ((DIGIT0 + n mod 10)%N :: acc)).
      rewrite Hb.
      split; [reflexivity|]. split; [done|].
      split; [constructor; [apply isDecimal_last | constructor]|].
      cbn. rewrite decimalValue_last, N.mod_small by exact Hlt. lia.
    + change (digits (S (S fuel)) n acc)
        with (if (n <? 10)%N then (DIGIT0 + n mod 10)%N :: acc
              else digits (S fuel) (n / 10)%N ((DIGIT0 + n mod 10)%N :: acc)).
      rewrite Hb.
      destruct (IH (n / 10)%N ((DIGIT0 + n mod 10)%N :: acc))
        as (ds & Hds & Hne & Hdec & Hval).
      { apply N.Div0.div_lt_upper_bound.
        rewrite Nat2N.inj_succ, N.pow_succ_r' in Hn. exact Hn. }
      exists (ds ++ [(DIGIT0 + n mod 10)%N]).
      split; [rewrite Hds, <- app_assoc; reflexivity|].
      split; [destruct ds; done|].
      split.
      * apply Forall_app. split; [exact Hdec|].
        constructor; [apply isDecimal_last | constructor].
      * rewrite map_app. cbn [map]. rewrite mathInt_snoc, Hval.
        rewrite decimalValue_last.
        pose proof (N.div_mod n 10). lia.
Qed.

Lemma toString_decimal (z : Z) :
  0 <= z ->
  toString z <> [] /\ Forall isDecimal (toString z)
  /\ mathInt 10 (map decimalValue (toString z)) = z.
Proof.
  intros Hz. unfold toString.
  destruct (z <? 0) eqn:E; [apply Z.ltb_lt in E; lia|].
  set (n := Z.to_N (Z.abs z)).
  destruct (digits_decimal (N.to_nat (N.log2 n)) n []) as (ds & Hds & Hne & Hdec & Hval).
  - rewrite Nat2N.inj_succ, N2Nat.id.
    destruct (N.eq_dec n 0%N) as [-> | Hn]; [reflexivity|].
    apply N.lt_le_trans with (2 ^ N.succ (N.log2 n))%N.
    + apply N.log2_spec. lia.
    + apply N.pow_le_mono_l. lia.
  - rewrite Hds, app_nil_r. split; [exact Hne|]. split; [exact Hdec|].
    rewrite Hval. subst n. lia.
Qed.

(** [parseInt] reads back the integer [toString] prints. *)
Lemma parseInt_toString (z : Z) (radix : option Z) :
  0 <= z -> radix = None \/ radix = Some 10 ->
  parseInt (toString z) radix = Int z.
Proof.
  intros Hz Hradix. destruct (toString_decimal z Hz) as (Hne & Hdec & Hval).
  rewrite (parseInt_decimal _ _ Hne Hdec Hradix), Hval. reflexivity.
Qed.

(** The chunk size the application passes as [String(pagesPerFile)] is the
    chunk size the service uses. *)
Lemma pagesPerChunk_toString (size : Z) :
  1 <= size -> pagesPerChunk (Some (toString size)) = size.
Proof.
  intros Hsize. unfold pagesPerChunk.
  destruct (toString_decimal size) as (Hne & _); [lia|].
  destruct (toString size) as [|c r] eqn:E; [done|]. rewrite <- E.
  rewrite parseInt_toString by (lia || auto).
  destruct size; lia.
Qed.

End DecimalPrint.

(* ===================================================================== *)
(** ** Splitting into chunks of a fixed number of pages *)
(* ===================================================================== *)

Section Chunks.

Variables pageCount size : Z.
Hypothesis pageCount_nonneg : 0 <= pageCount.
Hypothesis size_pos : 1 <= size.

Local Abbreviation K := (chunkBound pageCount size).

Lemma chunk_ceiling : 0 <= K /\ pageCount <= K * size /\ (K - 1) * size < pageCount.
Proof using pageCount_nonneg size_pos.
  unfold chunkBound.
  pose proof (Z.div_mod (pageCount + size - 1) size ltac:(lia)) as Hdm.
  pose proof (Z.mod_pos_bound (pageCount + size - 1) size ltac:(lia)) as Hm.
  pose proof (Z.div_pos (pageCount + size - 1) size ltac:(lia) ltac:(lia)).
  nia.
Qed.

Lemma chunkCount_K : Z.of_nat (chunkCount pageCount size) = K.
Proof using pageCount_nonneg size_pos.
  unfold chunkCount. pose proof chunk_ceiling. lia.
Qed.

(** The loop goes on exactly while there is a file left. *)
Lemma chunk_continues (k : nat) :
  Z.of_nat k * size < pageCount <-> (k < chunkCount pageCount size)%nat.
Proof using pageCount_nonneg size_pos.
  pose proof chunk_ceiling as (H0 & H1 & H2). pose proof chunkCount_K as HK.
  split; intros H; nia.
Qed.

Lemma chunk_last_length :
  1 <= pageCount ->
  pageCount - (K - 1) * size
  = if pageCount mod size =? 0 then size else pageCount mod size.
Proof using pageCount_nonneg size_pos.
  intros Hn. pose proof chunk_ceiling as (H0 & H1 & H2).
  pose proof (Z.div_mod pageCount size ltac:(lia)) as Hdm.
  pose proof (Z.mod_pos_bound pageCount size ltac:(lia)) as Hm.
  set (q := pageCount / size) in *. set (m := pageCount mod size) in *.
  destruct (m =? 0) eqn:E.
  - apply Z.eqb_eq in E. assert (q = K) by nia. nia.
  - apply Z.eqb_neq in E. assert (K = q + 1) by nia. nia.
Qed.

(** What one turn of the loop computes is the file the statement
    describes. *)
Lemma chunk_window (k : nat) :
  (k < chunkCount pageCount size)%nat ->
  Z.min (Z.of_nat k * size + size) pageCount - Z.of_nat k * size
  = chunkLength pageCount size k.
Proof using pageCount_nonneg size_pos.
  intros Hk. unfold chunkLength.
  pose proof chunkCount_K as HK.
  destruct (S k <? chunkCount pageCount size)%nat eqn:E.
  - apply Nat.ltb_lt in E. apply chunk_continues in E. lia.
  - apply Nat.ltb_ge in E. assert (Z.of_nat k = K - 1) as Hlast by lia.
    pose proof chunk_ceiling as (H0 & H1 & H2).
    rewrite <- chunk_last_length by nia. rewrite Hlast. nia.
Qed.

Lemma chunkLength_bounds (k : nat) :
  (k < chunkCount pageCount size)%nat ->
  1 <= chunkLength pageCount size k <= size
  /\ Z.of_nat k * size + chunkLength pageCount size k <= pageCount.
Proof using pageCount_nonneg size_pos.
  intros Hk. rewrite <- (chunk_window k Hk).
  apply chunk_continues in Hk. lia.
Qed.

Lemma chunkLoop_closed (fuel k : nat) :
  (chunkCount pageCount size - k <= fuel)%nat ->
  chunkLoop fuel pageCount size (Z.of_nat k * size)
  = map (chunkAt pageCount size) (seq k (chunkCount pageCount size - k)).
Proof using pageCount_nonneg size_pos.
  revert k. induction fuel as [|fuel IH]; intros k Hfuel.
  - replace (chunkCount pageCount size - k)%nat with 0%nat by lia. reflexivity.
  - cbn [chunkLoop].
    destruct (Z.of_nat k * size <? pageCount) eqn:E.
    + apply Z.ltb_lt in E. apply chunk_continues in E as Hk.
      replace (chunkCount pageCount size - k)%nat
        with (S (chunkCount pageCount size - S k)) by lia.
      cbn [seq map]. f_equal.
      * unfold chunkAt, chunkName. rewrite (chunk_window k Hk).
        rewrite <- (chunk_window k Hk) at 3.
        repeat f_equal. lia.
      * replace (Z.of_nat k * size + size) with (Z.of_nat (S k) * size) by lia.
        apply IH. lia.
    + apply Z.ltb_ge in E.
      assert (~ (k < chunkCount pageCount size)%nat) as Hk
        by (rewrite <- chunk_continues; lia).
      replace (chunkCount pageCount size - k)%nat with 0%nat by lia.
      reflexivity.
Qed.

(** The list of groups the loop builds, in closed form. *)
Lemma chunkGroups_closed :
  chunkGroups pageCount size
  = map (chunkAt pageCount size) (seq 0 (chunkCount pageCount size)).
Proof using pageCount_nonneg size_pos.
  unfold chunkGroups.
  pose proof (chunkLoop_closed (Z.to_nat pageCount) 0) as H.
  rewrite Nat.sub_0_r in H. change (Z.of_nat 0 * size) with 0 in H.
  apply H. pose proof chunk_ceiling. pose proof chunkCount_K. nia.
Qed.

(** The groups, one after the other, are the indices [0 .. pageCount - 1]
    in order: they are contiguous, they do not overlap and they leave no
    page out. *)
Lemma chunkLoop_concat (fuel : nat) (i : Z) :
  (Z.to_nat (pageCount - i) <= fuel)%nat ->
  concat (map fst (chunkLoop fuel pageCount size i)) = seqZ i (pageCount - i).
Proof using size_pos.
  revert i. induction fuel as [|fuel IH]; intros i Hfuel.
  - rewrite seqZ_nil by lia. reflexivity.
  - cbn [chunkLoop]. destruct (i <? pageCount) eqn:E.
    + apply Z.ltb_lt in E. cbn [map concat fst]. rewrite IH by lia.
      destruct (Z.le_gt_cases (i + size) pageCount) as [Hle | Hgt].
      * rewrite Z.min_l by lia.
        replace (pageCount - i) with ((i + size - i) + (pageCount - (i + size)))
          by lia.
        rewrite seqZ_app by lia. repeat f_equal; lia.
      * rewrite Z.min_r by lia.
        rewrite (seqZ_nil (i + size)) by lia. apply app_nil_r.
    + apply Z.ltb_ge in E. rewrite seqZ_nil by lia. reflexivity.
Qed.

End Chunks.

Section ChunkClaims.

Lemma forEachM_map_Normal {A B C} (f : B -> completion C) (h : A -> B)
    (g : A -> C) (l : list A) :
  (forall a, In a l -> f (h a) = Normal (g a)) ->
  forEachM f (map h l) = Normal (map g l).
Proof.
  induction l as [|a l IH]; intros H; [reflexivity|].
  cbn [forEachM map]. rewrite (H a) by (left; reflexivity).
  rewrite IH by (intros b Hb; apply H; right; exact Hb). reflexivity.
Qed.

Lemma newPdf_chunkAt (pdfDoc : Document) (size : Z) (k : nat) :
  1 <= size ->
  (k < chunkCount (getPageCount pdfDoc) size)%nat ->
  newPdf pdfDoc (chunkAt (getPageCount pdfDoc) size k)
  = Normal (chunkFile pdfDoc size k).
Proof.
  intros Hsize Hk.
  assert (0 <= getPageCount pdfDoc) as Hn by (unfold getPageCount; lia).
  destruct (chunkLength_bounds _ _ Hn Hsize k Hk) as (Hlen & Hend).
  unfold newPdf, chunkFile, chunkAt. cbn [snd].
  rewrite copyPages_windowZ by lia.
  rewrite bind_Normal, fold_addPage. reflexivity.
Qed.

(** C3. For a document of [pageCount >= 1] pages and a chunk size
    [size >= 1], the split makes [chunkCount] files; file [k]
    holds the [chunkLength] consecutive pages with the 0-based indices
    from [k * size] on, where [chunkLength] is [size] for every file but
    the last and [pageCount mod size] (or [size] when that is 0) for the
    last, and is named [pages_{first}-{last}.pdf] after the 1-based
    numbers of its first and last page.  The index groups, put one after
    the other, are [0 .. pageCount - 1].  A size that is a safe integer
    reaches the service as the text [String(size)], from the application
    as well, and is read back as it is. *)
Theorem split_fixed_chunks (pdfDoc : Document) (size : Z) :
  1 <= getPageCount pdfDoc ->
  1 <= size ->
  (safeInteger size -> pagesPerChunk (Some (toString size)) = size)
  /\ chunkGroups (getPageCount pdfDoc) size
     = map (chunkAt (getPageCount pdfDoc) size)
           (seq 0 (chunkCount (getPageCount pdfDoc) size))
  /\ concat (map fst (chunkGroups (getPageCount pdfDoc) size))
     = seqZ 0 (getPageCount pdfDoc)
  /\ (forall k,
        (k < chunkCount (getPageCount pdfDoc) size)%nat ->
        1 <= chunkLength (getPageCount pdfDoc) size k <= size
        /\ Z.of_nat k * size + chunkLength (getPageCount pdfDoc) size k
           <= getPageCount pdfDoc)
  /\ (forall ranges,
        pagesPerChunk ranges = size ->
        _splitWithPDFLib pdfDoc (js "pages") ranges
        = Normal (map (chunkFile pdfDoc size)
                      (seq 0 (chunkCount (getPageCount pdfDoc) size))))
  /\ (forall pageRanges,
        safeInteger size ->
        App.splitPdf (Some pdfDoc) (js "pages") pageRanges
          (Some (toString size))
        = App.Results (map (chunkFile pdfDoc size)
                           (seq 0 (chunkCount (getPageCount pdfDoc) size)))).
Proof.
  intros Hn Hsize.
  assert (0 <= getPageCount pdfDoc) as Hn0 by lia.
  pose proof (chunkGroups_closed _ _ Hn0 Hsize) as Hclosed.
  split; [intros _; exact (pagesPerChunk_toString _ Hsize)|].
  split; [exact Hclosed|]. split.
  { unfold chunkGroups. rewrite (chunkLoop_concat _ _ Hsize) by lia.
    rewrite Z.sub_0_r. reflexivity. }
  split; [intros k Hk; exact (chunkLength_bounds _ _ Hn0 Hsize k Hk)|].
  assert (forall ranges,
            pagesPerChunk ranges = size ->
            _splitWithPDFLib pdfDoc (js "pages") ranges
            = Normal (map (chunkFile pdfDoc size)
                          (seq 0 (chunkCount (getPageCount pdfDoc) size))))
    as Hsplit.
  { intros ranges Hranges. unfold _splitWithPDFLib.
    change (eqs (js "pages") (js "each")) with false.
    change (eqs (js "pages") (js "pages")) with true. cbv iota.
    rewrite Hranges, Hclosed.
    apply forEachM_map_Normal. intros k Hk. apply in_seq in Hk.
    apply (newPdf_chunkAt _ _ _ Hsize). lia. }
  split; [exact Hsplit|].
  intros pageRanges _. unfold App.splitPdf.
  change (eqs (js "pages") (js "range")) with false.
  change (eqs (js "pages") (js "pages")) with true. cbv iota.
  rewrite parseInt_toString by (lia || auto).
  assert ((size =? 0) || (size <? 1) = false) as ->.
  { apply orb_false_iff. split; [apply Z.eqb_neq | apply Z.ltb_ge]; lia. }
  unfold App.run, splitPdf.
  rewrite (Hsplit _ (pagesPerChunk_toString _ Hsize)). reflexivity.
Qed.

End ChunkClaims.

(* ===================================================================== *)
(** ** Table extraction *)
(* ===================================================================== *)

Section Table.

Implicit Types (s line cell : jsstring) (c : N).

Lemma runs_flag c s : exists run rest, runs (c :: s) = (isWhiteSpace c, run) :: rest.
Proof.
  simpl. destruct (runs s) as [|[b run] rest]; [eauto|].
  destruct (Bool.eqb b (isWhiteSpace c)) eqn:E; [|eauto].
  apply Bool.eqb_prop in E. subst. eauto.
Qed.

(** A code unit that is not white space goes into the cell being read. *)
Lemma cellsOf_solid c s cell :
  isWhiteSpace c = false ->
  cellsOf cell (runs (c :: s)) = cellsOf (cell ++ [c]) (runs s).
Proof.
  intros Hc. simpl. rewrite Hc.
  destruct (runs s) as [|[[|] run] rest]; simpl.
  - reflexivity.
  - reflexivity.
  - rewrite <- app_assoc. reflexivity.
Qed.

(** The run of white space a line starts with. *)
Lemma runs_space c s :
  isWhiteSpace c = true ->
  runs (c :: s)
  = (true, c :: take (spaceRun s) s) :: runs (drop (spaceRun s) s).
Proof.
  revert c. induction s as [|d s IH]; intros c Hc.
  - simpl. rewrite Hc. reflexivity.
  - destruct (isWhiteSpace d) eqn:Hd.
    + change (runs (c :: d :: s))
        with (match runs (d :: s) with
              | (b, run) :: rest =>
                  if Bool.eqb b (isWhiteSpace c) then (b, c :: run) :: rest
                  else (isWhiteSpace c, [c]) :: (b, run) :: rest
              | [] => [(isWhiteSpace c, [c])]
              end).
      rewrite (IH d Hd), Hc. cbn [spaceRun]. rewrite Hd. reflexivity.
    + change (runs (c :: d :: s))
        with (match runs (d :: s) with
              | (b, run) :: rest =>
                  if Bool.eqb b (isWhiteSpace c) then (b, c :: run) :: rest
                  else (isWhiteSpace c, [c]) :: (b, run) :: rest
              | [] => [(isWhiteSpace c, [c])]
              end).
      destruct (runs_flag d s) as (run & rest & Hruns).
      cbn [spaceRun]. rewrite Hd. cbn [take drop].
      rewrite Hruns, Hd, Hc. reflexivity.
Qed.

Lemma spaceRun_length s : (spaceRun s <= length s)%nat.
Proof.
  induction s as [|c s IH]; simpl; [lia|].
  destruct (isWhiteSpace c); simpl; lia.
Qed.

(** The scan of the regular expression cuts a line where the
    specification cuts it. *)
Lemma splitLoop_cellsOf (fuel : nat) s cell :
  (length s <= fuel)%nat -> splitLoop fuel cell s = cellsOf cell (runs s).
Proof.
  revert s cell. induction fuel as [|fuel IH]; intros s cell Hfuel.
  - destruct s; [reflexivity | simpl in Hfuel; lia].
  - destruct s as [|c s]; [reflexivity|].
    cbn [splitLoop]. unfold matchSeparator. cbn [spaceRun].
    simpl in Hfuel.
    destruct (isWhiteSpace c) eqn:Hc.
    + rewrite (runs_space _ _ Hc). cbn [cellsOf].
      pose proof (spaceRun_length s) as Hrun.
      destruct (spaceRun s) as [|k] eqn:Hk.
      * rewrite take_0, drop_0.
        cbn [Nat.leb]. unfold isGap. cbn [fst snd length Nat.leb orb andb].
        destruct (c =? TAB)%N eqn:Htab.
        -- apply N.eqb_eq in Htab. subst c.
           rewrite bool_decide_eq_true_2 by reflexivity.
           change (drop 1 (TAB :: s)) with s.
           rewrite IH by lia. reflexivity.
        -- apply N.eqb_neq in Htab.
           rewrite bool_decide_eq_false_2 by congruence.
           rewrite IH by lia. reflexivity.
      * cbn [Nat.leb]. unfold isGap. cbn [fst snd andb].
        change (drop (S (S k)) (c :: s)) with (drop (S k) s).
        rewrite IH by (rewrite length_drop; lia).
        assert ((2 <=? length (c :: take (S k) s))%nat = true) as ->.
        { apply Nat.leb_le. cbn [length]. rewrite length_take. lia. }
        reflexivity.
    + cbn [Nat.leb].
      assert ((c =? TAB)%N = false) as ->.
      { apply N.eqb_neq. intros ->. discriminate. }
      rewrite IH by lia. symmetry. apply cellsOf_solid, Hc.
Qed.

Lemma splitSeparators_splitOnGaps line : splitSeparators line = splitOnGaps line.
Proof. apply splitLoop_cellsOf. reflexivity. Qed.

End Table.

Section TableClaims.

Implicit Types (line cell : jsstring) (lines items : list jsstring)
  (allRows : list (list jsstring)).

Lemma rowsOf_app lines1 lines2 :
  rowsOf (lines1 ++ lines2) = rowsOf lines1 ++ rowsOf lines2.
Proof. unfold rowsOf. rewrite map_app, list.filter_app. reflexivity. Qed.

Lemma dropSpace_split s : exists w, s = w ++ dropSpace s /\ blank w.
Proof.
  induction s as [|c s (w & Hs & Hw)]; [exists []; split; reflexivity|].
  cbn [dropSpace]. destruct (isWhiteSpace c) eqn:E.
  - exists (c :: w). split; [cbn [app]; congruence|].
    unfold blank in *. cbn [forallb]. rewrite E, Hw. reflexivity.
  - exists []. split; reflexivity.
Qed.

Lemma dropSpace_head s c rest :
  dropSpace s = c :: rest -> isWhiteSpace c = false.
Proof.
  induction s as [|d s IH]; [discriminate|].
  cbn [dropSpace]. destruct (isWhiteSpace d) eqn:E; [exact IH|].
  intros [= <- _]. exact E.
Qed.

Lemma dropSpace_snoc s c :
  dropSpace (s ++ [c])
  = match dropSpace s with
    | [] => if isWhiteSpace c then [] else [c]
    | kept => kept ++ [c]
    end.
Proof.
  induction s as [|d s IH]; [reflexivity|].
  cbn [app dropSpace]. destruct (isWhiteSpace d); [exact IH | reflexivity].
Qed.

Lemma blank_rev w : blank w -> blank (rev w).
Proof.
  unfold blank. rewrite !forallb_forall. intros H c Hc.
  apply H, in_rev, Hc.
Qed.

(** [strip] takes white space away, at the two ends only, and leaves none
    there. *)
Lemma strip_around cell : around cell (strip cell).
Proof.
  unfold around, strip.
  destruct (dropSpace_split cell) as (before & Hcell & Hbefore).
  destruct (dropSpace_split (rev (dropSpace cell))) as (w & Hrev & Hw).
  exists before, (rev w). split; [|split; [exact Hbefore | apply blank_rev, Hw]].
  rewrite Hcell at 1. f_equal.
  apply (f_equal (@rev N)) in Hrev.
  rewrite rev_involutive, rev_app_distr in Hrev. exact Hrev.
Qed.

Lemma strip_solidEnds cell : solidEnds (strip cell).
Proof.
  unfold solidEnds, strip. split.
  - intros c rest Hstrip.
    destruct (dropSpace_split (rev (dropSpace cell))) as (w & Hrev & _).
    apply (f_equal (@rev N)) in Hrev.
    rewrite rev_involutive, rev_app_distr, Hstrip in Hrev.
    cbn [app] in Hrev. exact (dropSpace_head _ _ _ Hrev).
  - intros front c Hstrip. apply (f_equal (@rev N)) in Hstrip.
    rewrite rev_involutive, rev_app_distr in Hstrip. cbn [rev app] in Hstrip.
    exact (dropSpace_head _ _ _ Hstrip).
Qed.

(** The methods of [JS] trim as the specification does. *)
Lemma trimStart_dropSpace s : trimStart s = dropSpace s.
Proof.
  induction s as [|c s IH]; [reflexivity|].
  cbn [trimStart dropSpace]. rewrite IH. reflexivity.
Qed.

Lemma trimEnd_rev s : trimEnd s = rev (dropSpace (rev s)).
Proof.
  induction s as [|c s IH]; [reflexivity|].
  cbn [trimEnd rev]. rewrite dropSpace_snoc, IH.
  destruct (dropSpace (rev s)) as [|d kept].
  - cbn [rev]. destruct (isWhiteSpace c); reflexivity.
  - rewrite rev_app_distr. cbn [rev app].
    destruct (rev kept ++ [d]) eqn:E; [|reflexivity].
    destruct (rev kept); discriminate E.
Qed.

Lemma trim_strip s : trim s = strip s.
Proof.
  unfold trim, strip. rewrite trimEnd_rev, (trimStart_dropSpace s).
  reflexivity.
Qed.

Lemma row_lineCells line :
  filter nonEmpty (map trim (splitSeparators line)) = lineCells line.
Proof.
  unfold lineCells. rewrite splitSeparators_splitOnGaps.
  rewrite (map_ext trim strip trim_strip).
  apply list_filter_iff. intros [|c cell]; simpl; split; intros H;
    try done.
Qed.

Lemma addLine_rows allRows line :
  addLine allRows line = allRows ++ rowsOf [line].
Proof.
  unfold addLine, rowsOf. rewrite row_lineCells. cbn [map].
  destruct (1 <? length (lineCells line))%nat eqn:E.
  - apply Nat.ltb_lt in E. rewrite filter_cons_True by lia. reflexivity.
  - apply Nat.ltb_ge in E. rewrite filter_cons_False by lia.
    rewrite filter_nil, app_nil_r. reflexivity.
Qed.

Lemma fold_addLine lines allRows :
  fold_left addLine lines allRows = allRows ++ rowsOf lines.
Proof.
  revert allRows. induction lines as [|line lines IH]; intros allRows.
  - simpl. unfold rowsOf. cbn [map]. rewrite filter_nil, app_nil_r.
    reflexivity.
  - cbn [fold_left]. rewrite IH, addLine_rows, <- app_assoc.
    change (line :: lines) with ([line] ++ lines). rewrite rowsOf_app.
    reflexivity.
Qed.

(** Joining the text runs with line feeds and cutting at the line feeds
    gives the lines of each run in turn. *)
(** [split] at the line feeds gives the lines of the specification. *)
Lemma linesOf_split line s :
  linesOf line s
  = match split LF s with
    | piece :: pieces => (line ++ piece) :: pieces
    | [] => [line]
    end.
Proof.
  revert line. induction s as [|c s IH]; intros line.
  - cbn. rewrite app_nil_r. reflexivity.
  - cbn [linesOf split]. destruct (c =? LF)%N.
    + rewrite app_nil_r, IH.
      pose proof (split_nonempty LF s) as Hne.
      destruct (split LF s); [done | reflexivity].
    + rewrite IH. destruct (split LF s) as [|piece pieces].
      * reflexivity.
      * rewrite <- app_assoc. reflexivity.
Qed.

Lemma split_linesOf s : split LF s = linesOf [] s.
Proof.
  rewrite linesOf_split. pose proof (split_nonempty LF s) as Hne.
  destruct (split LF s); [done | reflexivity].
Qed.

Lemma split_join item items :
  split LF (join LF (item :: items)) = pageLines (item :: items).
Proof.
  unfold pageLines. revert item.
  induction items as [|item' items IH]; intros item.
  - cbn [join flat_map]. rewrite app_nil_r. apply split_linesOf.
  - change (join LF (item :: item' :: items))
      with (item ++ LF :: join LF (item' :: items)).
    rewrite split_app, IH, split_linesOf. reflexivity.
Qed.

Lemma addPageRows_rows allRows items :
  addPageRows allRows items = allRows ++ rowsOf (pageLines items).
Proof.
  unfold addPageRows. rewrite fold_addLine. destruct items as [|item items].
  - reflexivity.
  - rewrite split_join. reflexivity.
Qed.

Lemma fold_addPageRows (pdf : list (list jsstring)) allRows :
  fold_left addPageRows pdf allRows = allRows ++ tableRows pdf.
Proof.
  unfold tableRows. revert allRows.
  induction pdf as [|items pdf IH]; intros allRows.
  - simpl. unfold rowsOf. cbn [map]. rewrite filter_nil, app_nil_r.
    reflexivity.
  - cbn [fold_left flat_map]. rewrite IH, addPageRows_rows, rowsOf_app.
    rewrite <- app_assoc. reflexivity.
Qed.

(** Every row has two cells or more, and a cell of a row is not empty
    and neither begins nor ends with white space. *)
Lemma tableRows_cells (pdf : list (list jsstring)) :
  Forall (fun row =>
            (2 <= length row)%nat
            /\ Forall (fun cell => cell <> [] /\ solidEnds cell) row)
    (tableRows pdf).
Proof.
  unfold tableRows, rowsOf. apply Forall_forall. intros row Hrow.
  apply list_elem_of_In, list_elem_of_filter in Hrow.
  destruct Hrow as [Hlen Hrow]. split; [exact Hlen|].
  apply list_elem_of_In, in_map_iff in Hrow.
  destruct Hrow as (line & <- & _). unfold lineCells.
  apply Forall_forall. intros cell Hcell.
  apply list_elem_of_In, list_elem_of_filter in Hcell.
  destruct Hcell as [Hne Hcell]. split; [exact Hne|].
  apply list_elem_of_In, in_map_iff in Hcell.
  destruct Hcell as (piece & <- & _). apply strip_solidEnds.
Qed.

(** C8. The rows [extractTableFromPdf] returns are exactly the rows of
    the specification: every line cut at its runs of two or more white
    space code units and at its tabs, the cells trimmed, the empty cells
    dropped, the lines with two cells or more kept, in the order of the
    pages and of their lines.  It fails with "No tables detected." if and
    only if no row is left.  Trimming is that of the specification: it
    takes away white space only, at the two ends of a cell only, and
    leaves none there; so every cell of every row is a non-empty text
    that neither begins nor ends with white space. *)
Theorem extractTable_rows (pdf : list (list jsstring)) :
  extractTableFromPdf pdf
  = match tableRows pdf with
    | [] => Throw (js "Table extraction failed: No tables detected.")
    | row :: rows => Normal (row :: rows)
    end
  /\ (extractTableFromPdf pdf
        = Throw (js "Table extraction failed: No tables detected.")
      <-> tableRows pdf = [])
  /\ (forall cell, around cell (strip cell) /\ solidEnds (strip cell))
  /\ Forall (fun row =>
               (2 <= length row)%nat
               /\ Forall (fun cell => cell <> [] /\ solidEnds cell) row)
       (tableRows pdf).
Proof.
  assert (extractTableFromPdf pdf
          = match tableRows pdf with
            | [] => Throw (js "Table extraction failed: No tables detected.")
            | row :: rows => Normal (row :: rows)
            end) as H.
  { unfold extractTableFromPdf. rewrite fold_addPageRows. cbn [app].
    destruct (tableRows pdf); reflexivity. }
  split; [exact H|]. split.
  - rewrite H. destruct (tableRows pdf); split; intros; done.
  - split; [|apply tableRows_cells].
    intros cell. split; [apply strip_around | apply strip_solidEnds].
Qed.

End TableClaims.

(* ===================================================================== *)
(** ** Concrete cases *)
(* ===================================================================== *)

Section ConcreteCases.

(** The two parsers of numbers at work. *)
Example parseInt_cases :
  parseInt (js "  12abc") None = Int 12
  /\ parseInt (js "0x1A") None = Int 26
  /\ parseInt (js "0x1A") (Some 10) = Int 0
  /\ parseInt (js "-7") None = Int (-7)
  /\ parseInt (js "") None = NaN
  /\ toString 1203 = js "1203".
Proof. repeat split; reflexivity. Qed.

Example parseRanges_cases :
  _parseRanges (js " 1 - 3 , 5 ,3-1, x, 7-9-2, -3, 4-") 10
  = Normal [ {| start := 1; end_ := 3 |}; {| start := 5; end_ := 5 |};
             {| start := 7; end_ := 9 |} ].
Proof. vm_compute. reflexivity. Qed.

Example chunkGroups_case :
  chunkGroups 7 3
  = [ ([0; 1; 2], js "pages_1-3.pdf"); ([3; 4; 5], js "pages_4-6.pdf");
      ([6], js "pages_7-7.pdf") ].
Proof. vm_compute. reflexivity. Qed.

Example splitSeparators_case :
  splitSeparators [97; 32; 32; 98; 32; 99; 9; 100; 32; 9; 101; 32; 32; 32]%N
  = [js "a"; js "b c"; js "d"; js "e"; js ""].
Proof. vm_compute. reflexivity. Qed.

Example extractTable_cases :
  extractTableFromPdf [[js "Name   Age"; js "single"]; [js "x  y   z"]]
  = Normal [[js "Name"; js "Age"]; [js "x"; js "y"; js "z"]]
  /\ extractTableFromPdf [[js "single"]]
     = Throw (js "Table extraction failed: No tables detected.").
Proof. split; vm_compute; reflexivity. Qed.

(** C1, the claim as stated fails.  A page whose rotation is 90, rotated
    by 90, keeps the rotation 90, where [(90 + 90) mod 360] is 180; and
    rotating an upright page by 90 twice gives 90, where rotating it by
    180 once gives 180. *)
Lemma rotatePdf_not_additive :
  (exists out,
     rotatePdf [samplePage 90 1] (js "90") = Normal out
     /\ map rotation out = [90]
     /\ map (fun page => (rotation page + 90) mod 360) [samplePage 90 1]
        = [180])
  /\ (exists twice once,
        bind (rotatePdf [samplePage 0 1] (js "90"))
             (fun out => rotatePdf out (js "90")) = Normal twice
        /\ rotatePdf [samplePage 0 1] (js "180") = Normal once
        /\ map rotation twice = [90]
        /\ map rotation once = [180]).
Proof.
  split.
  - exists [samplePage 90 1]. repeat split; vm_compute; reflexivity.
  - exists [samplePage 90 1], [samplePage 180 1].
    repeat split; vm_compute; reflexivity.
Qed.

(** C1 at the angle 270 on two pages with rotations 90 and 0. *)
Lemma rotatePdf_sets_angle_witness :
  parseInt (js "270") None = Int 270
  /\ safeInteger 270
  /\ Z.rem 270 90 = 0
  /\ [samplePage 90 1; samplePage 0 2] <> []
  /\ rotatePdf [samplePage 90 1; samplePage 0 2] (js "270")
     = Normal [samplePage 270 1; samplePage 270 2].
Proof.
  assert (safeInteger 270) as Hsafe by reflexivity.
  assert ([samplePage 90 1; samplePage 0 2] <> []) as Hpages by discriminate.
  split; [reflexivity|]. split; [exact Hsafe|]. split; [reflexivity|].
  split; [exact Hpages|].
  exact (proj1 (rotatePdf_sets_angle [samplePage 90 1; samplePage 0 2]
                  (js "270") 270 eq_refl Hsafe eq_refl Hpages)).
Defined.

(** C2, the claim as stated fails.  In ["0-2"] the endpoint 0 lies
    outside [1, 10], and parsing returns normally, with no range; so it
    does in ["4-12"], whose endpoint 12 lies outside. *)
Lemma parseRanges_zero_start_no_failure :
  endpoints (js "0-2") = (Int 0, Int 2)
  /\ _parseRanges (js "0-2") 10 = Normal []
  /\ endpoints (js "4-12") = (Int 4, Int 12)
  /\ _parseRanges (js "4-12") 10 = Normal [].
Proof. repeat split; vm_compute; reflexivity. Qed.

(** C2 at ["0-2"] with 10 pages: the start 0 lies outside, and the result
    is the empty list. *)
Lemma parseRanges_outside_omitted_witness :
  without COMMA (js "0-2")
  /\ endpoints (js "0-2") = (Int 0, Int 2)
  /\ (0 < 1 \/ 10 < 0 \/ 2 < 1 \/ 10 < 2)
  /\ _parseRanges (js "0-2") 10 = Normal []
  /\ _parseRanges (js "1-3" ++ COMMA :: js "0-2" ++ COMMA :: js "5") 10
     = Normal [ {| start := 1; end_ := 3 |}; {| start := 5; end_ := 5 |} ].
Proof.
  split; [reflexivity|]. split; [reflexivity|]. split; [lia|].
  destruct (parseRanges_outside_omitted (js "0-2") 10 0 2) as [Halone Hamong];
    [reflexivity | reflexivity | lia |].
  split; [exact Halone|].
  destruct (Hamong (js "1-3") (js "5")) as (rb & ra & Hb & Ha & Hboth).
  rewrite Hboth.
  assert (Normal rb = Normal [ {| start := 1; end_ := 3 |} ]) as Hrb
    by (rewrite <- Hb; vm_compute; reflexivity).
  assert (Normal ra = Normal [ {| start := 5; end_ := 5 |} ]) as Hra
    by (rewrite <- Ha; vm_compute; reflexivity).
  injection Hrb as ->. injection Hra as ->. reflexivity.
Defined.

(** C3 at seven pages in chunks of three: indices [0 1 2], [3 4 5], [6]. *)
Lemma split_fixed_chunks_witness :
  1 <= getPageCount (sampleDoc 7)
  /\ 1 <= 3
  /\ safeInteger 3
  /\ pagesPerChunk (Some (toString 3)) = 3
  /\ chunkGroups (getPageCount (sampleDoc 7)) 3
     = map (chunkAt (getPageCount (sampleDoc 7)) 3)
           (seq 0 (chunkCount (getPageCount (sampleDoc 7)) 3))
  /\ map fst (chunkGroups (getPageCount (sampleDoc 7)) 3)
     = [[0; 1; 2]; [3; 4; 5]; [6]].
Proof.
  assert (1 <= getPageCount (sampleDoc 7)) as Hn by (vm_compute; discriminate).
  assert (1 <= 3) as Hsize by lia.
  assert (safeInteger 3) as Hsafe by reflexivity.
  split; [exact Hn|]. split; [exact Hsize|]. split; [exact Hsafe|].
  split; [exact (proj1 (split_fixed_chunks (sampleDoc 7) 3 Hn Hsize) Hsafe)|].
  split; [|vm_compute; reflexivity].
  exact (proj1 (proj2 (split_fixed_chunks (sampleDoc 7) 3 Hn Hsize))).
Defined.

(** C5, the claim as stated fails.  A list of one source document that
    has no page is not empty, and merging it gives a document of one
    page, the blank page [save] adds, where the sources have no page at
    all; so it is for two such documents. *)
Lemma mergePdfs_blank_page :
  [@nil Page] <> []
  /\ concat [@nil Page] = []
  /\ mergePdfs [[]] = Normal [blankPage]
  /\ mergePdfs [[]] <> Normal (concat [@nil Page])
  /\ mergePdfs [[]; []] = Normal [blankPage].
Proof.
  split; [discriminate|]. split; [reflexivity|].
  split; [vm_compute; reflexivity|]. split; [|vm_compute; reflexivity].
  vm_compute. discriminate.
Qed.

(** C5 at a two-page and a one-page document. *)
Lemma mergePdfs_concat_witness :
  concat [[samplePage 0 1; samplePage 0 2]; [samplePage 90 3]] <> []
  /\ mergePdfs [[samplePage 0 1; samplePage 0 2]; [samplePage 90 3]]
     = Normal [samplePage 0 1; samplePage 0 2; samplePage 90 3].
Proof.
  assert (concat [[samplePage 0 1; samplePage 0 2]; [samplePage 90 3]] <> [])
    as Hpages by discriminate.
  split; [exact Hpages|].
  exact (proj1 mergePdfs_concat
           [[samplePage 0 1; samplePage 0 2]; [samplePage 90 3]] Hpages).
Defined.

(** C4 at [" 1 - 3 "]: the same ranges as ["1-3"]. *)
Lemma parseRanges_token_order_witness :
  blank (js " ") /\ without COMMA (js "1") /\ without HYPHEN (js "3")
  /\ _parseRanges ((js " " ++ js "1" ++ js " ") ++ HYPHEN :: (js " " ++ js "3" ++ js " ")) 10
     = _parseRanges (js "1" ++ HYPHEN :: js "3") 10.
Proof.
  split; [reflexivity|]. split; [reflexivity|]. split; [reflexivity|].
  apply parseRanges_token_order; reflexivity.
Defined.

(** C6, the claim as stated fails.  ["3-1"] parses to no range, and the
    split of a ten-page document by it returns normally, with no file;
    the application shows an empty list of results, not an error. *)
Lemma empty_range_split_returns_normally :
  _parseRanges (js "3-1") (getPageCount (sampleDoc 10)) = Normal []
  /\ _splitWithPDFLib (sampleDoc 10) (js "range") (Some (js "3-1")) = Normal []
  /\ splitPdf (sampleDoc 10) (js "range") (Some (js "3-1")) = Normal []
  /\ App.splitPdf (Some (sampleDoc 10)) (js "range") (js "3-1") None
     = App.Results [].
Proof. repeat split; vm_compute; reflexivity. Qed.

(** C6 at ["0-2"] on a ten-page document. *)
Lemma split_empty_range_set_witness :
  _parseRanges (js "0-2") (getPageCount (sampleDoc 10)) = Normal []
  /\ _splitWithPDFLib (sampleDoc 10) (js "range") (Some (js "0-2")) = Normal []
  /\ App.splitPdf (Some (sampleDoc 10)) (js "range") (js "0-2") None
     = App.Results [].
Proof.
  split; [reflexivity|].
  destruct (split_empty_range_set (sampleDoc 10) (js "0-2") eq_refl)
    as (Hsplit & _ & Happ).
  split; [exact Hsplit|]. apply Happ. discriminate.
Defined.




(** A box the codec refuses: margins of opposite signs at the two ends of
    the range of the Numbers give a height that is [NaN], and [cropPdf]
    fails. *)
Example cropPdf_nan_refused :
  nanBox (croppedBox {| top := 1e308; right := 0; bottom := -1e308;
                        left := 0; allPages := true |} (samplePage 0 1))
  /\ exists msg,
       cropPdf [samplePage 0 1]
         {| top := 1e308; right := 0; bottom := -1e308; left := 0;
            allPages := true |}
       = Throw (js "Cropping failed: " ++ msg).
Proof.
  split; [right; right; right; vm_compute; reflexivity|].
  eexists. vm_compute. reflexivity.
Qed.

End ConcreteCases.

(* ===================================================================== *)
(** ** Further properties: the other ways to split *)
(* ===================================================================== *)

Section SplitMore.

Implicit Types (pdfDoc : Document) (pages : list Page).

Lemma forEachM_app {A B} (f : A -> completion B) (l1 l2 : list A) :
  forEachM f (l1 ++ l2)
  = bind (forEachM f l1) (fun ys1 =>
    bind (forEachM f l2) (fun ys2 => Normal (ys1 ++ ys2))).
Proof.
  induction l1 as [|a l1 IH].
  - cbn [app forEachM bind]. destruct (forEachM f l2); reflexivity.
  - cbn [app forEachM]. destruct (f a) as [b|msg]; [|reflexivity].
    cbn [bind]. rewrite IH.
    destruct (forEachM f l1) as [ys1|msg]; [|reflexivity]. cbn [bind].
    destruct (forEachM f l2) as [ys2|msg]; reflexivity.
Qed.

Lemma newPdf_window pdfDoc (i len : Z) (fileName : jsstring) :
  0 <= i -> 0 <= len -> i + len <= getPageCount pdfDoc ->
  newPdf pdfDoc (seqZ i len, fileName)
  = Normal {| blob := take (Z.to_nat len) (drop (Z.to_nat i) pdfDoc);
              name := fileName |}.
Proof.
  intros Hi Hlen Hend. unfold newPdf.
  rewrite copyPages_windowZ by assumption.
  rewrite bind_Normal, fold_addPage. reflexivity.
Qed.

(** What the files of a split hold is what copying all their indices, one
    group after the other, gives. *)
Lemma newPdf_concat pdfDoc (groups : list (list Z * jsstring))
    (outs : list SplitPdf) :
  forEachM (newPdf pdfDoc) groups = Normal outs ->
  copyPages pdfDoc (concat (map fst groups)) = Normal (concat (map blob outs)).
Proof.
  revert outs. induction groups as [|[indices fileName] groups IH];
    intros outs H.
  - cbn in H. injection H as <-. reflexivity.
  - cbn [forEachM] in H. unfold newPdf in H at 1.
    destruct (copyPages pdfDoc indices) as [pages|msg] eqn:Hcopy;
      [|discriminate].
    cbn [bind] in H.
    destruct (forEachM (newPdf pdfDoc) groups) as [outs'|msg] eqn:Hrest;
      [|discriminate].
    cbn [bind] in H. injection H as <-.
    cbn [map concat fst blob]. unfold copyPages in *.
    rewrite forEachM_app, Hcopy. cbn [bind].
    rewrite (IH outs' eq_refl). cbn [bind].
    rewrite fold_addPage. reflexivity.
Qed.

Lemma each_loop pdfDoc (pre pages : list Page) :
  pdfDoc = pre ++ pages ->
  forEachM (newPdf pdfDoc)
    (map (fun i => ([i], js "page_" ++ toString (i + 1) ++ js ".pdf"))
         (seqZ (Z.of_nat (length pre)) (Z.of_nat (length pages))))
  = Normal (imap (fun i page => eachFile (length pre + i) page) pages).
Proof.
  revert pre. induction pages as [|page pages IH]; intros pre Hdoc.
  - reflexivity.
  - rewrite seqZ_cons by (cbn [length]; lia).
    replace (Z.pred (Z.of_nat (length (page :: pages))))
      with (Z.of_nat (length pages)) by (cbn [length]; lia).
    replace (Z.succ (Z.of_nat (length pre)))
      with (Z.of_nat (length (pre ++ [page])))
      by (rewrite length_app; cbn [length]; lia).
    cbn [map forEachM]. rewrite (IH (pre ++ [page]))
      by (rewrite <- app_assoc; exact Hdoc).
    assert (pdfDoc !! length pre = Some page) as Hpage.
    { rewrite Hdoc. rewrite lookup_app_r by lia.
      rewrite Nat.sub_diag. reflexivity. }
    unfold newPdf at 1, copyPages. cbn [forEachM].
    rewrite (copyPage_lookup _ _ _ Hpage). cbn [bind fold_left].
    rewrite imap_cons. unfold eachFile at 2.
    rewrite Nat.add_0_r. unfold addPage, create. cbn [app].
    do 2 f_equal. apply imap_ext. intros i p _. cbn.
    rewrite length_app. cbn [length]. f_equal. lia.
Qed.

(** The files of a split into chunks, for any chunk-size argument. *)
Lemma split_pages_any pdfDoc (ranges : option jsstring) :
  _splitWithPDFLib pdfDoc (js "pages") ranges
  = Normal (map (chunkFile pdfDoc (pagesPerChunk ranges))
                (seq 0 (chunkCount (getPageCount pdfDoc)
                                   (pagesPerChunk ranges)))).
Proof.
  assert (0 <= getPageCount pdfDoc) as Hn by (unfold getPageCount; lia).
  assert (1 <= pagesPerChunk ranges) as Hsize by (unfold pagesPerChunk; lia).
  unfold _splitWithPDFLib.
  change (eqs (js "pages") (js "each")) with false.
  change (eqs (js "pages") (js "pages")) with true. cbv iota.
  rewrite (chunkGroups_closed _ _ Hn Hsize).
  apply forEachM_map_Normal. intros k Hk. apply in_seq in Hk.
  apply (newPdf_chunkAt _ _ _ Hsize). lia.
Qed.

Lemma newPdf_range pdfDoc (range : Range) :
  inBounds (getPageCount pdfDoc) range ->
  newPdf pdfDoc
    (seqZ (start range - 1) (end_ range - (start range - 1)),
     js "pages_" ++ toString (start range) ++ js "-"
       ++ toString (end_ range) ++ js ".pdf")
  = Normal (rangeFile pdfDoc range).
Proof.
  intros (H1 & H2 & H3). rewrite newPdf_window by lia.
  unfold rangeFile. do 3 f_equal. lia.
Qed.

Lemma split_range_any pdfDoc (c : N) (ranges : jsstring) :
  _splitWithPDFLib pdfDoc (js "range") (Some (c :: ranges))
  = Normal (map (rangeFile pdfDoc)
                (omap (rangeOf (getPageCount pdfDoc))
                      (split COMMA (c :: ranges)))).
Proof.
  unfold _splitWithPDFLib.
  change (eqs (js "range") (js "each")) with false.
  change (eqs (js "range") (js "pages")) with false.
  change (eqs (js "range") (js "range")) with true.
  cbn [truthy andb text]. rewrite parseRanges_omap, bind_Normal.
  unfold rangeGroups. apply forEachM_map_Normal.
  intros range Hrange. apply list_elem_of_In, list_elem_of_omap in Hrange.
  destruct Hrange as (part & _ & Hpart).
  apply newPdf_range. exact (rangeOf_inBounds _ _ _ Hpart).
Qed.

Lemma split_each_any pdfDoc (ranges : option jsstring) :
  _splitWithPDFLib pdfDoc (js "each") ranges = Normal (imap eachFile pdfDoc).
Proof.
  unfold _splitWithPDFLib.
  change (eqs (js "each") (js "each")) with true. cbv iota.
  unfold eachGroups, getPageCount.
  exact (each_loop pdfDoc [] pdfDoc eq_refl).
Qed.

End SplitMore.

Section SplitMoreClaims.

Implicit Types (pdfDoc file : Document).

Lemma rangeFile_length pdfDoc (range : Range) :
  inBounds (getPageCount pdfDoc) range ->
  Z.of_nat (length (blob (rangeFile pdfDoc range)))
  = end_ range - start range + 1.
Proof.
  unfold inBounds, getPageCount, rangeFile. intros (H1 & H2 & H3).
  cbn [blob]. rewrite length_take, length_drop. lia.
Qed.

Lemma chunkFile_length pdfDoc (size : Z) (k : nat) :
  1 <= size ->
  (k < chunkCount (getPageCount pdfDoc) size)%nat ->
  Z.of_nat (length (blob (chunkFile pdfDoc size k)))
  = chunkLength (getPageCount pdfDoc) size k.
Proof.
  intros Hsize Hk.
  assert (0 <= getPageCount pdfDoc) as Hn by (unfold getPageCount; lia).
  destruct (chunkLength_bounds _ _ Hn Hsize k Hk) as (Hlen & Hend).
  unfold chunkFile. cbn [blob]. rewrite length_take, length_drop.
  unfold getPageCount in *. lia.
Qed.

Lemma splitPdf_Normal file (method : jsstring) (ranges : option jsstring)
    (outs : list SplitPdf) :
  _splitWithPDFLib file method ranges = Normal outs ->
  splitPdf file method ranges = Normal outs.
Proof. unfold splitPdf. intros ->. reflexivity. Qed.

(** X1. Splitting page by page gives one file per page, in page order:
    the file of the page with index [i] holds that page alone and is named
    [page_{i+1}.pdf]; the chunk-size argument plays no part. *)
Theorem split_each_page pdfDoc (ranges : option jsstring) :
  splitPdf pdfDoc (js "each") ranges = Normal (imap eachFile pdfDoc)
  /\ length (imap eachFile pdfDoc) = length pdfDoc.
Proof.
  split; [|apply length_imap].
  apply splitPdf_Normal, split_each_any.
Qed.

(** X2. Splitting by a non-empty range expression never fails: it gives
    one file per range the expression parses to, in that order, each
    holding the pages numbered [start .. end] of the document, hence
    [end - start + 1] pages, under the name
    [pages_{start}-{end}.pdf]; ranges may overlap, and a page then goes
    into several files. *)
Theorem split_by_ranges pdfDoc (c : N) (ranges : jsstring) :
  exists rangeList,
    _parseRanges (c :: ranges) (getPageCount pdfDoc) = Normal rangeList
    /\ splitPdf pdfDoc (js "range") (Some (c :: ranges))
       = Normal (map (rangeFile pdfDoc) rangeList)
    /\ Forall (fun range =>
                 Z.of_nat (length (blob (rangeFile pdfDoc range)))
                 = end_ range - start range + 1)
              rangeList.
Proof.
  exists (omap (rangeOf (getPageCount pdfDoc)) (split COMMA (c :: ranges))).
  split; [apply parseRanges_omap|]. split.
  - apply splitPdf_Normal, split_range_any.
  - apply Forall_forall. intros range Hrange.
    apply list_elem_of_In, list_elem_of_omap in Hrange.
    destruct Hrange as (part & _ & Hpart).
    apply rangeFile_length. exact (rangeOf_inBounds _ _ _ Hpart).
Qed.

Lemma splitPdf_files file (method : jsstring) (ranges : option jsstring) :
  exists outs,
    splitPdf file method ranges = Normal outs
    /\ Forall (fun out => blob out <> []) outs.
Proof.
  destruct (decide (method = js "each")) as [-> | Heach].
  { exists (imap eachFile file). split.
    - apply splitPdf_Normal, split_each_any.
    - apply Forall_lookup. intros i out Hout.
      rewrite list_lookup_imap in Hout.
      destruct (file !! i); [|discriminate]. injection Hout as <-.
      discriminate. }
  destruct (decide (method = js "pages")) as [-> | Hpages].
  { eexists. split; [apply splitPdf_Normal, split_pages_any|].
    apply Forall_forall. intros out Hout. apply in_map_iff in Hout.
    destruct Hout as (k & <- & Hk). apply in_seq in Hk.
    assert (1 <= pagesPerChunk ranges) as Hsize
      by (unfold pagesPerChunk; lia).
    assert (0 <= getPageCount file) as Hn by (unfold getPageCount; lia).
    pose proof (chunkFile_length file _ k Hsize ltac:(lia)) as Hlen.
    destruct (chunkLength_bounds _ _ Hn Hsize k ltac:(lia)) as (Hpos & _).
    intros Hnil. rewrite Hnil in Hlen. cbn [length] in Hlen. lia. }
  destruct (decide (method = js "range")) as [-> | Hrange].
  { destruct ranges as [[|c ranges]|].
    - exists []. split; [reflexivity | constructor].
    - eexists. split; [apply splitPdf_Normal, split_range_any|].
      apply Forall_forall. intros out Hout. apply in_map_iff in Hout.
      destruct Hout as (range & <- & Hrange).
      apply list_elem_of_In, list_elem_of_omap in Hrange.
      destruct Hrange as (part & _ & Hpart).
      pose proof (rangeOf_inBounds _ _ _ Hpart) as Hb.
      pose proof (rangeFile_length file range Hb) as Hlen.
      destruct Hb as (H1 & H2 & H3).
      intros Hnil. rewrite Hnil in Hlen. cbn [length] in Hlen. lia.
    - exists []. split; [reflexivity | constructor]. }
  exists []. split; [|constructor].
  unfold splitPdf, _splitWithPDFLib, eqs.
  rewrite !bool_decide_eq_false_2 by assumption. reflexivity.
Qed.

(** X3. On a decoded document [splitPdf] never fails and never makes an
    empty file, whatever the method and the second argument; a method
    other than ['each'], ['pages'] and ['range'], and the method
    ['range'] without an expression ([null] or the empty text), give no
    file at all. *)
Theorem splitPdf_never_fails file (method : jsstring)
    (ranges : option jsstring) :
  (exists outs,
     splitPdf file method ranges = Normal outs
     /\ Forall (fun out => blob out <> []) outs)
  /\ (method <> js "each" -> method <> js "pages" -> method <> js "range" ->
      splitPdf file method ranges = Normal [])
  /\ (ranges = None \/ ranges = Some [] ->
      splitPdf file (js "range") ranges = Normal []).
Proof.
  split; [apply splitPdf_files|]. split.
  - intros Heach Hpages Hrange. unfold splitPdf, _splitWithPDFLib, eqs.
    rewrite !bool_decide_eq_false_2 by assumption. reflexivity.
  - intros [-> | ->]; reflexivity.
Qed.

(** X3 at a method the service does not know. *)
Lemma splitPdf_never_fails_witness :
  js "odd" <> js "each" /\ js "odd" <> js "pages" /\ js "odd" <> js "range"
  /\ splitPdf (sampleDoc 3) (js "odd") None = Normal [].
Proof.
  assert (js "odd" <> js "each") as H1 by discriminate.
  assert (js "odd" <> js "pages") as H2 by discriminate.
  assert (js "odd" <> js "range") as H3 by discriminate.
  split; [exact H1|]. split; [exact H2|]. split; [exact H3|].
  exact (proj1 (proj2 (splitPdf_never_fails (sampleDoc 3) (js "odd") None))
           H1 H2 H3).
Defined.

(** X4. Splitting loses and repeats nothing: for a document that has a
    page, merging the files of a split into chunks, for any chunk-size
    argument, or of a split page by page, in the order they come, gives
    the document back. *)
Theorem split_then_merge file (ranges : option jsstring) :
  file <> [] ->
  (exists outs,
     splitPdf file (js "pages") ranges = Normal outs
     /\ mergePdfs (map blob outs) = Normal file)
  /\ (exists outs,
        splitPdf file (js "each") ranges = Normal outs
        /\ mergePdfs (map blob outs) = Normal file).
Proof.
  intros Hfile.
  assert (forall groups outs,
            forEachM (newPdf file) groups = Normal outs ->
            concat (map fst groups) = getPageIndices file ->
            mergePdfs (map blob outs) = Normal file) as Hmerge.
  { intros groups outs Hsplit Hall.
    pose proof (newPdf_concat _ _ _ Hsplit) as Hcopy.
    rewrite Hall, copyPages_all in Hcopy. injection Hcopy as Hcopy.
    rewrite mergePdfs_save, <- Hcopy, (save_pages _ Hfile). reflexivity. }
  assert (1 <= pagesPerChunk ranges) as Hsize by (unfold pagesPerChunk; lia).
  split.
  - eexists. split; [apply splitPdf_Normal, split_pages_any|].
    pose proof (split_pages_any file ranges) as Hsplit.
    unfold _splitWithPDFLib in Hsplit.
    change (eqs (js "pages") (js "each")) with false in Hsplit.
    change (eqs (js "pages") (js "pages")) with true in Hsplit.
    cbv iota in Hsplit.
    apply (Hmerge _ _ Hsplit). unfold chunkGroups, getPageIndices.
    rewrite (chunkLoop_concat _ _ Hsize) by lia.
    rewrite Z.sub_0_r. reflexivity.
  - eexists. split; [apply splitPdf_Normal, split_each_any|].
    pose proof (split_each_any file ranges) as Hsplit.
    unfold _splitWithPDFLib in Hsplit.
    change (eqs (js "each") (js "each")) with true in Hsplit.
    cbv iota in Hsplit.
    apply (Hmerge _ _ Hsplit). unfold eachGroups, getPageIndices.
    rewrite map_map. cbn [fst].
    induction (seqZ 0 (getPageCount file)) as [|i l IH]; [reflexivity|].
    cbn [map concat app]. rewrite IH. reflexivity.
Qed.

(** X4 on a document of seven pages, in chunks of three. *)
Lemma split_then_merge_witness :
  sampleDoc 7 <> []
  /\ exists outs,
       splitPdf (sampleDoc 7) (js "pages") (Some (js "3")) = Normal outs
       /\ mergePdfs (map blob outs) = Normal (sampleDoc 7).
Proof.
  assert (sampleDoc 7 <> []) as Hfile by discriminate.
  split; [exact Hfile|].
  exact (proj1 (split_then_merge (sampleDoc 7) (Some (js "3")) Hfile)).
Defined.



End SplitMoreClaims.

(* ===================================================================== *)
(** ** Further properties: writing ranges and reading them back *)
(* ===================================================================== *)

Section ShowRanges.

Implicit Types (s t : jsstring) (m : Z).

Lemma trim_solid s : Forall (fun c => isWhiteSpace c = false) s -> trim s = s.
Proof.
  intros H. unfold trim.
  assert (trimStart s = s) as ->
    by (destruct H as [|c s Hc _]; [reflexivity | apply trimStart_solid, Hc]).
  induction H as [|c s Hc _ IH]; [reflexivity|].
  rewrite (trimEnd_solid _ _ Hc), IH. reflexivity.
Qed.

Lemma decimal_solid s : Forall isDecimal s -> Forall (fun c => isWhiteSpace c = false) s.
Proof. apply Forall_impl. intros c. apply isDecimal_solid. Qed.

Lemma decimal_without s (c : N) :
  ~ isDecimal c -> Forall isDecimal s -> without c s.
Proof.
  intros Hc. induction 1 as [|d s Hd _ IH]; [reflexivity|].
  apply without_cons. split; [|exact IH]. intros ->. exact (Hc Hd).
Qed.

Lemma toString_without (z : Z) (c : N) :
  0 <= z -> ~ isDecimal c -> without c (toString z).
Proof.
  intros Hz Hc. destruct (toString_decimal z Hz) as (_ & Hdec & _).
  exact (decimal_without _ _ Hc Hdec).
Qed.

Lemma parseInt_trim_toString (z : Z) :
  0 <= z -> parseInt (trim (toString z)) None = Int z.
Proof.
  intros Hz. destruct (toString_decimal z Hz) as (_ & Hdec & _).
  rewrite (trim_solid _ (decimal_solid _ Hdec)).
  apply parseInt_toString; auto.
Qed.

Lemma not_decimal_COMMA : ~ isDecimal COMMA.
Proof. unfold isDecimal, COMMA. lia. Qed.

Lemma not_decimal_HYPHEN : ~ isDecimal HYPHEN.
Proof. unfold isDecimal, HYPHEN. lia. Qed.

Lemma showRange_without_COMMA (range : Range) :
  0 <= start range -> 0 <= end_ range -> without COMMA (showRange range).
Proof.
  intros Hs He. unfold showRange. apply without_app. split.
  - apply toString_without; [exact Hs | exact not_decimal_COMMA].
  - apply without_cons. split; [discriminate|].
    apply toString_without; [exact He | exact not_decimal_COMMA].
Qed.

Lemma rangeOf_showRange m (range : Range) :
  inBounds m range -> rangeOf m (showRange range) = Some range.
Proof.
  intros (H1 & H2 & H3). unfold rangeOf, showRange.
  rewrite endpoints_pair
    by (apply toString_without; [lia | exact not_decimal_HYPHEN]).
  rewrite !parseInt_trim_toString by lia.
  destruct ((1 <=? start range) && (end_ range <=? m)
            && (start range <=? end_ range)) eqn:E; [|lia].
  destruct range. reflexivity.
Qed.

(** Cutting at the separator what was joined with it gives the pieces
    back, when there is a piece and no piece has the separator. *)
Lemma split_join_pieces (sep : N) (piece : jsstring) (pieces : list jsstring) :
  Forall (without sep) (piece :: pieces) ->
  split sep (join sep (piece :: pieces)) = piece :: pieces.
Proof.
  revert piece. induction pieces as [|piece' pieces IH]; intros piece H.
  - inversion H as [|? ? Hpiece _]; subst. apply split_without, Hpiece.
  - inversion H as [|? ? Hpiece Hrest]; subst.
    change (join sep (piece :: piece' :: pieces))
      with (piece ++ sep :: join sep (piece' :: pieces)).
    rewrite split_app, (split_without _ _ Hpiece), (IH _ Hrest).
    reflexivity.
Qed.

(** X6. Any list of ranges within [1, maxPages] can be written as an
    expression, [start-end] for each joined by commas, and
    [_parseRanges] reads that expression back as exactly that list, with
    its order and its repetitions. *)
Theorem parseRanges_showRanges (ranges : list Range) (maxPages : Z) :
  Forall (inBounds maxPages) ranges ->
  _parseRanges (showRanges ranges) maxPages = Normal ranges.
Proof.
  intros H. rewrite parseRanges_omap. f_equal. unfold showRanges.
  destruct ranges as [|range ranges]; [reflexivity|].
  cbn [map]. rewrite split_join_pieces.
  - change (showRange range :: map showRange ranges)
      with (map showRange (range :: ranges)).
    induction H as [|r rs Hr _ IH]; [reflexivity|].
    cbn [map]. change (omap ?f (?x :: ?l))
      with (match f x with Some y => y :: omap f l | None => omap f l end).
    rewrite (rangeOf_showRange _ _ Hr), IH. reflexivity.
  - change (showRange range :: map showRange ranges)
      with (map showRange (range :: ranges)).
    apply Forall_map. eapply Forall_impl; [|exact H].
    intros r (H1 & H2 & H3). apply showRange_without_COMMA; lia.
Qed.

(** X6 at three ranges out of order, one of them twice. *)
Lemma parseRanges_showRanges_witness :
  Forall (inBounds 10)
    [ {| start := 7; end_ := 9 |}; {| start := 1; end_ := 3 |};
      {| start := 7; end_ := 9 |} ]
  /\ showRanges
       [ {| start := 7; end_ := 9 |}; {| start := 1; end_ := 3 |};
         {| start := 7; end_ := 9 |} ] = js "7-9,1-3,7-9"
  /\ _parseRanges (js "7-9,1-3,7-9") 10
     = Normal [ {| start := 7; end_ := 9 |}; {| start := 1; end_ := 3 |};
                {| start := 7; end_ := 9 |} ].
Proof.
  assert (Forall (inBounds 10)
            [ {| start := 7; end_ := 9 |}; {| start := 1; end_ := 3 |};
              {| start := 7; end_ := 9 |} ]) as H
    by (repeat constructor; cbn; lia).
  split; [exact H|]. split; [reflexivity|].
  exact (parseRanges_showRanges _ 10 H).
Defined.

End ShowRanges.

(* ===================================================================== *)
(** ** Further properties: merging, rotating and cropping together *)
(* ===================================================================== *)

Section MergeRotateCrop.

Implicit Types (file : Document) (files : list Document) (page : Page).

(** X7. Merging can be done in stages: when some files hold a page
    between them and so do the others, merging the first, merging the
    others, and merging the two results gives the document that merging
    all the files at once gives; and the merged document has as many
    pages as the files have together. *)
Theorem mergePdfs_in_stages files1 files2 :
  concat files1 <> [] ->
  concat files2 <> [] ->
  bind (mergePdfs files1) (fun merged1 =>
  bind (mergePdfs files2) (fun merged2 =>
  mergePdfs [merged1; merged2]))
  = mergePdfs (files1 ++ files2)
  /\ exists merged,
       mergePdfs (files1 ++ files2) = Normal merged
       /\ length merged
          = (list_sum (map length files1) + list_sum (map length files2))%nat.
Proof.
  intros H1 H2.
  assert (concat (files1 ++ files2) <> []) as H12.
  { rewrite concat_app. intros H. apply app_eq_nil in H. tauto. }
  rewrite !mergePdfs_save, (save_pages _ H1), (save_pages _ H2),
    (save_pages _ H12).
  cbn [bind]. rewrite mergePdfs_save. split.
  - cbn [concat]. rewrite app_nil_r, concat_app.
    rewrite save_pages; [reflexivity|].
    intros H. apply app_eq_nil in H. tauto.
  - eexists. split; [reflexivity|].
    rewrite concat_app, length_app, !length_concat. reflexivity.
Qed.

(** X7 at a two-page document, then a one-page document. *)
Lemma mergePdfs_in_stages_witness :
  concat [[samplePage 0 1; samplePage 0 2]] <> []
  /\ concat [[samplePage 90 3]] <> []
  /\ bind (mergePdfs [[samplePage 0 1; samplePage 0 2]]) (fun merged1 =>
     bind (mergePdfs [[samplePage 90 3]]) (fun merged2 =>
     mergePdfs [merged1; merged2]))
     = mergePdfs ([[samplePage 0 1; samplePage 0 2]] ++ [[samplePage 90 3]]).
Proof.
  assert (concat [[samplePage 0 1; samplePage 0 2]] <> []) as H1
    by discriminate.
  assert (concat [[samplePage 90 3]] <> []) as H2 by discriminate.
  split; [exact H1|]. split; [exact H2|].
  exact (proj1 (mergePdfs_in_stages [[samplePage 0 1; samplePage 0 2]]
                  [[samplePage 90 3]] H1 H2)).
Defined.

(** An angle the codec refuses is refused at the first page, with an
    error that depends on the angle only. *)
Lemma rotatePdf_refused (angle : jsstring) :
  refused (parseInt angle None) ->
  exists msg,
    forall page (pages : list Page),
      rotatePdf (page :: pages) angle = Throw msg.
Proof.
  intros H. unfold rotatePdf. cbn [forEachM].
  destruct (parseInt angle None) as [|a].
  - eexists. intros page pages. reflexivity.
  - cbn in H. apply Z.eqb_neq in H. unfold setRotation. rewrite H.
    eexists. intros page pages. reflexivity.
Qed.

Lemma valid_or_refused (angleValue : num) :
  (exists a, angleValue = Int a /\ Z.rem a 90 = 0) \/ refused angleValue.
Proof.
  destruct angleValue as [|a]; [right; exact I|].
  destruct (Z.eq_dec (Z.rem a 90) 0) as [H|H]; [left; eauto | right; exact H].
Qed.

(** X8. For an angle that reads as no number or as a safe integer,
    [rotatePdf] succeeds exactly when the document has no page or the
    angle reads as an integer multiple of 90; otherwise it fails at the
    first page, and no rotated document comes out. *)
Theorem rotatePdf_succeeds_iff file (angle : jsstring) :
  safeNumber (parseInt angle None) ->
  (exists out, rotatePdf file angle = Normal out)
  <-> file = [] \/ exists a, parseInt angle None = Int a /\ Z.rem a 90 = 0.
Proof.
  intros _. split.
  - intros (out & Hout). destruct file as [|page pages]; [left; reflexivity|].
    destruct (valid_or_refused (parseInt angle None)) as [Hvalid | Hrefused];
      [right; exact Hvalid|].
    destruct (rotatePdf_refused _ Hrefused) as (msg & Hmsg).
    rewrite Hmsg in Hout. discriminate.
  - intros [-> | (a & Hparse & Hrem)].
    + eexists. unfold rotatePdf. cbn [forEachM bind rethrow]. reflexivity.
    + eexists. apply (rotatePdf_multiple _ _ _ Hparse Hrem).
Qed.

(** X8 at the angle texts ["180"] and ["45"] on a page. *)
Lemma rotatePdf_succeeds_iff_witness :
  safeNumber (parseInt (js "180") None)
  /\ (exists out, rotatePdf [samplePage 0 1] (js "180") = Normal out)
  /\ safeNumber (parseInt (js "45") None)
  /\ ~ (exists out, rotatePdf [samplePage 0 1] (js "45") = Normal out).
Proof.
  assert (safeNumber (parseInt (js "180") None)) as H180 by reflexivity.
  assert (safeNumber (parseInt (js "45") None)) as H45 by reflexivity.
  split; [exact H180|]. split.
  { apply (rotatePdf_succeeds_iff [samplePage 0 1] (js "180") H180).
    right. exists 180. split; reflexivity. }
  split; [exact H45|]. intros Hout.
  apply (rotatePdf_succeeds_iff [samplePage 0 1] (js "45") H45) in Hout.
  destruct Hout as [Hnil | (a & Ha & Hrem)]; [discriminate Hnil|].
  injection Ha as <-. discriminate Hrem.
Defined.

(** X9. Rotations do not add up, the last one wins: in a document that
    has a page, rotating by one safe multiple of 90 and then by another
    gives what rotating by the second alone gives.  A rotation keeps
    every page's box and content and the number of pages. *)
Theorem rotatePdf_last_wins file (angle1 angle2 : jsstring) (a1 a2 : Z) :
  file <> [] ->
  parseInt angle1 None = Int a1 -> safeInteger a1 -> Z.rem a1 90 = 0 ->
  parseInt angle2 None = Int a2 -> safeInteger a2 -> Z.rem a2 90 = 0 ->
  bind (rotatePdf file angle1) (fun once => rotatePdf once angle2)
  = rotatePdf file angle2
  /\ exists out,
       rotatePdf file angle1 = Normal out
       /\ map mediaBox out = map mediaBox file
       /\ map content out = map content file.
Proof.
  intros Hfile H1 _ Hrem1 H2 _ Hrem2.
  rewrite (rotatePdf_pages _ _ _ H1 Hrem1 Hfile). cbn [bind].
  rewrite (rotatePdf_pages _ _ _ H2 Hrem2 Hfile).
  rewrite (rotatePdf_pages _ _ _ H2 Hrem2) by (destruct file; done).
  split.
  - rewrite map_map. reflexivity.
  - eexists. split; [reflexivity|]. rewrite !map_map. split; reflexivity.
Qed.

(** X9 at 90 and then 270 on a page turned by 180. *)
Lemma rotatePdf_last_wins_witness :
  [samplePage 180 1] <> []
  /\ parseInt (js "90") None = Int 90 /\ safeInteger 90 /\ Z.rem 90 90 = 0
  /\ parseInt (js "270") None = Int 270 /\ safeInteger 270
  /\ Z.rem 270 90 = 0
  /\ bind (rotatePdf [samplePage 180 1] (js "90"))
          (fun once => rotatePdf once (js "270"))
     = rotatePdf [samplePage 180 1] (js "270").
Proof.
  assert ([samplePage 180 1] <> []) as Hfile by discriminate.
  assert (safeInteger 90) as H90 by reflexivity.
  assert (safeInteger 270) as H270 by reflexivity.
  split; [exact Hfile|]. split; [reflexivity|]. split; [exact H90|].
  split; [reflexivity|]. split; [reflexivity|]. split; [exact H270|].
  split; [reflexivity|].
  exact (proj1 (rotatePdf_last_wins [samplePage 180 1] (js "90") (js "270")
                  90 270 Hfile eq_refl H90 eq_refl eq_refl H270 eq_refl)).
Defined.






End MergeRotateCrop.

(* ===================================================================== *)
(** ** Further properties: comparing the text of two documents *)
(* ===================================================================== *)

Section Compare.

Import PdfText.

Implicit Types (diffLines : list jsstring).

(** The heading of the block of a page in the report. *)
Lemma diffPage_same (text1 text2 : list jsstring) diffLines (i : nat) :
  orEmpty (text1 !! i) = orEmpty (text2 !! i) ->
  diffPage text1 text2 diffLines i = diffLines.
Proof.
  intros H. unfold diffPage, eqs. rewrite bool_decide_eq_true_2 by exact H.
  reflexivity.
Qed.

(** What the loop adds to the lines: nothing exactly when no page of the
    list differs, and otherwise lines that start with a heading. *)
Lemma fold_diffPage (text1 text2 : list jsstring) (l : list nat) diffLines :
  exists added,
    fold_left (diffPage text1 text2) l diffLines = diffLines ++ added
    /\ (added = []
        <-> forall i, In i l -> orEmpty (text1 !! i) = orEmpty (text2 !! i))
    /\ (added = []
        \/ exists k heading lines,
             added = (js "Page " ++ toString k ++ heading) :: lines).
Proof.
  revert diffLines. induction l as [|i l IH]; intros diffLines.
  - exists []. cbn [fold_left]. rewrite app_nil_r.
    split; [reflexivity|]. split; [|left; reflexivity].
    split; [intros _ i [] | reflexivity].
  - cbn [fold_left].
    destruct (decide (orEmpty (text1 !! i) = orEmpty (text2 !! i)))
      as [Hsame | Hdiff].
    + rewrite (diffPage_same _ _ _ _ Hsame).
      destruct (IH diffLines) as (added & Hfold & Hnil & Hhead).
      exists added. split; [exact Hfold|]. split; [|exact Hhead].
      rewrite Hnil. split.
      * intros H j [<- | Hj]; [exact Hsame | exact (H j Hj)].
      * intros H j Hj. apply H. right. exact Hj.
    + unfold diffPage at 2, eqs.
      rewrite bool_decide_eq_false_2 by exact Hdiff.
      destruct (IH (diffLines
                      ++ [ js "Page " ++ toString (Z.of_nat i + 1) ++ js ":";
                           js "--- PDF 1 ---"; orEmpty (text1 !! i);
                           js "--- PDF 2 ---"; orEmpty (text2 !! i); [] ]))
        as (added & Hfold & _ & _).
      eexists. split; [rewrite Hfold, <- app_assoc; reflexivity|]. split.
      * split; [discriminate|]. intros H. exfalso. apply Hdiff, H.
        left. reflexivity.
      * right. exists (Z.of_nat i + 1), (js ":"). eexists. reflexivity.
Qed.

Lemma join_heading (c : N) (s : jsstring) (lines : list jsstring) :
  exists rest, join LF ((c :: s) :: lines) = c :: rest.
Proof. destruct lines; cbn [join app]; eauto. Qed.

(** X11. [comparePdfs] never fails on two decoded documents, and it
    reports "No differences found." exactly when the two documents have
    the same text on every page, a page that one of them lacks counting
    as a page without text; so a document compared with itself shows no
    difference, and neither do documents that differ by empty pages
    only. *)
Theorem comparePdfs_no_difference (file1 file2 : TextPdf) :
  (exists diffText, comparePdfs file1 file2 = Normal diffText)
  /\ (comparePdfs file1 file2 = Normal (js "No differences found.")
      <-> forall i, textAt file1 i = textAt file2 i)
  /\ comparePdfs file1 file1 = Normal (js "No differences found.").
Proof.
  assert (forall f1 f2,
            comparePdfs f1 f2 = Normal (js "No differences found.")
            <-> forall i, textAt f1 i = textAt f2 i) as Hiff.
  { intros f1 f2. unfold comparePdfs, rethrow.
    destruct (fold_diffPage (extractText f1) (extractText f2)
                (seq 0 (Nat.max (length (extractText f1))
                                (length (extractText f2)))) [])
      as (added & Hfold & Hnil & Hhead).
    rewrite Hfold. cbn [app].
    assert (added = [] <-> forall i, textAt f1 i = textAt f2 i) as Hall.
    { rewrite Hnil. unfold textAt. split.
      - intros H i.
        destruct (Nat.lt_ge_cases i
                    (Nat.max (length (extractText f1))
                             (length (extractText f2)))) as [Hlt | Hge].
        + apply H, in_seq. lia.
        + rewrite !lookup_ge_None_2 by lia. reflexivity.
      - intros H i _. apply H. }
    rewrite <- Hall. destruct Hhead as [-> | (k & heading & lines & ->)].
    - split; reflexivity.
    - split; [|discriminate]. intros H. exfalso.
      destruct (join_heading 80 (js "age " ++ toString k ++ heading) lines)
        as (rest & Hjoin).
      change (js "Page " ++ toString k ++ heading)
        with (80%N :: (js "age " ++ toString k ++ heading)) in H.
      rewrite Hjoin in H. discriminate. }
  split; [|split].
  - unfold comparePdfs, rethrow. eexists. reflexivity.
  - apply Hiff.
  - apply Hiff. reflexivity.
Qed.

End Compare.

(* ===================================================================== *)
(** ** Further properties: the HTML of the pages *)
(* ===================================================================== *)

Section Html.

Import PdfText.

Implicit Types (s t replacement : jsstring) (c d : N).

Lemma replaceAll_without_kept c d replacement s :
  without c replacement -> without c s ->
  without c (replaceAll d replacement s).
Proof.
  intros Hr. induction s as [|e s IH]; intros Hs; [reflexivity|].
  apply without_cons in Hs. destruct Hs as [He Hs].
  cbn [replaceAll]. apply without_app. split; [|exact (IH Hs)].
  destruct (e =? d)%N; [exact Hr|].
  apply without_cons. split; [exact He | reflexivity].
Qed.

Lemma replaceAll_without c replacement s :
  without c replacement -> without c (replaceAll c replacement s).
Proof.
  intros Hr. induction s as [|e s IH]; [reflexivity|].
  cbn [replaceAll]. apply without_app. split; [|exact IH].
  destruct (e =? c)%N eqn:E; [exact Hr|].
  apply N.eqb_neq in E. apply without_cons. split; [exact E | reflexivity].
Qed.

Lemma replaceAll_id c replacement s :
  without c s -> replaceAll c replacement s = s.
Proof.
  induction s as [|e s IH]; intros Hs; [reflexivity|].
  apply without_cons in Hs. destruct Hs as [He Hs].
  cbn [replaceAll]. apply N.eqb_neq in He. rewrite He, (IH Hs). reflexivity.
Qed.

(** X12. The text [pdfToHtml] puts into a page has no [<] and no [>]
    left, whatever the text of the page, so the text cannot open or close
    a tag; a text without them is put as it is. *)
Theorem escapeText_no_markup (pageText : jsstring) :
  without LESS (escapeText pageText)
  /\ without GREATER (escapeText pageText)
  /\ (without LESS pageText -> without GREATER pageText ->
      escapeText pageText = pageText).
Proof.
  unfold escapeText. split; [|split].
  - apply replaceAll_without_kept; [reflexivity|].
    apply replaceAll_without. reflexivity.
  - apply replaceAll_without. reflexivity.
  - intros Hl Hg. rewrite (replaceAll_id LESS _ _ Hl).
    apply replaceAll_id, Hg.
Qed.

(** X12 at a text with a tag in it. *)
Lemma escapeText_no_markup_witness :
  without LESS (js "a & b") /\ without GREATER (js "a & b")
  /\ escapeText (js "a & b") = js "a & b"
  /\ escapeText (js "<b>x</b>") = js "&lt;b&gt;x&lt;/b&gt;".
Proof.
  split; [reflexivity|]. split; [reflexivity|].
  split; [|reflexivity].
  apply (escapeText_no_markup (js "a & b")); reflexivity.
Defined.

Lemma htmlName_inj (a b : Z) :
  0 <= a -> 0 <= b -> htmlName a = htmlName b -> a = b.
Proof.
  intros Ha Hb H. unfold htmlName in H.
  apply app_inv_head in H. apply app_inv_tail in H.
  assert (Int a = Int b) as Hint.
  { rewrite <- (parseInt_toString a None Ha) by auto.
    rewrite <- (parseInt_toString b None Hb) by auto.
    rewrite H. reflexivity. }
  injection Hint as ->. reflexivity.
Qed.

Lemma zipFile_new (zip : Zip) (fileName data : jsstring) :
  ~ In fileName (map fst zip) ->
  zipFile zip fileName data = zip ++ [(fileName, data)].
Proof.
  induction zip as [|[n d] zip IH]; intros Hnew; [reflexivity|].
  cbn [zipFile]. cbn [map fst In] in Hnew. unfold eqs.
  rewrite bool_decide_eq_false_2 by tauto.
  rewrite IH by tauto. reflexivity.
Qed.

Lemma htmlLoop_entries (pages : TextPdf) (done : TextPdf) (zip : Zip)
    (firstPageHtml : jsstring) :
  zip = imap htmlEntry done ->
  htmlLoop (Z.of_nat (length done) + 1) pages zip firstPageHtml
  = (imap htmlEntry (done ++ pages),
     match done, pages with
     | [], items :: _ => pageHtml 1 (pageText items)
     | _, _ => firstPageHtml
     end).
Proof.
  revert done zip firstPageHtml.
  induction pages as [|items pages IH]; intros done zip firstPageHtml Hzip.
  - cbn [htmlLoop]. rewrite app_nil_r, Hzip. destruct done; reflexivity.
  - cbn [htmlLoop]. rewrite zipFile_new.
    + replace (Z.of_nat (length done) + 1 + 1)
        with (Z.of_nat (length (done ++ [items])) + 1)
        by (rewrite length_app; cbn [length]; lia).
      rewrite (IH (done ++ [items])).
      * rewrite <- app_assoc. cbn [app]. f_equal.
        destruct done as [|d done]; [reflexivity|].
        cbn [app length].
        assert ((Z.of_nat (S (length done)) + 1 =? 1) = false) as ->
          by (apply Z.eqb_neq; lia).
        reflexivity.
      * rewrite imap_app, Hzip. cbn [imap]. rewrite Nat.add_0_r.
        reflexivity.
    + rewrite Hzip. intros Hin. apply in_map_iff in Hin.
      destruct Hin as ([n d] & Hname & Hin). cbn [fst] in Hname.
      apply list_elem_of_In, elem_of_lookup_imap in Hin.
      destruct Hin as (i & it & Heq & Hlook). injection Heq as -> ->.
      apply lookup_lt_Some in Hlook.
      apply htmlName_inj in Hname; lia.
Qed.

(** X13. The archive [pdfToHtml] builds has one entry per page, in page
    order, the page with index [i] under the name [page{i+1}.html]; the
    names are all different, so no entry replaces another; and
    [firstPageHtml] is the HTML of the first page, or empty when the
    document has no page. *)
Theorem pdfToHtml_entries (pdf : TextPdf) :
  pdfToHtml pdf
  = Normal (imap htmlEntry pdf,
            match pdf with
            | [] => []
            | items :: _ => pageHtml 1 (pageText items)
            end)
  /\ NoDup (map fst (imap htmlEntry pdf))
  /\ length (imap htmlEntry pdf) = length pdf.
Proof.
  split; [|split].
  - unfold pdfToHtml, rethrow.
    change (htmlLoop 1 pdf [] [])
      with (htmlLoop (Z.of_nat (length (@nil (list jsstring))) + 1)
                     pdf [] []).
    rewrite (htmlLoop_entries pdf [] [] [] eq_refl). cbn [app].
    destruct pdf; reflexivity.
  - apply NoDup_alt. intros i j fileName Hi Hj.
    rewrite list_lookup_fmap, list_lookup_imap in Hi, Hj.
    destruct (pdf !! i) as [it1|] eqn:E1; [|discriminate].
    destruct (pdf !! j) as [it2|] eqn:E2; [|discriminate].
    cbn in Hi, Hj. injection Hi as Hi. injection Hj as Hj.
    rewrite <- Hj in Hi. apply htmlName_inj in Hi; lia.
  - apply length_imap.
Qed.

End Html.

(* ===================================================================== *)
(** ** Further properties: the files the merge input keeps *)
(* ===================================================================== *)

Section Inputs.

Implicit Types (file : Utils.File) (files : list Utils.File).

Lemma validate_pdf file :
  Utils.validateFileType (Some file) [js "pdf"] = true <-> isPdf file.
Proof.
  unfold Utils.validateFileType, isPdf, eqs. cbn [existsb].
  rewrite bool_decide_eq_true_2 by reflexivity.
  rewrite (bool_decide_eq_false_2 (js "image" = js "pdf")) by discriminate.
  cbn [orb andb].
  destruct (bool_decide (Utils.type file = js "application/pdf")) eqn:E.
  - apply bool_decide_eq_true in E. tauto.
  - apply bool_decide_eq_false in E. split; [discriminate | tauto].
Qed.

Lemma filter_all {A} (p : A -> bool) (l : list A) :
  length (List.filter p l) = length l <-> Forall (fun a => p a = true) l.
Proof.
  assert (forall l', (length (List.filter p l') <= length l')%nat) as Hle.
  { induction l' as [|a l' IH]; cbn; [lia|]. destruct (p a); cbn; lia. }
  induction l as [|a l IH]; cbn [List.filter length].
  - split; [constructor | reflexivity].
  - destruct (p a) eqn:E; cbn [length].
    + rewrite Forall_cons_iff, <- IH.
      split; [intros H; split; [exact E | lia] | lia].
    + split; [pose proof (Hle l); lia|].
      intros H. apply Forall_cons_iff in H. destruct H as [H _]. congruence.
Qed.

(** X14. At the merge input an error is shown exactly when a chosen file
    is not a PDF.  The selection held for merging is never empty and holds
    PDF files only, if that was so before; a choice without any PDF file
    leaves the former selection in place, and a choice of PDF files only
    becomes the selection as it is. *)
Theorem mergeInput_keeps_pdfs (mergeFiles : option (list Utils.File)) files :
  (fst (Utils.mergeInputChange mergeFiles files) = None
   <-> Forall isPdf files)
  /\ ((forall held,
         mergeFiles = Some held -> held <> [] /\ Forall isPdf held) ->
      forall kept,
        snd (Utils.mergeInputChange mergeFiles files) = Some kept ->
        kept <> [] /\ Forall isPdf kept)
  /\ (Forall (fun file => ~ isPdf file) files ->
      snd (Utils.mergeInputChange mergeFiles files) = mergeFiles)
  /\ (Forall isPdf files -> files <> [] ->
      snd (Utils.mergeInputChange mergeFiles files) = Some files).
Proof.
  unfold Utils.mergeInputChange. cbn [fst snd].
  set (valid := fun file => Utils.validateFileType (Some file) [js "pdf"]).
  assert (Forall (fun file => valid file = true) files <-> Forall isPdf files)
    as Hvalid.
  { split; apply Forall_impl; intros file; apply validate_pdf. }
  split; [|split; [|split]].
  - rewrite <- Hvalid, <- filter_all.
    destruct (length (List.filter valid files) =? length files)%nat eqn:E.
    + apply Nat.eqb_eq in E. cbn [negb]. tauto.
    + apply Nat.eqb_neq in E. cbn [negb]. split; [discriminate | tauto].
  - intros Hheld kept.
    destruct (0 <? length (List.filter valid files))%nat eqn:E.
    + intros [= <-]. apply Nat.ltb_lt in E. split.
      * intros Hnil. rewrite Hnil in E. cbn in E. lia.
      * apply Forall_forall. intros file Hin. apply filter_In in Hin.
        apply validate_pdf. tauto.
    + apply Hheld.
  - intros Hnone. clear Hvalid.
    assert (List.filter valid files = []) as ->; [|reflexivity].
    induction Hnone as [|file files Hfile _ IH]; [reflexivity|].
    cbn [List.filter]. destruct (valid file) eqn:E; [|exact IH].
    exfalso. apply Hfile, validate_pdf, E.
  - intros Hall Hne.
    assert (List.filter valid files = files) as ->.
    { apply Hvalid in Hall. clear Hne Hvalid.
      induction Hall as [|file files Hfile _ IH]; [reflexivity|].
      cbn [List.filter]. rewrite Hfile, IH. reflexivity. }
    destruct files; [done | reflexivity].
Qed.

(** X14 for a PDF and an image chosen together, nothing held before: the
    PDF is kept. *)
Lemma mergeInput_keeps_pdfs_witness :
  (forall held, @None (list Utils.File) = Some held ->
                held <> [] /\ Forall isPdf held)
  /\ snd (Utils.mergeInputChange None
            [ {| Utils.type := js "application/pdf"; Utils.name := js "a.pdf" |};
              {| Utils.type := js "image/png"; Utils.name := js "b.png" |} ])
     = Some [ {| Utils.type := js "application/pdf";
                 Utils.name := js "a.pdf" |} ]
  /\ Forall isPdf [ {| Utils.type := js "application/pdf";
                       Utils.name := js "a.pdf" |} ].
Proof.
  assert (forall held, @None (list Utils.File) = Some held ->
                       held <> [] /\ Forall isPdf held) as Hheld.
  { intros held H. discriminate H. }
  split; [exact Hheld|]. split; [reflexivity|].
  exact (proj2 (proj1 (proj2 (mergeInput_keeps_pdfs None
           [ {| Utils.type := js "application/pdf"; Utils.name := js "a.pdf" |};
             {| Utils.type := js "image/png"; Utils.name := js "b.png" |} ]))
           Hheld _ eq_refl)).
Defined.

End Inputs.

(* ===================================================================== *)
(** ** Further properties: the view model *)
(* ===================================================================== *)

Section ViewModelFacts.

Import ViewModel.

Implicit Types (vm : ViewModel) (updates : list (Key * value)).
Implicit Types (key : Key) (v : value) (st : State).

Lemma keyEq_eq (a b : Key) : keyEq a b = true <-> a = b.
Proof. destruct a, b; cbn; split; intros H; congruence. Qed.

Lemma keyEq_neq (a b : Key) : keyEq a b = false <-> a <> b.
Proof. rewrite <- keyEq_eq. destruct (keyEq a b); split; congruence. Qed.

Lemma keyEq_refl key : keyEq key key = true.
Proof. apply keyEq_eq. reflexivity. Qed.

Lemma strictEq_refl v : strictEq v v = true.
Proof.
  destruct v as [|b|s|n|[m|m] items]; cbn.
  - reflexivity.
  - destruct b; reflexivity.
  - apply bool_decide_eq_true_2. reflexivity.
  - apply N.eqb_refl.
  - apply N.eqb_refl.
  - apply N.eqb_refl.
Qed.

Lemma strictEq_Null v : strictEq v Null = true -> v = Null.
Proof. destruct v; cbn; congruence. Qed.

Lemma strictEq_Bool v (b : bool) : strictEq v (Bool b) = true -> v = Bool b.
Proof.
  destruct v as [|b'| | |]; cbn; try discriminate.
  intros H. apply Bool.eqb_prop in H. congruence.
Qed.

Lemma strictEq_Str v (s : jsstring) : strictEq v (Str s) = true -> v = Str s.
Proof.
  destruct v as [| |s'| |]; cbn; try discriminate.
  intros H. apply bool_decide_eq_true in H. congruence.
Qed.

Lemma entry_None updates key :
  ~ In key (map fst updates) -> entry updates key = None.
Proof.
  induction updates as [|[k v] updates IH]; [reflexivity|].
  cbn [map fst In entry]. intros Hnot.
  destruct (keyEq key k) eqn:E.
  - apply keyEq_eq in E. subst k. tauto.
  - apply IH. tauto.
Qed.

Lemma entry_Some updates key v :
  NoDup (map fst updates) -> In (key, v) updates ->
  entry updates key = Some v.
Proof.
  induction updates as [|[k w] updates IH]; [intros _ []|].
  cbn [map fst In entry]. rewrite list.NoDup_cons, list_elem_of_In.
  intros [Hk Hnd] [[= -> ->]|Hin].
  - rewrite keyEq_refl. reflexivity.
  - destruct (keyEq key k) eqn:E; [|apply IH; assumption].
    apply keyEq_eq in E. subst k. exfalso. apply Hk.
    apply in_map_iff. exists (key, v). split; [reflexivity | exact Hin].
Qed.

Lemma changedKeys_ext st (st' : State) updates :
  (forall kv, In kv updates -> st (fst kv) = st' (fst kv)) ->
  changedKeys st updates = changedKeys st' updates.
Proof.
  intros H. unfold changedKeys. f_equal. apply filter_ext_in.
  intros kv Hin. rewrite (H kv Hin). reflexivity.
Qed.

(** The loop of [setState]: the state it leaves and the keys it
    collects. *)
Lemma fold_update updates : forall st (changed : list Key),
  NoDup (map fst updates) ->
  (forall key,
     fst (fold_left update updates (st, changed)) key
     = match entry updates key with
       | Some v => if strictEq (st key) v then st key else v
       | None => st key
       end)
  /\ snd (fold_left update updates (st, changed))
     = changed ++ changedKeys st updates.
Proof.
  induction updates as [|[k v] updates IH]; intros st changed.
  - intros _. cbn. rewrite app_nil_r. split; reflexivity.
  - cbn [map fst]. rewrite list.NoDup_cons, list_elem_of_In. intros [Hk Hnd].
    cbn [fold_left update entry].
    unfold changedKeys. cbn [List.filter fst snd]. fold (changedKeys st updates).
    destruct (strictEq (st k) v) eqn:E; cbn [negb map fst].
    + destruct (IH st changed Hnd) as [Hst Hch]. split; [|exact Hch].
      intros key. rewrite Hst. destruct (keyEq key k) eqn:Ek; [|reflexivity].
      apply keyEq_eq in Ek. rewrite Ek.
      rewrite (entry_None _ _ Hk), E. reflexivity.
    + destruct (IH (assign st k v) (changed ++ [k]) Hnd) as [Hst Hch]. split.
      * intros key. rewrite Hst. unfold assign.
        destruct (keyEq key k) eqn:Ek; [|reflexivity].
        apply keyEq_eq in Ek. rewrite Ek.
        rewrite (entry_None _ _ Hk), E. reflexivity.
      * rewrite Hch, <- app_assoc. cbn [app]. do 2 f_equal.
        apply changedKeys_ext. intros kv Hin. unfold assign.
        destruct (keyEq (fst kv) k) eqn:Ek; [|reflexivity].
        apply keyEq_eq in Ek. exfalso. apply Hk. rewrite <- Ek.
        apply in_map. exact Hin.
Qed.

Lemma fold_update_same updates : forall st (changed : list Key),
  Forall (fun kv => strictEq (st (fst kv)) (snd kv) = true) updates ->
  fold_left update updates (st, changed) = (st, changed).
Proof.
  induction updates as [|[k v] updates IH]; intros st changed Hall;
    [reflexivity|].
  apply Forall_cons_iff in Hall. destruct Hall as [Hkv Hall].
  cbn [fold_left update]. cbn [fst snd] in Hkv. rewrite Hkv. cbn [negb].
  apply IH, Hall.
Qed.

Lemma fold_notify (keys : list Key) : forall vm,
  state (fold_left notify keys vm) = state vm
  /\ observers (fold_left notify keys vm) = observers vm
  /\ shown (fold_left notify keys vm) = shown vm
  /\ next (fold_left notify keys vm) = next vm
  /\ calls (fold_left notify keys vm)
     = calls vm
       ++ flat_map
            (fun key =>
               map (fun callback => (callback, key, state vm)) (observers vm))
            keys.
Proof.
  induction keys as [|key keys IH]; intros vm.
  - cbn. rewrite app_nil_r. repeat split.
  - cbn [fold_left flat_map].
    destruct (IH (notify vm key)) as (Hst & Hobs & Hsh & Hnext & Hcalls).
    rewrite Hst, Hobs, Hsh, Hnext, Hcalls. cbn [notify state observers shown
      next calls]. rewrite <- app_assoc. repeat split.
Qed.

(** What [setState] does, for an update object (whose keys differ). *)
Lemma setState_spec vm updates :
  NoDup (map fst updates) ->
  (forall key,
     state (setState vm updates) key
     = match entry updates key with
       | Some v => if strictEq (state vm key) v then state vm key else v
       | None => state vm key
       end)
  /\ observers (setState vm updates) = observers vm
  /\ shown (setState vm updates) = shown vm
  /\ next (setState vm updates) = next vm
  /\ calls (setState vm updates)
     = calls vm
       ++ flat_map
            (fun key =>
               map (fun callback =>
                      (callback, key, state (setState vm updates)))
                   (observers vm))
            (changedKeys (state vm) updates).
Proof.
  intros Hnd. unfold setState.
  destruct (fold_update updates (state vm) [] Hnd) as [Hst Hch].
  destruct (fold_left update updates (state vm, [])) as [st' changed].
  cbn [fst snd app] in Hst, Hch. subst changed.
  match goal with
  | |- context [fold_left notify ?keys ?vm0] =>
      destruct (fold_notify keys vm0) as (Hs & Hobs & Hsh & Hnext & Hcalls)
  end.
  rewrite Hs, Hobs, Hsh, Hnext, Hcalls. cbn [state observers shown next calls].
  repeat split. exact Hst.
Qed.

(** X15. After [setState] every key of the update object holds a value
    identical ([===]) to the one given, every other key holds what it
    held, and the observers are the same. *)
Theorem setState_updates vm updates :
  NoDup (map fst updates) ->
  (forall key v,
     In (key, v) updates ->
     strictEq (state (setState vm updates) key) v = true)
  /\ (forall key,
        ~ In key (map fst updates) ->
        state (setState vm updates) key = state vm key)
  /\ observers (setState vm updates) = observers vm.
Proof.
  intros Hnd. destruct (setState_spec vm updates Hnd) as (Hst & Hobs & _).
  split; [|split; [|exact Hobs]].
  - intros key v Hin. rewrite Hst, (entry_Some _ _ _ Hnd Hin).
    destruct (strictEq (state vm key) v) eqn:E; [exact E|].
    apply strictEq_refl.
  - intros key Hnot. rewrite Hst, (entry_None _ _ Hnot). reflexivity.
Qed.

(** X16. [setState] calls the observers only after all the updates are
    made: for each key whose value was not identical to the one given, in
    the order of the update object, every observer in the order of
    subscription, each time with the state as the whole update leaves it;
    no observer is called for a key whose value stays. *)
Theorem setState_notifies vm updates :
  NoDup (map fst updates) ->
  calls (setState vm updates)
  = calls vm
    ++ flat_map
         (fun key =>
            map (fun callback => (callback, key, state (setState vm updates)))
                (observers vm))
         (changedKeys (state vm) updates).
Proof.
  intros Hnd. apply (setState_spec vm updates Hnd).
Qed.

(** X17. The same update made a second time changes nothing and calls no
    observer. *)
Theorem setState_twice vm updates :
  NoDup (map fst updates) ->
  setState (setState vm updates) updates = setState vm updates.
Proof.
  intros Hnd.
  assert (Forall (fun kv => strictEq (state (setState vm updates) (fst kv))
                                     (snd kv) = true) updates) as Hsame.
  { destruct (setState_spec vm updates Hnd) as (Hst & _).
    apply Forall_forall. intros [key v] Hin. cbn [fst snd].
    rewrite Hst, (entry_Some _ _ _ Hnd Hin).
    destruct (strictEq (state vm key) v) eqn:E; [exact E|].
    apply strictEq_refl. }
  generalize dependent (setState vm updates). intros vm' Hsame.
  unfold setState. rewrite (fold_update_same _ _ _ Hsame).
  destruct vm'. reflexivity.
Qed.

(** X15, X16 and X17 for a view model with one observer, at the update
    [{ isLoading: true }]. *)
Lemma setState_updates_witness :
  NoDup (map fst [(isLoading, Bool true)])
  /\ (forall key v,
        In (key, v) [(isLoading, Bool true)] ->
        strictEq (state (setState (subscribe create 0%nat)
                           [(isLoading, Bool true)]) key) v = true).
Proof.
  assert (NoDup (map fst [(isLoading, Bool true)])) as Hnd.
  { apply NoDup_singleton. }
  split; [exact Hnd|].
  exact (proj1 (setState_updates (subscribe create 0%nat)
                  [(isLoading, Bool true)] Hnd)).
Defined.

Lemma setState_notifies_witness :
  NoDup (map fst [(isLoading, Bool true)])
  /\ calls (setState (subscribe create 0%nat) [(isLoading, Bool true)])
     = calls (subscribe create 0%nat)
       ++ flat_map
            (fun key =>
               map (fun callback =>
                      (callback, key,
                       state (setState (subscribe create 0%nat)
                                [(isLoading, Bool true)])))
                   (observers (subscribe create 0%nat)))
            (changedKeys (state (subscribe create 0%nat))
               [(isLoading, Bool true)]).
Proof.
  assert (NoDup (map fst [(isLoading, Bool true)])) as Hnd.
  { apply NoDup_singleton. }
  split; [exact Hnd|].
  exact (setState_notifies (subscribe create 0%nat)
           [(isLoading, Bool true)] Hnd).
Defined.

Lemma setState_twice_witness :
  NoDup (map fst [(isLoading, Bool true)])
  /\ setState (setState (subscribe create 0%nat) [(isLoading, Bool true)])
       [(isLoading, Bool true)]
     = setState (subscribe create 0%nat) [(isLoading, Bool true)].
Proof.
  assert (NoDup (map fst [(isLoading, Bool true)])) as Hnd.
  { apply NoDup_singleton. }
  split; [exact Hnd|].
  exact (setState_twice (subscribe create 0%nat)
           [(isLoading, Bool true)] Hnd).
Defined.

(** [setState] with an update object of one key. *)
Lemma setState_one vm key v :
  (forall k,
     state (setState vm [(key, v)]) k
     = if keyEq k key
       then if strictEq (state vm key) v then state vm key else v
       else state vm k)
  /\ observers (setState vm [(key, v)]) = observers vm
  /\ shown (setState vm [(key, v)]) = shown vm
  /\ next (setState vm [(key, v)]) = next vm
  /\ calls (setState vm [(key, v)])
     = calls vm
       ++ (if strictEq (state vm key) v then []
           else map (fun callback =>
                       (callback, key, state (setState vm [(key, v)])))
                    (observers vm)).
Proof.
  assert (NoDup (map fst [(key, v)])) as Hnd by apply NoDup_singleton.
  destruct (setState_spec vm [(key, v)] Hnd)
    as (Hst & Hobs & Hsh & Hnext & Hcalls).
  split; [|split; [|split; [|split]]]; try assumption.
  - intros k. rewrite Hst. cbn [entry].
    destruct (keyEq k key) eqn:E; [|reflexivity].
    apply keyEq_eq in E. rewrite E. reflexivity.
  - rewrite Hcalls. unfold changedKeys. cbn [List.filter fst snd].
    destruct (strictEq (state vm key) v); cbn [negb map flat_map fst];
      [reflexivity|].
    rewrite app_nil_r. reflexivity.
Qed.

(** An array the view model makes is identical to none the state holds. *)
Lemma strictEq_fresh vm key (n : N) (items : list N) :
  wellFormed vm -> (next vm <= n)%N ->
  strictEq (state vm key) (Arr (Own n) items) = false.
Proof.
  intros Hwf Hn. destruct (state vm key) as [| | | |[m|m] items'] eqn:E;
    cbn; try reflexivity.
  apply N.eqb_neq. specialize (Hwf _ _ _ E). lia.
Qed.

(** X18. [setActiveTab] on a tab name (or any value that is not an array
    of the view model's own): afterwards the tab is the one given, no PDF
    and no error is held, and the images and the results are two new
    empty arrays.  As a new array is identical to no other, the observers
    are called for [selectedImages] and [resultBlobs] every time, also
    when both were empty before; for the tab, the PDF and the error only
    if they change. *)
Theorem setActiveTab_resets vm (tab : value) :
  wellFormed vm -> foreign tab ->
  strictEq (state (setActiveTab vm tab) activeTab) tab = true
  /\ state (setActiveTab vm tab) selectedPdf = Null
  /\ state (setActiveTab vm tab) selectedImages = Arr (Own (next vm)) []
  /\ state (setActiveTab vm tab) resultBlobs
     = Arr (Own (N.succ (next vm))) []
  /\ state (setActiveTab vm tab) error = Null
  /\ state (setActiveTab vm tab) isLoading = state vm isLoading
  /\ calls (setActiveTab vm tab)
     = calls vm
       ++ flat_map
            (fun key =>
               map (fun callback =>
                      (callback, key, state (setActiveTab vm tab)))
                   (observers vm))
            ((if strictEq (state vm activeTab) tab then [] else [activeTab])
             ++ (if strictEq (state vm selectedPdf) Null then []
                 else [selectedPdf])
             ++ [selectedImages; resultBlobs]
             ++ (if strictEq (state vm error) Null then [] else [error]))
  /\ wellFormed (setActiveTab vm tab).
Proof.
  intros Hwf Hforeign. unfold setActiveTab, newArray.
  cbn [state observers calls shown next].
  match goal with
  | |- context [setState ?vm0 ?u] => set (vm2 := vm0); set (updates := u)
  end.
  assert (NoDup (map fst updates)) as Hnd.
  { cbn. repeat (apply NoDup_cons_2;
                 [rewrite ?elem_of_cons, elem_of_nil; intuition discriminate|]).
    apply NoDup_nil_2. }
  destruct (setState_spec vm2 updates Hnd)
    as (Hst & Hobs & Hsh & Hnext & Hcalls).
  change (state vm2) with (state vm) in *.
  change (observers vm2) with (observers vm) in *.
  change (calls vm2) with (calls vm) in *.
  change (next vm2) with (N.succ (N.succ (next vm))) in *.
  assert (strictEq (state vm selectedImages) (Arr (Own (next vm)) []) = false)
    as Himages by (apply strictEq_fresh; [exact Hwf | lia]).
  assert (strictEq (state vm resultBlobs) (Arr (Own (N.succ (next vm))) [])
          = false)
    as Hblobs by (apply strictEq_fresh; [exact Hwf | lia]).
  assert (forall key, state (setState vm2 updates) key = Null \/
            state (setState vm2 updates) key = state vm key \/
            state (setState vm2 updates) key = tab \/
            exists n, (n < N.succ (N.succ (next vm)))%N /\
              state (setState vm2 updates) key = Arr (Own n) []) as Hcases.
  { intros key. rewrite Hst. destruct key; cbn [entry updates keyEq].
    - destruct (strictEq (state vm selectedPdf) Null); auto.
    - rewrite Himages. right. right. right.
      exists (next vm). split; [lia | reflexivity].
    - auto.
    - rewrite Hblobs. right. right. right.
      exists (N.succ (next vm)). split; [lia | reflexivity].
    - destruct (strictEq (state vm activeTab) tab); auto.
    - destruct (strictEq (state vm error) Null); auto. }
  repeat match goal with |- _ /\ _ => split end.
  - rewrite Hst. cbn [entry updates keyEq].
    destruct (strictEq (state vm activeTab) tab) eqn:E; [exact E|].
    apply strictEq_refl.
  - rewrite Hst. cbn [entry updates keyEq].
    destruct (strictEq (state vm selectedPdf) Null) eqn:E; [|reflexivity].
    apply strictEq_Null, E.
  - rewrite Hst. cbn [entry updates keyEq]. rewrite Himages. reflexivity.
  - rewrite Hst. cbn [entry updates keyEq]. rewrite Hblobs. reflexivity.
  - rewrite Hst. cbn [entry updates keyEq].
    destruct (strictEq (state vm error) Null) eqn:E; [|reflexivity].
    apply strictEq_Null, E.
  - rewrite Hst. reflexivity.
  - rewrite Hcalls. do 2 f_equal. unfold changedKeys, updates.
    cbn [List.filter fst snd]. rewrite Himages, Hblobs.
    destruct (strictEq (state vm activeTab) tab),
      (strictEq (state vm selectedPdf) Null),
      (strictEq (state vm error) Null); reflexivity.
  - intros key id items Hkey. rewrite Hnext.
    destruct (Hcases key) as [H|[H|[H|(n & Hn & H)]]]; rewrite H in Hkey.
    + discriminate.
    + specialize (Hwf _ _ _ Hkey). lia.
    + rewrite Hkey in Hforeign. destruct Hforeign.
    + injection Hkey as <- _. exact Hn.
Qed.

(** X18 on the view model as it is made, for the tab of the images. *)
Lemma setActiveTab_resets_witness :
  wellFormed create /\ foreign (Str (js "images-to-pdf"))
  /\ state (setActiveTab create (Str (js "images-to-pdf"))) resultBlobs
     = Arr (Own 3) [].
Proof.
  assert (wellFormed create) as Hwf.
  { intros key id items. destruct key; cbn; try discriminate;
      intros [= <- _]; reflexivity. }
  split; [exact Hwf|]. split; [exact I|].
  exact (proj1 (proj2 (proj2 (proj2
           (setActiveTab_resets create (Str (js "images-to-pdf")) Hwf I))))).
Defined.

Local Ltac look H := rewrite H; cbn [keyEq].

(** The last step of [convertPdfToImages]. *)
Lemma loading_ends_off vm (outcome : completion value) :
  truthy (state vm selectedPdf) = true ->
  state (convertPdfToImages vm outcome) isLoading = Bool false.
Proof.
  intros Hpdf. unfold convertPdfToImages. rewrite Hpdf. cbn [negb].
  cbv zeta. unfold setLoading.
  match goal with
  | |- state (setState ?vm3 _) _ = _ =>
      destruct (setState_one vm3 isLoading (Bool false)) as (S4 & _);
      rewrite S4; cbn [keyEq];
      destruct (strictEq (state vm3 isLoading) (Bool false)) eqn:E;
      [apply strictEq_Bool, E | reflexivity]
  end.
Qed.

(** X19. [convertPdfToImages] with a PDF selected ends with the loading
    flag off, whether the conversion gives images or fails.  With images,
    the results are the array of images and no error is held or shown;
    with a failure, the results stay, the error is the message and the
    message is shown once.  The PDF, the images, the tab and the
    observers stay.  Without a PDF selected nothing happens. *)
Theorem convertPdfToImages_ends vm (outcome : completion value) :
  (truthy (state vm selectedPdf) = false ->
   convertPdfToImages vm outcome = vm)
  /\ (truthy (state vm selectedPdf) = true ->
      state (convertPdfToImages vm outcome) isLoading = Bool false
      /\ state (convertPdfToImages vm outcome) selectedPdf
         = state vm selectedPdf
      /\ state (convertPdfToImages vm outcome) selectedImages
         = state vm selectedImages
      /\ state (convertPdfToImages vm outcome) activeTab
         = state vm activeTab
      /\ observers (convertPdfToImages vm outcome) = observers vm
      /\ match outcome with
         | Normal imageBlobs =>
             strictEq (state (convertPdfToImages vm outcome) resultBlobs)
                      imageBlobs = true
             /\ state (convertPdfToImages vm outcome) error = Null
             /\ shown (convertPdfToImages vm outcome) = shown vm
         | Throw message =>
             state (convertPdfToImages vm outcome) resultBlobs
             = state vm resultBlobs
             /\ state (convertPdfToImages vm outcome) error = Str message
             /\ shown (convertPdfToImages vm outcome)
                = shown vm ++ [message]
         end).
Proof.
  unfold convertPdfToImages. split; intros Hpdf; rewrite Hpdf; cbn [negb];
    [reflexivity|].
  unfold setLoading, clearError, setResultBlobs, setError.
  set (vm1 := setState vm [(isLoading, Bool true)]).
  set (vm2 := setState vm1 [(error, Null)]).
  destruct (setState_one vm isLoading (Bool true)) as (S1 & O1 & W1 & _).
  destruct (setState_one vm1 error Null) as (S2 & O2 & W2 & _).
  fold vm1 in S1, O1, W1. fold vm2 in S2, O2, W2.
  assert (state vm2 error = Null) as Herror.
  { rewrite S2. cbn [keyEq].
    destruct (strictEq (state vm1 error) Null) eqn:E; [|reflexivity].
    apply strictEq_Null, E. }
  assert (forall vm3,
            state (setState vm3 [(isLoading, Bool false)]) isLoading
            = Bool false) as Hoff.
  { intros vm3. destruct (setState_one vm3 isLoading (Bool false)) as (S4 & _).
    rewrite S4. cbn [keyEq].
    destruct (strictEq (state vm3 isLoading) (Bool false)) eqn:E;
      [|reflexivity].
    apply strictEq_Bool, E. }
  destruct outcome as [imageBlobs|message].
  - set (vm3 := setState vm2 [(resultBlobs, imageBlobs)]).
    destruct (setState_one vm2 resultBlobs imageBlobs) as (S3 & O3 & W3 & _).
    destruct (setState_one vm3 isLoading (Bool false)) as (S4 & O4 & W4 & _).
    fold vm3 in S3, O3, W3, S4, O4, W4.
    repeat match goal with |- _ /\ _ => split end.
    + apply Hoff.
    + look S4. look S3. look S2. look S1. reflexivity.
    + look S4. look S3. look S2. look S1. reflexivity.
    + look S4. look S3. look S2. look S1. reflexivity.
    + rewrite O4, O3, O2, O1. reflexivity.
    + look S4. look S3.
      destruct (strictEq (state vm2 resultBlobs) imageBlobs) eqn:E;
        [exact E | apply strictEq_refl].
    + look S4. look S3. exact Herror.
    + rewrite W4, W3, W2, W1. reflexivity.
  - set (vm3 := setState vm2 [(error, Str message)]).
    destruct (setState_one vm2 error (Str message)) as (S3 & O3 & W3 & _).
    destruct (setState_one (showError vm3 message) isLoading (Bool false))
      as (S4 & O4 & W4 & _).
    fold vm3 in S3, O3, W3, S4, O4, W4.
    cbn [showError state observers shown] in S4, O4, W4.
    repeat match goal with |- _ /\ _ => split end.
    + apply Hoff.
    + look S4. look S3. look S2. look S1. reflexivity.
    + look S4. look S3. look S2. look S1. reflexivity.
    + look S4. look S3. look S2. look S1. reflexivity.
    + rewrite O4, O3, O2, O1. reflexivity.
    + look S4. look S3. look S2. look S1. reflexivity.
    + look S4. look S3. rewrite Herror. reflexivity.
    + rewrite W4, W3, W2, W1. reflexivity.
Qed.

(** X19 for a PDF selected and a conversion that fails. *)
Lemma convertPdfToImages_ends_witness :
  truthy (state (setSelectedPdf create (File 7)) selectedPdf) = true
  /\ state (convertPdfToImages (setSelectedPdf create (File 7))
             (Throw (js "bad"))) isLoading = Bool false.
Proof.
  split; [reflexivity|].
  exact (proj1 (proj2 (convertPdfToImages_ends
                         (setSelectedPdf create (File 7)) (Throw (js "bad")))
                  eq_refl)).
Defined.

Lemma Forall_calls_key (key other : Key) st (callbacks : list nat) :
  key <> other ->
  Forall (fun call : Call => snd (fst call) <> other)
    (map (fun callback => (callback, key, st)) callbacks).
Proof.
  intros Hne. apply Forall_forall. intros call Hin.
  apply in_map_iff in Hin. destruct Hin as (callback & <- & _). exact Hne.
Qed.

(** X20. [convertPdfToImages] with a PDF selected, while nothing is
    loading: every observer is called for [isLoading] twice, at first
    with the flag on in the state it is passed, at last with the flag
    off, and whatever the observers are called for in between is not
    [isLoading]. *)
Theorem convertPdfToImages_loading vm (outcome : completion value) :
  truthy (state vm selectedPdf) = true ->
  state vm isLoading = Bool false ->
  exists between : list Call,
    calls (convertPdfToImages vm outcome)
    = calls vm
      ++ map (fun callback =>
                (callback, isLoading, state (setLoading vm (Bool true))))
             (observers vm)
      ++ between
      ++ map (fun callback =>
                (callback, isLoading, state (convertPdfToImages vm outcome)))
             (observers vm)
    /\ Forall (fun call => snd (fst call) <> isLoading) between
    /\ state (setLoading vm (Bool true)) isLoading = Bool true
    /\ state (convertPdfToImages vm outcome) isLoading = Bool false.
Proof.
  intros Hpdf Hidle.
  pose proof (loading_ends_off vm outcome Hpdf) as Hoff.
  revert Hoff.
  unfold convertPdfToImages. rewrite Hpdf. cbn [negb].
  unfold setLoading, clearError, setResultBlobs, setError.
  set (vm1 := setState vm [(isLoading, Bool true)]).
  set (vm2 := setState vm1 [(error, Null)]).
  destruct (setState_one vm isLoading (Bool true)) as (S1 & O1 & _ & _ & C1).
  destruct (setState_one vm1 error Null) as (S2 & O2 & _ & _ & C2).
  fold vm1 in S1, O1, C1. fold vm2 in S2, O2, C2.
  rewrite Hidle in C1. cbn [strictEq Bool.eqb] in C1.
  assert (state vm1 isLoading = Bool true) as Hon.
  { look S1. rewrite Hidle. reflexivity. }
  assert (forall vm3,
            state vm3 isLoading = Bool true ->
            observers vm3 = observers vm ->
            calls (setState vm3 [(isLoading, Bool false)])
            = calls vm3
              ++ map (fun callback =>
                        (callback, isLoading,
                         state (setState vm3 [(isLoading, Bool false)])))
                     (observers vm)) as Hlast.
  { intros vm3 H3 Hobs.
    destruct (setState_one vm3 isLoading (Bool false)) as (_ & _ & _ & _ & C4).
    rewrite C4, H3, Hobs. reflexivity. }
  destruct outcome as [imageBlobs|message]; intros Hoff.
  - set (vm3 := setState vm2 [(resultBlobs, imageBlobs)]) in *.
    destruct (setState_one vm2 resultBlobs imageBlobs)
      as (S3 & O3 & _ & _ & C3).
    fold vm3 in S3, O3, C3.
    match type of C2 with _ = _ ++ ?X => set (X2 := X) in * end.
    match type of C3 with _ = _ ++ ?X => set (X3 := X) in * end.
    exists (X2 ++ X3). split; [|split; [|split; [exact Hon | exact Hoff]]].
    + rewrite Hlast.
      * rewrite C3, C2, C1, <- !app_assoc. reflexivity.
      * look S3. look S2. exact Hon.
      * rewrite O3, O2, O1. reflexivity.
    + apply Forall_app. subst X2 X3. split.
      * destruct (strictEq (state vm1 error) Null); [constructor|].
        apply Forall_calls_key. discriminate.
      * destruct (strictEq (state vm2 resultBlobs) imageBlobs); [constructor|].
        apply Forall_calls_key. discriminate.
  - set (vm3 := setState vm2 [(error, Str message)]) in *.
    destruct (setState_one vm2 error (Str message))
      as (S3 & O3 & _ & _ & C3).
    fold vm3 in S3, O3, C3.
    match type of C2 with _ = _ ++ ?X => set (X2 := X) in * end.
    match type of C3 with _ = _ ++ ?X => set (X3 := X) in * end.
    exists (X2 ++ X3). split; [|split; [|split; [exact Hon | exact Hoff]]].
    + rewrite Hlast.
      * cbn [showError calls]. rewrite C3, C2, C1, <- !app_assoc. reflexivity.
      * cbn [showError state]. look S3. look S2. exact Hon.
      * cbn [showError observers]. rewrite O3, O2, O1. reflexivity.
    + apply Forall_app. subst X2 X3. split.
      * destruct (strictEq (state vm1 error) Null); [constructor|].
        apply Forall_calls_key. discriminate.
      * destruct (strictEq (state vm2 error) (Str message)); [constructor|].
        apply Forall_calls_key. discriminate.
Qed.

(** X20 for one observer, a PDF selected and a conversion that fails. *)
Lemma convertPdfToImages_loading_witness :
  truthy (state (subscribe (setSelectedPdf create (File 7)) 0%nat)
            selectedPdf) = true
  /\ state (subscribe (setSelectedPdf create (File 7)) 0%nat) isLoading
     = Bool false
  /\ exists between : list Call,
       calls (convertPdfToImages
                (subscribe (setSelectedPdf create (File 7)) 0%nat)
                (Throw (js "bad")))
       = calls (subscribe (setSelectedPdf create (File 7)) 0%nat)
         ++ map (fun callback =>
                   (callback, isLoading,
                    state (setLoading
                             (subscribe (setSelectedPdf create (File 7))
                                0%nat)
                             (Bool true))))
                (observers (subscribe (setSelectedPdf create (File 7)) 0%nat))
         ++ between
         ++ map (fun callback =>
                   (callback, isLoading,
                    state (convertPdfToImages
                             (subscribe (setSelectedPdf create (File 7))
                                0%nat)
                             (Throw (js "bad")))))
                (observers (subscribe (setSelectedPdf create (File 7)) 0%nat))
       /\ Forall (fun call => snd (fst call) <> isLoading) between
       /\ state (setLoading
                   (subscribe (setSelectedPdf create (File 7)) 0%nat)
                   (Bool true)) isLoading = Bool true
       /\ state (convertPdfToImages
                   (subscribe (setSelectedPdf create (File 7)) 0%nat)
                   (Throw (js "bad"))) isLoading = Bool false.
Proof.
  split; [reflexivity|]. split; [reflexivity|].
  exact (convertPdfToImages_loading
           (subscribe (setSelectedPdf create (File 7)) 0%nat)
           (Throw (js "bad")) eq_refl eq_refl).
Defined.

Lemma entry_In updates key v :
  entry updates key = Some v -> In (key, v) updates.
Proof.
  induction updates as [|[k w] updates IH]; [discriminate|].
  cbn [entry In]. destruct (keyEq key k) eqn:E.
  - apply keyEq_eq in E. intros [= ->]. left. congruence.
  - intros H. right. apply IH, H.
Qed.

(** [setState] keeps the arrays of the state older than [bound], if those
    it is given are. *)
Lemma setState_older vm updates (bound : N) :
  NoDup (map fst updates) ->
  (forall key id items,
     state vm key = Arr (Own id) items -> (id < bound)%N) ->
  (forall key id items,
     In (key, Arr (Own id) items) updates -> (id < bound)%N) ->
  forall key id items,
    state (setState vm updates) key = Arr (Own id) items -> (id < bound)%N.
Proof.
  intros Hnd Hold Hnew key id items.
  destruct (setState_spec vm updates Hnd) as (Hst & _). rewrite Hst.
  destruct (entry updates key) as [v|] eqn:E; [|apply Hold].
  destruct (strictEq (state vm key) v); [apply Hold|].
  intros ->. apply entry_In in E. exact (Hnew _ _ _ E).
Qed.

Local Ltac distinct_keys :=
  cbn; repeat (apply NoDup_cons_2;
               [rewrite ?elem_of_cons, elem_of_nil; intuition discriminate|]);
  apply NoDup_nil_2.

(** X22. Selecting a PDF or images always clears the results and the
    error: the results become a new empty array, so the observers are
    called for [resultBlobs] every time, also when there were no
    results.  [setSelectedImages] stores a new array with the files given
    and calls the observers for [selectedImages] every time;
    [setSelectedPdf] calls them for [selectedPdf] only when the file is
    not the one held, yet clears the results of the same file selected
    again. *)
Theorem setSelected_clears_results vm (file : value) (files : list N) :
  wellFormed vm -> foreign file ->
  (strictEq (state (setSelectedPdf vm file) selectedPdf) file = true
   /\ state (setSelectedPdf vm file) resultBlobs = Arr (Own (next vm)) []
   /\ state (setSelectedPdf vm file) error = Null
   /\ calls (setSelectedPdf vm file)
      = calls vm
        ++ flat_map
             (fun key =>
                map (fun callback =>
                       (callback, key, state (setSelectedPdf vm file)))
                    (observers vm))
             ((if strictEq (state vm selectedPdf) file then []
               else [selectedPdf])
              ++ [resultBlobs]
              ++ (if strictEq (state vm error) Null then [] else [error]))
   /\ wellFormed (setSelectedPdf vm file))
  /\ (state (setSelectedImages vm files) selectedImages
      = Arr (Own (next vm)) files
      /\ state (setSelectedImages vm files) resultBlobs
         = Arr (Own (N.succ (next vm))) []
      /\ state (setSelectedImages vm files) error = Null
      /\ calls (setSelectedImages vm files)
         = calls vm
           ++ flat_map
                (fun key =>
                   map (fun callback =>
                          (callback, key, state (setSelectedImages vm files)))
                       (observers vm))
                ([selectedImages; resultBlobs]
                 ++ (if strictEq (state vm error) Null then [] else [error]))
      /\ wellFormed (setSelectedImages vm files)).
Proof.
  intros Hwf Hforeign.
  assert (forall n items, (next vm <= n)%N ->
            strictEq (state vm selectedImages) (Arr (Own n) items) = false)
    as Himages by (intros; apply strictEq_fresh; assumption).
  assert (forall n items, (next vm <= n)%N ->
            strictEq (state vm resultBlobs) (Arr (Own n) items) = false)
    as Hblobs by (intros; apply strictEq_fresh; assumption).
  split.
  - unfold setSelectedPdf, newArray. cbn [state observers calls shown next].
    match goal with
    | |- context [setState ?vm0 ?u] => set (vm1 := vm0); set (updates := u)
    end.
    assert (NoDup (map fst updates)) as Hnd by distinct_keys.
    destruct (setState_spec vm1 updates Hnd)
      as (Hst & Hobs & Hsh & Hnext & Hcalls).
    pose proof (setState_older vm1 updates (N.succ (next vm)) Hnd) as Holder.
    change (state vm1) with (state vm) in *.
    change (observers vm1) with (observers vm) in *.
    change (calls vm1) with (calls vm) in *.
    change (next vm1) with (N.succ (next vm)) in *.
    repeat match goal with |- _ /\ _ => split end.
    + rewrite Hst. cbn [entry updates keyEq].
      destruct (strictEq (state vm selectedPdf) file) eqn:E; [exact E|].
      apply strictEq_refl.
    + rewrite Hst. cbn [entry updates keyEq].
      rewrite Hblobs by lia. reflexivity.
    + rewrite Hst. cbn [entry updates keyEq].
      destruct (strictEq (state vm error) Null) eqn:E; [|reflexivity].
      apply strictEq_Null, E.
    + rewrite Hcalls. do 2 f_equal. unfold changedKeys, updates.
      cbn [List.filter fst snd]. rewrite Hblobs by lia.
      destruct (strictEq (state vm selectedPdf) file),
        (strictEq (state vm error) Null); reflexivity.
    + intros key id items. rewrite Hnext. apply Holder.
      * intros key' id' items' H. specialize (Hwf _ _ _ H). lia.
      * intros key' id' items' [H|[H|[H|[]]]].
        -- injection H as _ H. rewrite H in Hforeign. destruct Hforeign.
        -- injection H as _ <- _. lia.
        -- discriminate H.
  - unfold setSelectedImages, newArray.
    cbn [state observers calls shown next].
    match goal with
    | |- context [setState ?vm0 ?u] => set (vm2 := vm0); set (updates := u)
    end.
    assert (NoDup (map fst updates)) as Hnd by distinct_keys.
    destruct (setState_spec vm2 updates Hnd)
      as (Hst & Hobs & Hsh & Hnext & Hcalls).
    pose proof (setState_older vm2 updates (N.succ (N.succ (next vm))) Hnd)
      as Holder.
    change (state vm2) with (state vm) in *.
    change (observers vm2) with (observers vm) in *.
    change (calls vm2) with (calls vm) in *.
    change (next vm2) with (N.succ (N.succ (next vm))) in *.
    repeat match goal with |- _ /\ _ => split end.
    + rewrite Hst. cbn [entry updates keyEq].
      rewrite Himages by lia. reflexivity.
    + rewrite Hst. cbn [entry updates keyEq].
      rewrite Hblobs by lia. reflexivity.
    + rewrite Hst. cbn [entry updates keyEq].
      destruct (strictEq (state vm error) Null) eqn:E; [|reflexivity].
      apply strictEq_Null, E.
    + rewrite Hcalls. do 2 f_equal. unfold changedKeys, updates.
      cbn [List.filter fst snd]. rewrite Himages, Hblobs by lia.
      destruct (strictEq (state vm error) Null); reflexivity.
    + intros key id items. rewrite Hnext. apply Holder.
      * intros key' id' items' H. specialize (Hwf _ _ _ H). lia.
      * intros key' id' items' [H|[H|[H|[]]]].
        -- injection H as _ <- _. lia.
        -- injection H as _ <- _. lia.
        -- discriminate H.
Qed.

(** X22 on the view model as it is made, for a file. *)
Lemma setSelected_clears_results_witness :
  wellFormed create /\ foreign (File 7)
  /\ state (setSelectedPdf create (File 7)) resultBlobs = Arr (Own 2) [].
Proof.
  assert (wellFormed create) as Hwf.
  { intros key id items. destruct key; cbn; try discriminate;
      intros [= <- _]; reflexivity. }
  split; [exact Hwf|]. split; [exact I|].
  exact (proj1 (proj2 (proj1
           (setSelected_clears_results create (File 7) [] Hwf I)))).
Defined.

End ViewModelFacts.

(* ===================================================================== *)
(** ** Further properties: the fallback of [splitPdf] *)
(* ===================================================================== *)

Section Fallback.

Local Abbreviation image q :=
  (fun p => [ {| Manual.source := p; Manual.quality := q |} ]).

Lemma addImage_snoc (newPdf : Manual.JsPdf) (page : list Manual.Image)
    (imageData : Manual.Image) :
  Manual.addImage (newPdf ++ [page]) imageData
  = newPdf ++ [page ++ [imageData]].
Proof.
  induction newPdf as [|first newPdf IH]; [reflexivity|].
  cbn [app]. rewrite <- IH.
  destruct (newPdf ++ [page]) as [|second rest] eqn:E; [|reflexivity].
  destruct newPdf; discriminate E.
Qed.

Lemma renderPage_in (numPages pageNum : Z) (q : float) :
  1 <= pageNum <= numPages ->
  Manual.renderPage numPages pageNum q
  = Normal {| Manual.source := pageNum; Manual.quality := q |}.
Proof.
  intros H. unfold Manual.renderPage, Manual.getPage.
  replace (1 <=? pageNum) with true by (symmetry; apply Z.leb_le; lia).
  replace (pageNum <=? numPages) with true by (symmetry; apply Z.leb_le; lia).
  reflexivity.
Qed.

Lemma foldM_rendered (numPages : Z) (pageNums : list Z) :
  forall (newPdf : Manual.JsPdf) (page : list Manual.Image),
    Forall (fun pageNum => 1 <= pageNum <= numPages) pageNums ->
    Manual.foldM (Manual.addRendered numPages) pageNums
      (newPdf ++ [page], false)
    = Normal ((newPdf ++ [page]) ++ map (image 0.85%float) pageNums, false).
Proof.
  induction pageNums as [|pageNum pageNums IH]; intros newPdf page Hall.
  - cbn. rewrite app_nil_r. reflexivity.
  - apply Forall_cons_iff in Hall. destruct Hall as [Hin Hall].
    cbn [Manual.foldM Manual.addRendered].
    rewrite (renderPage_in _ _ _ Hin). cbn [bind negb].
    unfold Manual.addPage. rewrite addImage_snoc. cbn [app].
    rewrite (IH _ _ Hall). cbn [map]. rewrite <- app_assoc. reflexivity.
Qed.

Lemma seqZ_shift {A} (f : Z -> A) (m len : Z) :
  map (fun i => f (i + 1)) (seqZ m len) = map f (seqZ (m + 1) len).
Proof.
  destruct (Z.le_gt_cases len 0) as [Hle | Hgt].
  - rewrite !seqZ_nil by lia. reflexivity.
  - rewrite <- (Z2Nat.id len) by lia. generalize (Z.to_nat len). clear.
    intros k. revert m. induction k as [|k IH]; intros m; [reflexivity|].
    rewrite !(seqZ_cons _ (Z.of_nat (S k))) by lia.
    rewrite Nat2Z.inj_succ, Z.pred_succ. cbn [map]. f_equal.
    replace (Z.succ (m + 1)) with (Z.succ m + 1) by lia. apply IH.
Qed.

(** The file of the pages [start .. end], when they are pages of the
    document. *)
Lemma pagesPdf_window (numPages first last : Z) :
  1 <= first -> first <= last -> last <= numPages ->
  Manual.pagesPdf numPages first last
  = Normal (imageFile 0.85%float
              (seqZ (first - 1) (last - (first - 1)), chunkName first last)).
Proof.
  intros H1 H2 H3. unfold Manual.pagesPdf, imageFile. cbn [fst snd].
  pose proof (seqZ_shift (image 0.85%float) (first - 1)
                (last - (first - 1))) as Hshift.
  cbn beta in Hshift. rewrite Hshift. clear Hshift.
  replace (first - 1 + 1) with first by lia.
  replace (last - (first - 1)) with (last - first + 1) by lia.
  assert (Forall (fun pageNum => 1 <= pageNum <= numPages)
            (seqZ first (last - first + 1))) as Hall.
  { apply Forall_seqZ. lia. }
  rewrite seqZ_cons in Hall |- * by lia.
  apply Forall_cons_iff in Hall. destruct Hall as [Hin Hall].
  cbn [Manual.foldM Manual.addRendered].
  rewrite (renderPage_in _ _ _ Hin). cbn [bind negb].
  change (Manual.addImage Manual.create ?im) with ([] ++ [[im]]).
  rewrite (foldM_rendered _ _ _ _ Hall). reflexivity.
Qed.

Lemma manual_each (numPages : Z) :
  forEachM (Manual.eachPdf numPages) (seqZ 1 numPages)
  = Normal (map (imageFile 0.8%float) (eachGroups numPages)).
Proof.
  unfold eachGroups. rewrite map_map.
  rewrite <- (map_id (seqZ 1 numPages)).
  change 1 with (0 + 1) at 1. rewrite <- seqZ_shift.
  apply forEachM_map_Normal. intros i Hi.
  apply list_elem_of_In, elem_of_seqZ in Hi.
  unfold Manual.eachPdf. rewrite renderPage_in by (unfold id; lia).
  reflexivity.
Qed.

Lemma manual_chunks (numPages size : Z) (fuel : nat) : forall i,
  0 <= i -> 1 <= size ->
  Manual.chunkLoop fuel numPages size (i + 1)
  = Normal (map (imageFile 0.85%float) (chunkLoop fuel numPages size i)).
Proof.
  induction fuel as [|fuel IH]; intros i Hi Hsize; [reflexivity|].
  cbn [Manual.chunkLoop chunkLoop].
  destruct (i <? numPages) eqn:E.
  - apply Z.ltb_lt in E.
    replace (i + 1 <=? numPages) with true by (symmetry; apply Z.leb_le; lia).
    replace (i + 1 + size - 1) with (i + size) by lia.
    rewrite pagesPdf_window by lia. cbn [bind].
    replace (i + 1 + size) with (i + size + 1) by lia.
    rewrite IH by lia. cbn [bind map]. do 2 f_equal.
    replace (i + 1 - 1) with i by lia. reflexivity.
  - apply Z.ltb_ge in E.
    replace (i + 1 <=? numPages) with false by (symmetry; apply Z.leb_gt; lia).
    reflexivity.
Qed.

Lemma manual_ranges (numPages : Z) (rangeList : list Range) :
  Forall (inBounds numPages) rangeList ->
  forEachM (fun r => Manual.pagesPdf numPages (start r) (end_ r)) rangeList
  = Normal (map (imageFile 0.85%float) (rangeGroups rangeList)).
Proof.
  intros Hall. unfold rangeGroups. rewrite map_map.
  rewrite <- (map_id rangeList) at 1.
  apply forEachM_map_Normal. intros r Hr.
  rewrite Forall_forall in Hall. destruct (Hall r Hr) as (H1 & H2 & H3).
  unfold id. rewrite pagesPdf_window by lia. reflexivity.
Qed.

(** The groups of the three loops of [_splitWithPDFLib] hold indices of
    pages of the document. *)
Lemma each_in_range (pageCount : Z) :
  Forall (fun group => Forall (fun i => 0 <= i < pageCount) (fst group))
    (eachGroups pageCount).
Proof.
  unfold eachGroups. apply Forall_forall. intros group Hin.
  apply in_map_iff in Hin. destruct Hin as (i & <- & Hi).
  apply list_elem_of_In, elem_of_seqZ in Hi.
  cbn [fst]. constructor; [lia | constructor].
Qed.

Lemma chunks_in_range (pageCount size : Z) (fuel : nat) : forall i,
  0 <= i -> 1 <= size ->
  Forall (fun group => Forall (fun j => 0 <= j < pageCount) (fst group))
    (chunkLoop fuel pageCount size i).
Proof.
  induction fuel as [|fuel IH]; intros i Hi Hsize; [constructor|].
  cbn [chunkLoop]. destruct (i <? pageCount); [|constructor].
  constructor; [|apply IH; lia].
  cbn [fst]. apply Forall_seqZ. lia.
Qed.

Lemma ranges_in_range (pageCount : Z) (rangeList : list Range) :
  Forall (inBounds pageCount) rangeList ->
  Forall (fun group => Forall (fun i => 0 <= i < pageCount) (fst group))
    (rangeGroups rangeList).
Proof.
  intros Hall. unfold rangeGroups. apply Forall_forall. intros group Hin.
  apply in_map_iff in Hin. destruct Hin as (r & <- & Hr).
  rewrite Forall_forall in Hall. destruct (Hall r Hr) as (H1 & H2 & H3).
  cbn [fst]. apply Forall_seqZ. lia.
Qed.

Lemma copyPages_in (pdfDoc : Document) (indices : list Z) :
  Forall (fun i => 0 <= i < getPageCount pdfDoc) indices ->
  exists pages,
    copyPages pdfDoc indices = Normal pages
    /\ Forall2 (fun i page => pdfDoc !! Z.to_nat i = Some page) indices pages.
Proof.
  unfold copyPages.
  induction indices as [|i indices IH]; intros Hall.
  - exists []. split; [reflexivity | constructor].
  - apply Forall_cons_iff in Hall. destruct Hall as [Hi Hall].
    destruct (IH Hall) as (pages & Hpages & Hall2).
    destruct (lookup_lt_is_Some_2 pdfDoc (Z.to_nat i)) as [page Hpage].
    { unfold getPageCount in Hi. lia. }
    exists (page :: pages). split; [|constructor; assumption].
    cbn [forEachM]. rewrite Hpages. unfold copyPage.
    replace (0 <=? i) with true by (symmetry; apply Z.leb_le; lia).
    rewrite Hpage. reflexivity.
Qed.

(** The files of PDF-lib for groups of page indices, beside the files
    of the fallback for the same groups. *)
Lemma newPdf_beside (pdfDoc : Document) (q : float)
    (groups : list (list Z * jsstring)) :
  Forall (fun group =>
            Forall (fun i => 0 <= i < getPageCount pdfDoc) (fst group))
    groups ->
  exists libOuts,
    forEachM (newPdf pdfDoc) groups = Normal libOuts
    /\ Forall2 (sameFile pdfDoc q) (map (imageFile q) groups) libOuts.
Proof.
  induction groups as [|[indices fileName] groups IH]; intros Hall.
  - exists []. split; [reflexivity | constructor].
  - apply Forall_cons_iff in Hall. destruct Hall as [Hgroup Hall].
    destruct (IH Hall) as (libOuts & Hlib & Hsame).
    destruct (copyPages_in pdfDoc indices Hgroup) as (pages & Hpages & Hall2).
    exists ({| blob := pages; name := fileName |} :: libOuts). split.
    + cbn [forEachM newPdf]. rewrite Hpages. cbn [bind].
      rewrite fold_addPage, Hlib. reflexivity.
    + cbn [map]. constructor; [|exact Hsame].
      split; [reflexivity|]. cbn [imageFile Manual.blob blob fst].
      clear -Hall2 Hgroup. induction Hall2 as [|i page indices pages Hi _ IH2].
      * constructor.
      * apply Forall_cons_iff in Hgroup. destruct Hgroup as [Hin Hgroup].
        cbn [map]. constructor; [|apply IH2, Hgroup].
        exists (i + 1). split; [reflexivity|]. split; [lia|].
        replace (i + 1 - 1) with i by lia. exact Hi.
Qed.

(** X21. Without PDF-lib, [splitPdf] falls back on [_splitManually]: it
    never fails either, and it gives the files PDF-lib would give, as
    images: as many files, in the same order and under the same names,
    each with as many pages, and every page holds one image, that of the
    page of the document which the file of PDF-lib has at that place;
    the JPEG quality is 0.8 page by page and 0.85 otherwise. *)
Theorem splitManually_as_PDFLib (pdfDoc : Document) (method : jsstring)
    (ranges : option jsstring) :
  exists outs libOuts,
    Manual.splitPdf (getPageCount pdfDoc) method ranges = Normal outs
    /\ splitPdf pdfDoc method ranges = Normal libOuts
    /\ Forall2 (sameFile pdfDoc (qualityOf method)) outs libOuts.
Proof.
  assert (0 <= getPageCount pdfDoc) as Hcount by (unfold getPageCount; lia).
  assert (1 <= pagesPerChunk ranges) as Hsize by (unfold pagesPerChunk; lia).
  unfold Manual.splitPdf, Manual._splitManually, splitPdf, _splitWithPDFLib,
    qualityOf.
  destruct (eqs method (js "each")).
  { rewrite manual_each.
    destruct (newPdf_beside pdfDoc 0.8%float _
                (each_in_range (getPageCount pdfDoc)))
      as (libOuts & -> & Hsame).
    eexists _, libOuts. repeat split. exact Hsame. }
  destruct (eqs method (js "pages")).
  { change 1 with (0 + 1) at 1. rewrite manual_chunks by lia.
    destruct (newPdf_beside pdfDoc 0.85%float _
                (chunks_in_range (getPageCount pdfDoc) (pagesPerChunk ranges)
                   (Z.to_nat (getPageCount pdfDoc)) 0 (Z.le_refl 0) Hsize))
      as (libOuts & Hlib & Hsame).
    unfold chunkGroups. rewrite Hlib.
    eexists _, libOuts. repeat split. exact Hsame. }
  destruct (eqs method (js "range") && truthy ranges).
  { rewrite parseRanges_omap. cbn [bind].
    assert (Forall (inBounds (getPageCount pdfDoc))
              (omap (rangeOf (getPageCount pdfDoc))
                    (split COMMA (text ranges)))) as Hall.
    { apply Forall_forall. intros r Hr.
      apply list_elem_of_In, list_elem_of_omap in Hr.
      destruct Hr as (part & _ & Hpart).
      exact (rangeOf_inBounds _ _ _ Hpart). }
    rewrite (manual_ranges _ _ Hall).
    destruct (newPdf_beside pdfDoc 0.85%float _ (ranges_in_range _ _ Hall))
      as (libOuts & -> & Hsame).
    eexists _, libOuts. repeat split. exact Hsame. }
  exists [], []. repeat split. constructor.
Qed.

End Fallback.
